(** * ChainPort: the Solana devnet wallet demo

    A shallow embedding of the four iterations of [App.jsx] kept in the
    repository:

    - [Simple]       : [src/App.jsx], the first iteration (airdrop and send);
    - [Signer]       : the iteration that adds the message signer with a
                       hand-written hex encoding of the signature;
    - [BoundedRetry] : the iteration whose send handler retries three times
                       on blockhash errors;
    - [RetryConfirm] : the iteration with [confirmTransactionWithRetry], the
                       confirmation loop with a 60 s budget.

    JavaScript numbers are IEEE-754 doubles and are modelled by Rocq's
    primitive binary64 floats; strings are byte strings; the wallet and the
    RPC node are an oracle that answers every call with a settled promise and
    the time it took, and says what [SystemProgram.transfer] of the web3
    package throws; [async] functions run in a monad that threads the clock
    and the component state and records every call that leaves the page. *)

From Stdlib Require Import ZArith NArith List Bool String Ascii Lia.
From Stdlib Require Import Strings.Byte Floats.
Import ListNotations.

Local Open Scope string_scope.
Local Open Scope Z_scope.

(* ------------------------------------------------------------------ *)
(** ** Strings as the handlers use them *)

Module JsString.

(** [p] is a prefix of [s]. *)
Fixpoint startsWith (s p : string) : bool :=
  match p, s with
  | EmptyString, _ => true
  | String _ _, EmptyString => false
  | String a p', String b s' => Ascii.eqb a b && startsWith s' p'
  end.

(** [String.prototype.includes]: [p] occurs somewhere in [s]. *)
Fixpoint includes (s p : string) : bool :=
  startsWith s p ||
  match s with
  | EmptyString => false
  | String _ s' => includes s' p
  end.


(** The filler of [padStart]: the first [n] characters of [pad] repeated;
    [cur] is what is left of the current copy of [pad]. *)
Fixpoint filler (n : nat) (pad cur : string) : string :=
  match n with
  | O => EmptyString
  | S n' =>
      match cur with
      | String c cur' => String c (filler n' pad cur')
      | EmptyString =>
          match pad with
          | String c cur' => String c (filler n' pad cur')
          | EmptyString => EmptyString
          end
      end
  end.

(** [String.prototype.padStart(targetLength, padString)]. *)
Definition padStart (s : string) (targetLength : nat) (padString : string) : string :=
  filler (targetLength - String.length s) padString padString ++ s.

(** [Array.prototype.join(sep)] on an array of strings. *)
Definition join (sep : string) (parts : list string) : string :=
  String.concat sep parts.

(** [array.join('\n')]. *)
Definition newline : string := String (ascii_of_nat 10) EmptyString.

End JsString.

(* ------------------------------------------------------------------ *)
(** ** Hex encodings of a signature *)

Module Hex.

(** The digit of [Number.prototype.toString(16)] for a value below 16. *)
Definition digit (d : N) : ascii :=
  match d with
  | 0 => "0" | 1 => "1" | 2 => "2" | 3 => "3" | 4 => "4" | 5 => "5"
  | 6 => "6" | 7 => "7" | 8 => "8" | 9 => "9" | 10 => "a" | 11 => "b"
  | 12 => "c" | 13 => "d" | 14 => "e" | _ => "f"
  end%N%char.

(** Digits of [n] in base 16, most significant first, in front of [acc]. *)
Fixpoint digits16 (fuel : nat) (n : N) (acc : string) : string :=
  match fuel with
  | O => acc
  | S fuel' =>
      let acc' := String (digit (n mod 16)) acc in
      if (n / 16 =? 0)%N then acc' else digits16 fuel' (n / 16)%N acc'
  end.

(** [n.toString(16)] for a non-negative integer [n]: no leading zero, and
    ["0"] for zero. *)
Definition toString16 (n : N) : string :=
  digits16 (S (N.to_nat (N.log2 n))) n EmptyString.

(** The callback of the signer iteration:
    [b => b.toString(16).padStart(2, '0')]. *)
Definition byteToHex (b : byte) : string :=
  JsString.padStart (toString16 (Byte.to_N b)) 2 "0".

(** [Array.from(signature).map(b => b.toString(16).padStart(2, '0')).join('')]. *)
Definition manualHex (signature : list byte) : string :=
  JsString.join "" (map byteToHex signature).

(** The alphabet of the buffer package's hex table. *)
Definition alphabet : list ascii :=
  list_ascii_of_string "0123456789abcdef".

(** Entry [b] of the buffer package's [hexSliceLookupTable]:
    [alphabet[i] + alphabet[j]] at index [16 * i + j]. *)
Definition hexSliceLookup (b : byte) : string :=
  let n := N.to_nat (Byte.to_N b) in
  String (nth (n / 16)%nat alphabet "0"%char)
    (String (nth (n mod 16)%nat alphabet "0"%char) EmptyString).

(** [Buffer.from(sig).toString("hex")]: the table entry of every byte,
    appended in order. *)
Fixpoint bufferHex (sig : list byte) : string :=
  match sig with
  | [] => EmptyString
  | b :: rest => hexSliceLookup b ++ bufferHex rest
  end.

End Hex.

(* ------------------------------------------------------------------ *)
(** ** Numbers *)

Module JsNumber.

(** [LAMPORTS_PER_SOL] of the web3 package. *)
Definition LAMPORTS_PER_SOL : float := 1000000000%float.

(** A whole number of magnitude below [2^63] as a double. *)
Definition ofInteger (n : Z) : float :=
  if n <? 0 then PrimFloat.opp (PrimFloat.of_uint63 (Uint63.of_Z (- n)))
  else PrimFloat.of_uint63 (Uint63.of_Z n).

(** [isNaN(x)]. *)
Definition isNaN (x : float) : bool := PrimFloat.is_nan x.

(** [Math.round(x)]: the nearest integer, a tie going up; NaN, the
    infinities and the zeros are returned as they are, and what rounds to
    zero keeps the sign of [x].  A finite double is [±m * 2^e]. *)
Definition Math_round (x : float) : float :=
  match Prim2SF x with
  | S754_finite s m e =>
      if 0 <=? e then x
      else
        let d := 2 ^ (- e) in
        let twice := if s then - (2 * Z.pos m) else 2 * Z.pos m in
        let n := (twice + d) / (2 * d) in
        if n =? 0 then (if s then PrimFloat.opp PrimFloat.zero else PrimFloat.zero)
        else ofInteger n
  | _ => x
  end.

(** [bal / LAMPORTS_PER_SOL], the balance in SOL that [getBalance] stores. *)
Definition lamportsToSol (bal : float) : float :=
  PrimFloat.div bal LAMPORTS_PER_SOL.

(** [amount * LAMPORTS_PER_SOL], the lamports of the first three iterations. *)
Definition solToLamports (amount : float) : float :=
  PrimFloat.mul amount LAMPORTS_PER_SOL.

(** [Math.round(amount * LAMPORTS_PER_SOL)], the lamports of the last
    iteration. *)
Definition solToWholeLamports (amount : float) : float :=
  Math_round (PrimFloat.mul amount LAMPORTS_PER_SOL).

End JsNumber.

(* ------------------------------------------------------------------ *)
(** ** The runtime: promises, the oracle, the clock and the monad *)

Module Js.

(** A thrown value: [err.name], [err.message], [err.logs] where the value
    has them, and whether the value was made by the class
    [SendTransactionError] of the web3 package.  The class and the name are
    independent: the name is a property that the class may leave as
    ["Error"]. *)
Record JsError := mkError {
  name : string;
  message : string;
  logs : option (list string);
  ofSendTransactionError : bool
}.

(** [new Error(msg)]. *)
Definition Error (msg : string) : JsError := mkError "Error" msg None false.

(** [err instanceof SendTransactionError]. *)
Definition isSendTransactionError (e : JsError) : bool :=
  ofSendTransactionError e.

(** How a promise settles. *)
Inductive Settled (A : Type) : Type :=
| Fulfilled (value : A)
| Rejected (reason : JsError).
Arguments Fulfilled {A} value.
Arguments Rejected {A} reason.

(** An answer of the wallet or the node: how long it took (ms) and how the
    promise settled. *)
Record Reply (A : Type) : Type := mkReply {
  took : N;
  settled : Settled A
}.
Arguments mkReply {A} took settled.
Arguments took {A} r.
Arguments settled {A} r.

(** A blockhash lease: [{ blockhash, lastValidBlockHeight }]. *)
Record Lease := mkLease {
  blockhash : string;
  lastValidBlockHeight : Z
}.

(** A transaction with its single [SystemProgram.transfer] instruction. *)
Record Transaction := mkTransaction {
  feePayer : option string;
  recentBlockhash : option string;
  fromPubkey : string;
  toPubkey : string;
  lamports : float
}.

(** The two ways [connection.confirmTransaction] is called: with a signature
    and a commitment, or with a strategy object and a commitment. *)
Inductive ConfirmRequest : Type :=
| BySignature (signature commitment : string)
| ByStrategy (signature : string) (lease : Lease)
    (minContextSlot : option Z) (commitment : string).

(** The platform, the wallet and the node.  Every asynchronous call gets the
    number of asynchronous calls made before it, so that answers may change
    from one call to the next.
    - [parseFloat] of a text or of [null];
    - [newPublicKey]: [new PublicKey(text)], [None] when it throws;
    - [trim]: [String.prototype.trim];
    - [encode]: [new TextEncoder().encode];
    - [getBalance] to [getLatestBlockhashAndContext]: methods of [connection];
      [confirmTransaction] is fulfilled with [confirmation.value.err]
      ([None] for [null]);
    - [sendTransaction] and [signMessage]: the wallet adapter, the former
      with the [minContextSlot] option when one is passed;
    - [timerLag]: how late a timer fires (ms);
    - [transferThrows]: what [SystemProgram.transfer] of the web3 package
      throws on these keys and lamports, [None] when it returns the
      instruction. *)
Record Oracle := mkOracle {
  parseFloat : option string -> float;
  newPublicKey : string -> option string;
  trim : string -> string;
  encode : string -> list byte;
  getBalance : nat -> string -> Reply float;
  requestAirdrop : nat -> string -> float -> Reply string;
  confirmTransaction : nat -> ConfirmRequest -> Reply (option string);
  getRecentBlockhash : nat -> Reply string;
  getLatestBlockhash : nat -> string -> Reply Lease;
  getLatestBlockhashAndContext : nat -> Reply (Z * Lease);
  sendTransaction : nat -> Transaction -> option Z -> Reply string;
  signMessage : nat -> list byte -> Reply (list byte);
  timerLag : nat -> N;
  transferThrows : string -> string -> float -> option JsError
}.

(** A piece of a template literal. *)
Inductive Piece : Type :=
| Lit (s : string)
| Num (x : float).

(** What leaves the component, with the clock at the moment of the call. *)
Inductive Event : Type :=
| CallGetBalance (at_ : Z) (owner : string) (r : Settled float)
| CallRequestAirdrop (at_ : Z) (to : string) (amount : float) (r : Settled string)
| CallConfirm (at_ : Z) (req : ConfirmRequest) (r : Settled (option string))
| CallGetRecentBlockhash (at_ : Z) (r : Settled string)
| CallGetLatestBlockhash (at_ : Z) (commitment : string) (r : Settled Lease)
| CallGetLatestBlockhashAndContext (at_ : Z) (r : Settled (Z * Lease))
| CallSendTransaction (at_ : Z) (tx : Transaction) (minContextSlot : option Z)
    (r : Settled string)
| CallSignMessage (at_ : Z) (msg : list byte) (r : Settled (list byte))
| Timer (at_ : Z) (ms : Z)
| Alert (text : list Piece)
| ConsoleLog (text : string)
| ConsoleError (err : JsError).

(** Calls that reach the wallet or the node. *)
Definition isNetworkCall (ev : Event) : bool :=
  match ev with
  | Timer _ _ | Alert _ | ConsoleLog _ | ConsoleError _ => false
  | _ => true
  end.

(** The clock, the number of asynchronous calls made, and the state hooks of
    a component. *)
Record World := mkWorld {
  now : Z;
  calls : nat;
  loading : bool;
  error : option string;
  balance : option float;
  signature : string
}.

(** How a block of statements ends: it falls through with a value, executes
    [return], throws, or waits for ever ([Pending], a loop out of fuel). *)
Inductive Completion (R A : Type) : Type :=
| Normal (a : A)
| Return (r : R)
| Throw (e : JsError)
| Pending.
Arguments Normal {R A} a.
Arguments Return {R A} r.
Arguments Throw {R A} e.
Arguments Pending {R A}.

Record Run (R A : Type) : Type := mkRun {
  completion : Completion R A;
  world : World;
  events : list Event
}.
Arguments mkRun {R A} completion world events.
Arguments completion {R A} r.
Arguments world {R A} r.
Arguments events {R A} r.

Definition M (R A : Type) : Type := World -> Run R A.

Definition ret {R A} (a : A) : M R A := fun w => mkRun (Normal a) w [].
Definition return_ {R A} (r : R) : M R A := fun w => mkRun (Return r) w [].
Definition throw {R A} (e : JsError) : M R A := fun w => mkRun (Throw e) w [].
Definition pending {R A} : M R A := fun w => mkRun Pending w [].

(** Runs [k] after [r] when [r] fell through, and ends as [r] otherwise. *)
Definition andThen {R A B} (r : Run R A) (k : A -> M R B) : Run R B :=
  match completion r with
  | Normal a =>
      let r' := k a (world r) in
      mkRun (completion r') (world r') (events r ++ events r')
  | Return v => mkRun (Return v) (world r) (events r)
  | Throw e => mkRun (Throw e) (world r) (events r)
  | Pending => mkRun Pending (world r) (events r)
  end.

Definition bind {R A B} (m : M R A) (k : A -> M R B) : M R B :=
  fun w => andThen (m w) k.

Declare Scope js_scope.
Delimit Scope js_scope with js.
Notation "x <- m ;; k" := (bind m (fun x => k))
  (at level 61, m at next level, right associativity) : js_scope.
Notation "m ;; k" := (bind m (fun _ => k))
  (at level 61, right associativity) : js_scope.
Local Open Scope js_scope.

Definition emit {R} (ev : Event) : M R unit := fun w => mkRun (Normal tt) w [ev].
Definition alert {R} (text : list Piece) : M R unit := emit (Alert text).
Definition consoleLog {R} (text : string) : M R unit := emit (ConsoleLog text).
Definition consoleError {R} (e : JsError) : M R unit := emit (ConsoleError e).

(** [Date.now()]. *)
Definition dateNow {R} : M R Z := fun w => mkRun (Normal (now w)) w [].

Definition setLoading {R} (b : bool) : M R unit :=
  fun w => mkRun (Normal tt)
    (mkWorld (now w) (calls w) b (error w) (balance w) (signature w)) [].
Definition setError {R} (e : option string) : M R unit :=
  fun w => mkRun (Normal tt)
    (mkWorld (now w) (calls w) (loading w) e (balance w) (signature w)) [].
Definition setBalance {R} (b : float) : M R unit :=
  fun w => mkRun (Normal tt)
    (mkWorld (now w) (calls w) (loading w) (error w) (Some b) (signature w)) [].
Definition setSignature {R} (s : string) : M R unit :=
  fun w => mkRun (Normal tt)
    (mkWorld (now w) (calls w) (loading w) (error w) (balance w) s) [].

(** The world after an asynchronous call that lasted [ms]; the durations
    come from the oracle as naturals, so the clock never runs backwards. *)
Definition elapse (ms : Z) (w : World) : World :=
  mkWorld (now w + ms) (S (calls w)) (loading w) (error w) (balance w) (signature w).

(** [await] of a call: the oracle answers call number [calls w]; the clock
    moves by the time the answer took; a rejection is thrown. *)
Definition await {R A} (ask : nat -> Reply A) (record : Z -> Settled A -> Event)
  : M R A :=
  fun w =>
    let reply := ask (calls w) in
    let w' := elapse (Z.of_N (took reply)) w in
    let ev := record (now w) (settled reply) in
    match settled reply with
    | Fulfilled a => mkRun (Normal a) w' [ev]
    | Rejected e => mkRun (Throw e) w' [ev]
    end.

(** [await new Promise(resolve => setTimeout(resolve, ms))]: the timer fires
    no earlier than [ms] (a negative delay counts as zero) and as much later
    as the oracle says. *)
Definition sleep {R} (env : Oracle) (ms : Z) : M R unit :=
  fun w =>
    mkRun (Normal tt)
      (elapse (Z.max 0 ms + Z.of_N (timerLag env (calls w))) w)
      [Timer (now w) ms].

(** [SystemProgram.transfer({ fromPubkey, toPubkey, lamports })]: a
    synchronous call of the library, which returns the instruction or
    throws. *)
Definition systemTransfer {R} (env : Oracle) (fromPubkey toPubkey : string)
  (lamports : float) : M R unit :=
  match transferThrows env fromPubkey toPubkey lamports with
  | Some e => throw e
  | None => ret tt
  end.

(** [try { body } catch (err) { handler }]. *)
Definition tryCatch {R A} (body : M R A) (handler : JsError -> M R A) : M R A :=
  fun w =>
    let r := body w in
    match completion r with
    | Throw e =>
        let r' := handler e (world r) in
        mkRun (completion r') (world r') (events r ++ events r')
    | _ => r
    end.

(** [... finally { fin }] after a block that ended as [r]: nothing runs
    after a block that never ends; otherwise [fin] runs, and the block's
    completion stands unless [fin] itself returns or throws. *)
Definition finally_ {R A} (r : Run R A) (fin : M R unit) : Run R A :=
  match completion r with
  | Pending => r
  | c =>
      let r' := fin (world r) in
      mkRun
        match completion r' with
        | Normal _ => c
        | Return v => Return v
        | Throw e => Throw e
        | Pending => Pending
        end
        (world r') (events r ++ events r')
  end.

(** [try { body } catch (err) { handler } finally { fin }]. *)
Definition tryCatchFinally {R A} (body : M R A) (handler : JsError -> M R A)
  (fin : M R unit) : M R A :=
  fun w => finally_ (tryCatch body handler w) fin.

(** The call of an [async] function whose body is [body]: a [return v]
    becomes the value of the call, falling off the end gives [dflt]
    ([undefined]); a throw rejects the promise. *)
Definition callAsync {R A B} (dflt : A) (body : M A B) : M R A :=
  fun w =>
    let r := body w in
    mkRun
      match completion r with
      | Normal _ => Normal dflt
      | Return v => Normal v
      | Throw e => Throw e
      | Pending => Pending
      end
      (world r) (events r).

End Js.

Import Js.
Local Open Scope js_scope.

(** [if (c) { alert(text); return; }], the shape of every guard. *)
Definition rejectWhen (c : bool) (text : string) : M unit unit :=
  if c then alert [Lit text] ;; return_ tt else ret tt.

(** [!s] for a value that is a string or [null]. *)
Definition falsy (s : option string) : bool :=
  match s with
  | None => true
  | Some s' => String.eqb s' ""
  end.

(** [isNaN(amount) || amount <= 0]. *)
Definition notPositive (amount : float) : bool :=
  JsNumber.isNaN amount || PrimFloat.leb amount PrimFloat.zero.

(* ------------------------------------------------------------------ *)
(** ** [src/App.jsx]: airdrop and send, no retry *)

Module Simple.
Section Handlers.

Variable env : Oracle.
Variable publicKey : option string.

(** [getBalance]. *)
Definition getBalance : M unit unit :=
  callAsync tt
    (match publicKey with
     | None => return_ tt
     | Some key =>
         tryCatch
           (bal <- await (fun n => Js.getBalance env n key) (fun t => CallGetBalance t key) ;;
            setBalance (JsNumber.lamportsToSol bal))
           (fun err => setError (Some "Failed to fetch balance") ;; consoleError err)
     end).

(** The [try] statement of [requestAirdrop]. *)
Definition airdrop (key : string) (amount : float) : M unit unit :=
  tryCatchFinally
    (signature <- await
        (fun n => Js.requestAirdrop env n key (JsNumber.solToLamports amount))
        (fun t => CallRequestAirdrop t key (JsNumber.solToLamports amount)) ;;
     await (fun n => confirmTransaction env n (BySignature signature "finalized"))
        (fun t => CallConfirm t (BySignature signature "finalized")) ;;
     getBalance ;;
     alert [Lit "Successfully airdropped "; Num amount; Lit " SOL!"])
    (fun err => setError (Some "Failed to request airdrop") ;; consoleError err)
    (setLoading false).

(** [requestAirdrop]; [amountInput] is the value of the input field. *)
Definition requestAirdrop (amountInput : string) : M unit unit :=
  callAsync tt
    (match publicKey with
     | None => alert [Lit "Please connect your wallet first."] ;; return_ tt
     | Some key =>
         let amount := parseFloat env (Some amountInput) in
         rejectWhen (JsNumber.isNaN amount) "Please enter a valid amount" ;;
         rejectWhen (PrimFloat.leb amount PrimFloat.zero) "Amount must be greater than 0" ;;
         setLoading true ;;
         setError None ;;
         airdrop key amount
     end).

(** The [try] statement of [handleSend]. *)
Definition submit (key to : string) (amount : float) : M unit unit :=
  tryCatchFinally
    (toKey <- match newPublicKey env to with
              | Some k => ret k
              | None => throw (Error "Invalid public key input")
              end ;;
     systemTransfer env key toKey (JsNumber.solToLamports amount) ;;
     recent <- await (getRecentBlockhash env) CallGetRecentBlockhash ;;
     let transaction :=
       mkTransaction (Some key) (Some recent) key toKey (JsNumber.solToLamports amount) in
     signature <- await (fun n => sendTransaction env n transaction None)
                    (fun t => CallSendTransaction t transaction None) ;;
     await (fun n => confirmTransaction env n (BySignature signature "confirmed"))
        (fun t => CallConfirm t (BySignature signature "confirmed")) ;;
     alert [Lit "Successfully sent "; Num amount; Lit " SOL to "; Lit to])
    (fun err =>
       setError (Some "Transaction failed") ;;
       consoleError err ;;
       alert [Lit "Transaction failed. Please try again."])
    (setLoading false).

(** [handleSend]; [to] and [amountInput] are what the two prompts return. *)
Definition handleSend (to amountInput : option string) : M unit unit :=
  callAsync tt
    (match publicKey with
     | None => alert [Lit "Please connect your wallet first."] ;; return_ tt
     | Some key =>
         rejectWhen (falsy to) "Recipient address is required" ;;
         let to' := match to with Some s => s | None => "" end in
         rejectWhen (match newPublicKey env to' with Some _ => false | None => true end)
           "Invalid recipient address" ;;
         let amount := parseFloat env amountInput in
         rejectWhen (notPositive amount) "Please enter a valid amount greater than 0" ;;
         setLoading true ;;
         setError None ;;
         submit key to' amount
     end).

End Handlers.
End Simple.

(* ------------------------------------------------------------------ *)
(** ** The signer iteration: [handleSignMessage] with the manual hex *)

Module Signer.
Section Handlers.

Variable env : Oracle.
Variable publicKey : option string.

(** The [try] statement of [handleSignMessage]. *)
Definition sign (message : string) : M unit unit :=
  tryCatchFinally
    (let messageBytes := encode env message in
     signature <- await (fun n => signMessage env n messageBytes)
                    (fun t => CallSignMessage t messageBytes) ;;
     let signatureHex := Hex.manualHex signature in
     setSignature signatureHex)
    (fun err => setError (Some "Failed to sign message") ;; consoleError err)
    (setLoading false).

(** [handleSignMessage]; [message] is the state of the text area. *)
Definition handleSignMessage (message : string) : M unit unit :=
  callAsync tt
    (rejectWhen (match publicKey with None => true | Some _ => false end)
       "Please connect your wallet first." ;;
     rejectWhen (String.eqb (trim env message) "") "Please enter a message to sign" ;;
     setLoading true ;;
     setError None ;;
     sign message).

End Handlers.
End Signer.

(* ------------------------------------------------------------------ *)
(** ** The bounded-retry iteration: three attempts on blockhash errors *)

Module BoundedRetry.
Section Handlers.

Variable env : Oracle.
Variable publicKey : option string.

(** One pass through the inner [try] block: fetch a lease, build, send,
    confirm, report, [return]. *)
Definition attempt (key to toPublicKey : string) (amount : float) : M unit unit :=
  ctx <- await (getLatestBlockhashAndContext env) CallGetLatestBlockhashAndContext ;;
  let minContextSlot := fst ctx in
  let lease := snd ctx in
  systemTransfer env key toPublicKey (JsNumber.solToLamports amount) ;;
  let transaction :=
    mkTransaction (Some key) (Some (blockhash lease)) key toPublicKey
      (JsNumber.solToLamports amount) in
  signature <- await (fun n => sendTransaction env n transaction (Some minContextSlot))
                 (fun t => CallSendTransaction t transaction (Some minContextSlot)) ;;
  let request := ByStrategy signature lease (Some minContextSlot) "confirmed" in
  confirmation <- await (fun n => confirmTransaction env n request)
                    (fun t => CallConfirm t request) ;;
  match confirmation with
  | Some _ => throw (Error "Transaction confirmation failed")
  | None => ret tt
  end ;;
  alert [Lit "✅ Sent "; Num amount; Lit " SOL to "; Lit to] ;;
  return_ tt.

(** [while (retries > 0) { try { ... } catch (err) { ... } }]: the [catch]
    block decrements [retries], waits a second and continues when the
    message includes ["Blockhash"] and [retries > 0], and rethrows
    otherwise.  The loop is left when [retries] is zero. *)
Fixpoint attempts (retries : nat) (key to toPublicKey : string) (amount : float)
  : M unit unit :=
  match retries with
  | O => ret tt
  | S retries' =>
      tryCatch
        (attempt key to toPublicKey amount)
        (fun err =>
           if JsString.includes (message err) "Blockhash" && (0 <? retries)%nat
           then sleep env 1000
           else throw err) ;;
      attempts retries' key to toPublicKey amount
  end.

(** The message the outer [catch] block shows. *)
Definition describe (err : JsError) : string :=
  if String.eqb (name err) "SendTransactionError"
  then JsString.join JsString.newline
         (("Transaction failed: " ++ message err)
          :: match logs err with Some l => l | None => [] end)
  else message err.

(** The outer [try] statement of [handleSend], with [let retries = 3]. *)
Definition submit (key to toPublicKey : string) (amount : float) : M unit unit :=
  tryCatchFinally
    (attempts 3 key to toPublicKey amount)
    (fun err =>
       let errorMessage := describe err in
       setError (Some errorMessage) ;;
       consoleError err ;;
       alert [Lit "❌ Failed: "; Lit errorMessage])
    (setLoading false).

(** [handleSend]; [to] and [amountInput] are what the two prompts return. *)
Definition handleSend (to amountInput : option string) : M unit unit :=
  callAsync tt
    (match publicKey with
     | None => alert [Lit "Please connect your wallet first."] ;; return_ tt
     | Some key =>
         rejectWhen (falsy to) "Recipient address required" ;;
         let to' := match to with Some s => s | None => "" end in
         match newPublicKey env to' with
         | None => alert [Lit "Invalid recipient address"] ;; return_ tt
         | Some toPublicKey =>
             let amount := parseFloat env amountInput in
             rejectWhen (notPositive amount) "Invalid amount > 0 required" ;;
             setLoading true ;;
             setError None ;;
             submit key to' toPublicKey amount
         end
     end).

End Handlers.
End BoundedRetry.

(* ------------------------------------------------------------------ *)
(** ** The last iteration: [confirmTransactionWithRetry] *)

Module RetryConfirm.
Section Handlers.

Variable env : Oracle.
Variable publicKey : option string.

(** The test of the [catch] block in the confirmation loop. *)
Definition blockhashExpired (msg : string) : bool :=
  JsString.includes msg "Blockhash not found" ||
  JsString.includes msg "blockhash expired".

(** One poll: the [try] block and its [catch]; the value is the lease the
    next poll uses. *)
Definition poll (signature : string) (lease : Lease) : M string Lease :=
  let request := ByStrategy signature lease None "confirmed" in
  tryCatch
    (confirmation <- await (fun n => confirmTransaction env n request)
                       (fun t => CallConfirm t request) ;;
     match confirmation with
     | Some _ => throw (Error "Transaction failed")
     | None => return_ "success"
     end)
    (fun err =>
       if blockhashExpired (message err)
       then
         consoleLog "Blockhash expired, getting new one..." ;;
         await (fun n => getLatestBlockhash env n "confirmed")
           (fun t => CallGetLatestBlockhash t "confirmed")
       else throw err).

(** [while (Date.now() - startTime < timeout) { ... }]; [lease] holds the
    variables [blockhash] and [lastValidBlockHeight], which the [catch]
    block reassigns.  [fuel] bounds the number of iterations. *)
Fixpoint pollLoop (fuel : nat) (signature : string) (timeout retryInterval startTime : Z)
  (lease : Lease) : M string unit :=
  match fuel with
  | O => pending
  | S fuel' =>
      t <- dateNow ;;
      if t - startTime <? timeout
      then
        lease' <- poll signature lease ;;
        sleep env retryInterval ;;
        pollLoop fuel' signature timeout retryInterval startTime lease'
      else ret tt
  end.

(** [confirmTransactionWithRetry(connection, signature, blockhash,
    lastValidBlockHeight, timeout, retryInterval)]. *)
Definition confirmTransactionWithRetry {R} (fuel : nat) (signature : string)
  (lease : Lease) (timeout retryInterval : Z) : M R string :=
  callAsync ""
    (startTime <- dateNow ;;
     pollLoop fuel signature timeout retryInterval startTime lease ;;
     (return_ "timeout" : M string unit)).

(** The default values of [timeout] and [retryInterval]. *)
Definition defaultTimeout : Z := 60000.
Definition defaultRetryInterval : Z := 2000.

(** The message the [catch] block of [handleSend] shows. *)
Definition describe (err : JsError) : string :=
  if isSendTransactionError err
  then
    let joined := match logs err with
                  | Some l => JsString.join JsString.newline l
                  | None => ""
                  end in
    JsString.join JsString.newline
      [ "Error: " ++ message err;
        "Logs: " ++ (if String.eqb joined "" then "No logs available" else joined) ]
  else "Transaction failed".

(** The [try] statement of [handleSend]. *)
Definition submit (fuel : nat) (key toPubkey : string) (amount : float) : M unit unit :=
  tryCatchFinally
    (lease <- await (fun n => getLatestBlockhash env n "confirmed")
                (fun t => CallGetLatestBlockhash t "confirmed") ;;
     systemTransfer env key toPubkey (JsNumber.solToWholeLamports amount) ;;
     let transaction :=
       mkTransaction (Some key) (Some (blockhash lease)) key toPubkey
         (JsNumber.solToWholeLamports amount) in
     signature <- await (fun n => sendTransaction env n transaction None)
                    (fun t => CallSendTransaction t transaction None) ;;
     consoleLog ("Transaction submitted: " ++ signature) ;;
     result <- confirmTransactionWithRetry fuel signature lease
                 defaultTimeout defaultRetryInterval ;;
     if String.eqb result "success"
     then alert [Lit "✅ Success! Transaction signature: "; Lit signature]
     else throw (Error "Transaction confirmation timed out"))
    (fun err =>
       setError (Some (describe err)) ;;
       consoleError err)
    (setLoading false).

(** [handleSend]; [toAddress] and [sendAmount] are the two input fields. *)
Definition handleSend (fuel : nat) (toAddress sendAmount : string) : M unit unit :=
  callAsync tt
    (match publicKey with
     | None => alert [Lit "Please connect your wallet."] ;; return_ tt
     | Some key =>
         let amount := parseFloat env (Some sendAmount) in
         rejectWhen (notPositive amount) "Please enter a valid amount greater than 0." ;;
         match newPublicKey env toAddress with
         | None => alert [Lit "Invalid recipient address."] ;; return_ tt
         | Some toPubkey =>
             setLoading true ;;
             setError None ;;
             submit fuel key toPubkey amount
         end
     end).

(** The [try] statement of [requestAirdrop] in this iteration. *)
Definition airdrop (key : string) (amount : float) : M unit unit :=
  tryCatchFinally
    (signature <- await
        (fun n => Js.requestAirdrop env n key (JsNumber.solToLamports amount))
        (fun t => CallRequestAirdrop t key (JsNumber.solToLamports amount)) ;;
     await (fun n => confirmTransaction env n (BySignature signature "finalized"))
        (fun t => CallConfirm t (BySignature signature "finalized")) ;;
     Simple.getBalance env publicKey ;;
     alert [Lit "✅ Airdropped "; Num amount; Lit " SOL!"])
    (fun err => setError (Some ("Airdrop failed: " ++ message err)) ;; consoleError err)
    (setLoading false).

(** [requestAirdrop]; [amountInput] is the value of the input field. *)
Definition requestAirdrop (amountInput : string) : M unit unit :=
  callAsync tt
    (match publicKey with
     | None => alert [Lit "Please connect your wallet first."] ;; return_ tt
     | Some key =>
         let amount := parseFloat env (Some amountInput) in
         rejectWhen (notPositive amount) "Please enter valid amount > 0" ;;
         setLoading true ;;
         setError None ;;
         airdrop key amount
     end).

(** The [try] statement of [handleSignMessage] in this iteration. *)
Definition sign (message : string) : M unit unit :=
  tryCatchFinally
    (let messageBytes := encode env message in
     sig <- await (fun n => signMessage env n messageBytes)
              (fun t => CallSignMessage t messageBytes) ;;
     setSignature (Hex.bufferHex sig))
    (fun err => setError (Some ("Signing failed: " ++ Js.message err)) ;; consoleError err)
    (setLoading false).

(** [handleSignMessage]; [message] is the state of the text area. *)
Definition handleSignMessage (message : string) : M unit unit :=
  callAsync tt
    (rejectWhen (match publicKey with None => true | Some _ => false end)
       "Connect wallet first" ;;
     rejectWhen (String.eqb (trim env message) "") "Enter message to sign" ;;
     setLoading true ;;
     setError None ;;
     sign message).

End Handlers.
End RetryConfirm.

(* ------------------------------------------------------------------ *)
(** ** Vocabulary of the properties *)

(** The handler returned without touching the component or the network. *)
Definition returnsUntouched (w : World) (r : Run unit unit) : Prop :=
  completion r = Normal tt /\ filter isNetworkCall (events r) = [] /\ world r = w.

(** The recipient typed into a prompt is rejected: the prompt was cancelled
    or [new PublicKey] throws on the text. *)
Definition invalidRecipient (env : Oracle) (to : option string) : Prop :=
  match to with
  | Some s => newPublicKey env s = None
  | None => True
  end.

(** The guards of the handlers: [true] when the handler goes on to set
    [loading]. *)
Definition connected (publicKey : option string) : bool :=
  match publicKey with Some _ => true | None => false end.

Definition airdropAccepted (env : Oracle) (publicKey : option string)
  (amountInput : string) : bool :=
  connected publicKey && negb (notPositive (parseFloat env (Some amountInput))).

Definition sendAccepted (env : Oracle) (publicKey : option string)
  (toAddress sendAmount : string) : bool :=
  connected publicKey && negb (notPositive (parseFloat env (Some sendAmount))) &&
  connected (newPublicKey env toAddress).

Definition promptedSendAccepted (env : Oracle) (publicKey : option string)
  (to amountInput : option string) : bool :=
  connected publicKey && negb (falsy to) &&
  connected (newPublicKey env (match to with Some s => s | None => "" end)) &&
  negb (notPositive (parseFloat env amountInput)).

Definition signAccepted (env : Oracle) (publicKey : option string)
  (message : string) : bool :=
  connected publicKey && negb (String.eqb (trim env message) "").

(** A handler started in [w] that has returned as [r] left [loading] false
    when its guards let it through, and as it was when they did not. *)
Definition resetsLoading (accepted : bool) (w : World) (r : Run unit unit) : Prop :=
  completion r <> Pending ->
  loading (world r) = (if accepted then false else loading w).

(** *** Events of the confirmation loop *)

Definition isSend (ev : Event) : bool :=
  match ev with CallSendTransaction _ _ _ _ => true | _ => false end.



(** A poll, if [ev] is one, starts before [deadline]. *)
Definition pollsBefore (deadline : Z) (ev : Event) : Prop :=
  match ev with
  | CallConfirm t _ _ => t < deadline
  | _ => True
  end.

(** An event of a run in which nothing but expiry is heard from the node:
    a poll is rejected with an expired lease, a lease fetch succeeds. *)
Definition stillWaiting (ev : Event) : bool :=
  match ev with
  | CallConfirm _ _ (Rejected e) => RetryConfirm.blockhashExpired (message e)
  | CallConfirm _ _ (Fulfilled _) => false
  | CallGetLatestBlockhash _ _ (Rejected _) => false
  | _ => true
  end.

(** What the user or the console gets to see of an outcome. *)
Definition isReport (ev : Event) : bool :=
  match ev with
  | Alert _ | ConsoleError _ => true
  | _ => false
  end.

(** [m] never waits for ever. *)
Definition Ends {R A : Type} (m : M R A) : Prop :=
  forall w, completion (m w) <> Pending.

(** Every event of [m] satisfies [P]. *)
Definition Emits {R A : Type} (P : Event -> Prop) (m : M R A) : Prop :=
  forall w, Forall P (events (m w)).

(** A transfer handed to the wallet or an airdrop asked of the node, if
    [ev] is one, is of [amount] lamports. *)
Definition carriesLamports (amount : float) (ev : Event) : Prop :=
  match ev with
  | CallSendTransaction _ tx _ _ => lamports tx = amount
  | CallRequestAirdrop _ _ lamports _ => lamports = amount
  | _ => True
  end.






(** *** Doubles as the runtime rounds them

    The operations on doubles round the exact result to the nearest double,
    ties to even.  What follows names the pieces of that rounding, in the
    terms of the library's own specification of the primitive floats. *)

(** The location of [N / D] between [N / D] rounded down and the next
    integer. *)
Definition locOf (N D : Z) : location :=
  if N mod D =? 0 then loc_Exact else loc_Inexact (2 * (N mod D) ?= D).

Definition recOf (N D : Z) : shr_record := shr_record_of_loc (N / D) (locOf N D).





(** *** Runs of the confirmation loop *)

Section PollingRuns.

Variable env : Oracle.
Variable signature : string.
Variables timeout retryInterval startTime : Z.

(** The strategy object of a poll under [lease]. *)
Definition pollRequest (lease : Lease) : ConfirmRequest :=
  ByStrategy signature lease None "confirmed".

(** What the [try] block of a poll throws on an answer: nothing on a
    confirmation, [Error('Transaction failed')] on an on-chain error, and
    the reason of a rejected promise. *)
Definition pollError (r : Settled (option string)) : option JsError :=
  match r with
  | Fulfilled None => None
  | Fulfilled (Some _) => Some (Error "Transaction failed")
  | Rejected e => Some e
  end.

(** The answer to the poll started in [w], and the world after it. *)
Definition pollReply (lease : Lease) (w : World) : Reply (option string) :=
  confirmTransaction env (calls w) (pollRequest lease).
Definition afterPoll (lease : Lease) (w : World) : World :=
  elapse (Z.of_N (took (pollReply lease w))) w.

(** The answer to the lease fetch that follows an expired poll, and the
    world after it. *)
Definition fetchReply (lease : Lease) (w : World) : Reply Lease :=
  getLatestBlockhash env (calls (afterPoll lease w)) "confirmed".
Definition afterFetch (lease : Lease) (w : World) : World :=
  elapse (Z.of_N (took (fetchReply lease w))) (afterPoll lease w).

(** The world when the timer between two polls has fired. *)
Definition afterTimer (lease : Lease) (w : World) : World :=
  elapse (Z.max 0 retryInterval + Z.of_N (timerLag env (calls (afterFetch lease w))))
    (afterFetch lease w).

Definition pollEvent (lease : Lease) (w : World) : Event :=
  CallConfirm (now w) (pollRequest lease) (settled (pollReply lease w)).
Definition noteEvent : Event := ConsoleLog "Blockhash expired, getting new one...".
Definition fetchEvent (lease : Lease) (w : World) : Event :=
  CallGetLatestBlockhash (now (afterPoll lease w)) "confirmed" (settled (fetchReply lease w)).
Definition timerEvent (lease : Lease) (w : World) : Event :=
  Timer (now (afterFetch lease w)) retryInterval.

(** The runs of the loop from the test of the [while], by the way the
    iteration ends. *)
Inductive Polling : Lease -> World -> Run string unit -> Prop :=
| Polling_starved lease w :
    Polling lease w (mkRun Pending w [])
| Polling_deadline lease w :
    timeout <= now w - startTime ->
    Polling lease w (mkRun (Normal tt) w [])
| Polling_confirmed lease w :
    now w - startTime < timeout ->
    settled (pollReply lease w) = Fulfilled None ->
    Polling lease w (mkRun (Return "success") (afterPoll lease w) [pollEvent lease w])
| Polling_fatal lease w e :
    now w - startTime < timeout ->
    pollError (settled (pollReply lease w)) = Some e ->
    RetryConfirm.blockhashExpired (message e) = false ->
    Polling lease w (mkRun (Throw e) (afterPoll lease w) [pollEvent lease w])
| Polling_no_lease lease w e e' :
    now w - startTime < timeout ->
    settled (pollReply lease w) = Rejected e ->
    RetryConfirm.blockhashExpired (message e) = true ->
    settled (fetchReply lease w) = Rejected e' ->
    Polling lease w
      (mkRun (Throw e') (afterFetch lease w)
         [pollEvent lease w; noteEvent; fetchEvent lease w])
| Polling_retry lease w e lease' r :
    now w - startTime < timeout ->
    settled (pollReply lease w) = Rejected e ->
    RetryConfirm.blockhashExpired (message e) = true ->
    settled (fetchReply lease w) = Fulfilled lease' ->
    Polling lease' (afterTimer lease w) r ->
    Polling lease w
      (mkRun (completion r) (world r)
         (pollEvent lease w :: noteEvent :: fetchEvent lease w
            :: timerEvent lease w :: events r)).

(** The ways a turn of the [while] can go, with the run of the loop in
    each. *)
Inductive Turn (fuel : nat) (lease : Lease) (w : World) : Prop :=
| Turn_deadline :
    timeout <= now w - startTime ->
    RetryConfirm.pollLoop env (S fuel) signature timeout retryInterval startTime lease w =
      mkRun (Normal tt) w [] ->
    Turn fuel lease w
| Turn_confirmed :
    now w - startTime < timeout ->
    settled (pollReply lease w) = Fulfilled None ->
    RetryConfirm.pollLoop env (S fuel) signature timeout retryInterval startTime lease w =
      mkRun (Return "success") (afterPoll lease w) [pollEvent lease w] ->
    Turn fuel lease w
| Turn_fatal e :
    now w - startTime < timeout ->
    pollError (settled (pollReply lease w)) = Some e ->
    RetryConfirm.blockhashExpired (message e) = false ->
    RetryConfirm.pollLoop env (S fuel) signature timeout retryInterval startTime lease w =
      mkRun (Throw e) (afterPoll lease w) [pollEvent lease w] ->
    Turn fuel lease w
| Turn_no_lease e e' :
    now w - startTime < timeout ->
    settled (pollReply lease w) = Rejected e ->
    RetryConfirm.blockhashExpired (message e) = true ->
    settled (fetchReply lease w) = Rejected e' ->
    RetryConfirm.pollLoop env (S fuel) signature timeout retryInterval startTime lease w =
      mkRun (Throw e') (afterFetch lease w)
        [pollEvent lease w; noteEvent; fetchEvent lease w] ->
    Turn fuel lease w
| Turn_retry e lease' :
    now w - startTime < timeout ->
    settled (pollReply lease w) = Rejected e ->
    RetryConfirm.blockhashExpired (message e) = true ->
    settled (fetchReply lease w) = Fulfilled lease' ->
    (let r := RetryConfirm.pollLoop env fuel signature timeout retryInterval startTime
                lease' (afterTimer lease w) in
     RetryConfirm.pollLoop env (S fuel) signature timeout retryInterval startTime lease w =
       mkRun (completion r) (world r)
         (pollEvent lease w :: noteEvent :: fetchEvent lease w
            :: timerEvent lease w :: events r)) ->
    Turn fuel lease w.

End PollingRuns.

(* ------------------------------------------------------------------ *)
(** ** Sample wallets and nodes *)

Module Demo.

Definition key : string := "7xKXtg2CW87d97TXJSDpbD5jBkheTqA83TZRuJosgAsU".
Definition recipient : string := "4Nd1mBQtrMJVYVfKf2PJy9NZUZdTAsp7D4xWLs4gDB4T".
Definition txSignature : string := "5VERv8NMvzbJMEkV8xnrLkEaWRtSz9CosKDYjCJjBRnb".

(** The component before the handler runs. *)
Definition idle : World := mkWorld 1700000000000 0 false None None "".

Definition firstLease : Lease :=
  mkLease "9sHcv6xwn9YkB8nxTUGKDwPwNnmqVp5oAXxU8Fdkm4J6" 250000000.
Definition laterLease (n : nat) : Lease :=
  mkLease "EkSnNWid2cvwEVnVx9aBqawnmiCNiDgp3gUdkDPTKN1N" (250000150 + Z.of_nat n).

Definition expired : JsError := Error "Signature has expired: blockhash expired".
Definition stale : JsError :=
  mkError "SendTransactionError"
    "failed to send transaction: Transaction simulation failed: Blockhash not found"
    (Some []) true.
Definition unhealthy : JsError := Error "Node is unhealthy".

(** [parseFloat] on the texts the samples type. *)
Definition parse (text : option string) : float :=
  match text with
  | Some s =>
      if String.eqb s "1.5" then 1.5%float
      else if String.eqb s "0.000000015" then PrimFloat.div 15 1000000000
      else if String.eqb s "Infinity" then PrimFloat.infinity
      else if String.eqb s "0" then 0%float
      else if String.eqb s "-2" then (-2)%float
      else PrimFloat.nan
  | None => PrimFloat.nan
  end.

(** [new PublicKey] accepts the two sample keys. *)
Definition parseKey (text : string) : option string :=
  if String.eqb text key || String.eqb text recipient then Some text else None.

(** The lamports [SystemProgram.transfer] takes: it converts them with
    [BigInt] and writes them into an unsigned 64-bit field, so they are a
    whole number from [0] to [2^64 - 1]. *)
Definition wholeU64 (x : float) : bool :=
  PrimFloat.eqb (JsNumber.Math_round x) x &&
  PrimFloat.leb 0 x && PrimFloat.ltb x 18446744073709551616.

(** What it throws on other lamports (the text of the library also names
    the number). *)
Definition notWhole : JsError :=
  mkError "RangeError"
    "The number cannot be converted to a BigInt because it is not an integer"
    None false.

Definition transfer (fromPubkey toPubkey : string) (lamports : float)
  : option JsError :=
  if wholeU64 lamports then None else Some notWhole.

(** A devnet and a wallet whose answers to [confirmTransaction], to
    [getLatestBlockhashAndContext] and to [sendTransaction] are given. *)
Definition node (confirm : nat -> Reply (option string))
  (context : nat -> Reply (Z * Lease)) (send : nat -> Reply string) : Oracle :=
  mkOracle parse parseKey (fun s => s) list_byte_of_string
    (fun _ _ => mkReply 120 (Fulfilled 2000000000%float))
    (fun _ _ _ => mkReply 250 (Fulfilled txSignature))
    (fun n _ => confirm n)
    (fun _ => mkReply 90 (Fulfilled (blockhash firstLease)))
    (fun n _ => mkReply 90 (Fulfilled (laterLease n)))
    context
    (fun n _ _ => send n)
    (fun _ msg => mkReply 50 (Fulfilled msg))
    (fun _ => 4%N)
    transfer.

Definition freshContext (n : nat) : Reply (Z * Lease) :=
  mkReply 90 (Fulfilled (312000000 + Z.of_nat n, laterLease n)).

Definition signedAndSent (n : nat) : Reply string :=
  mkReply 300 (Fulfilled txSignature).

(** Every poll is rejected with an expired lease. *)
Definition neverConfirms : Oracle :=
  node (fun _ => mkReply 400 (Rejected expired)) freshContext signedAndSent.

(** The first poll is rejected with an expired lease, the next confirms. *)
Definition expiresOnce : Oracle :=
  node (fun n => mkReply 400 (if (n =? 0)%nat then Rejected expired else Fulfilled None))
    freshContext signedAndSent.

(** Every poll is rejected by a node in trouble. *)
Definition inTrouble : Oracle :=
  node (fun _ => mkReply 400 (Rejected unhealthy)) freshContext signedAndSent.

(** Every transaction is refused because its blockhash is not found. *)
Definition staleNode : Oracle :=
  node (fun _ => mkReply 400 (Fulfilled None)) freshContext
    (fun _ => mkReply 300 (Rejected stale)).

(** Every transaction is refused for another reason. *)
Definition brokeWallet : Oracle :=
  node (fun _ => mkReply 400 (Fulfilled None)) freshContext
    (fun _ => mkReply 300
                (Rejected (mkError "SendTransactionError"
                             "failed to send transaction: insufficient lamports"
                             (Some ["Transfer: insufficient lamports 0, need 1500000000"])
                             true))).

End Demo.

(* ------------------------------------------------------------------ *)
(** ** Vocabulary of the further properties *)

(** [m] never throws: the promise of the call is never rejected. *)
Definition NeverThrows {R A : Type} (m : M R A) : Prop :=
  forall w e, completion (m w) <> Throw e.

(** [m] makes at most [n] of the calls that [counted] picks. *)
Definition AtMost {R A : Type} (counted : Event -> bool) (n : nat) (m : M R A) : Prop :=
  forall w, (List.length (filter counted (events (m w))) <= n)%nat.

(** A confirmation asked of the node. *)
Definition isPoll (ev : Event) : bool :=
  match ev with CallConfirm _ _ _ => true | _ => false end.

(** A poll that the node answered with a confirmation and no on-chain
    error. *)
Definition isConfirmedPoll (ev : Event) : bool :=
  match ev with CallConfirm _ _ (Fulfilled None) => true | _ => false end.

(** Neither an alert nor a [console.error]. *)
Definition silent (ev : Event) : bool := negb (isReport ev).

Definition isTimer (ev : Event) : bool :=
  match ev with Timer _ _ => true | _ => false end.

(** A call of the wallet or the node, or a line of the log: neither a
    report nor a timer. *)
Definition plain (ev : Event) : bool := silent ev && negb (isTimer ev).

(** A transaction handed to the wallet, if [ev] is one, is paid by and
    taken from the wallet [publicKey], goes to [recipient] and names a
    blockhash. *)
Definition fromWalletTo (publicKey recipient : option string) (ev : Event) : Prop :=
  match ev with
  | CallSendTransaction _ tx _ _ =>
      feePayer tx = publicKey /\ Some (fromPubkey tx) = publicKey /\
      Some (toPubkey tx) = recipient /\ recentBlockhash tx <> None
  | _ => True
  end.

(** A transaction that the wallet signed and sent: the promise of
    [sendTransaction] was fulfilled with its signature. *)
Definition isSentTransaction (ev : Event) : bool :=
  match ev with CallSendTransaction _ _ _ (Fulfilled _) => true | _ => false end.

(** *** Which signature a confirmation is asked for *)

Definition signatureOf (req : ConfirmRequest) : string :=
  match req with
  | BySignature s _ => s
  | ByStrategy s _ _ _ => s
  end.

(** The signature an event hands to the component, if it does: that of a
    transaction the wallet has sent, or of an airdrop the node accepted. *)
Definition issued (ev : Event) : option string :=
  match ev with
  | CallSendTransaction _ _ _ (Fulfilled s) => Some s
  | CallRequestAirdrop _ _ _ (Fulfilled s) => Some s
  | _ => None
  end.

(** The last signature handed over, after [ev] and with [latest] before. *)
Definition latestAfter (latest : option string) (ev : Event) : option string :=
  match issued ev with
  | Some s => Some s
  | None => latest
  end.

(** Every confirmation among [evs] is asked for the signature that was
    handed over last, [latest] being the one handed over before [evs]. *)
Fixpoint confirmsLatest (latest : option string) (evs : list Event) : Prop :=
  match evs with
  | [] => True
  | ev :: rest =>
      match ev with
      | CallConfirm _ req _ => Some (signatureOf req) = latest
      | _ => True
      end /\
      confirmsLatest (latestAfter latest ev) rest
  end.

(** [m] asks for no confirmation but of the latest signature. *)
Definition Confirms {R A : Type} (latest : option string) (m : M R A) : Prop :=
  forall w, confirmsLatest latest (events (m w)).

(** An event that neither hands over a signature nor asks about one. *)
Definition aside (ev : Event) : Prop :=
  match ev with
  | CallConfirm _ _ _ => False
  | _ => issued ev = None
  end.

(** *** Ways the handlers end *)

(** How the [try] block of [handleSend] in [src/App.jsx] ends: with the
    alert of the success, or by throwing, and nothing reported before. *)
Inductive FirstBlock (err : option string) (r : Run unit unit) : Prop :=
| First_done evs text :
    completion r = Normal tt ->
    error (world r) = err ->
    events r = (evs ++ [Alert text])%list ->
    hd (Lit "") text = Lit "Successfully sent " ->
    forallb silent evs = true ->
    FirstBlock err r
| First_thrown e :
    completion r = Throw e ->
    forallb silent (events r) = true ->
    FirstBlock err r.

(** How the [try] block of the last [handleSend] can end. *)
Inductive SendBlock (err : option string) (r : Run unit unit) : Prop :=
| Block_waiting :
    completion r = Pending -> SendBlock err r
| Block_done evs sig :
    completion r = Normal tt ->
    error (world r) = err ->
    events r = (evs ++ [Alert [Lit "✅ Success! Transaction signature: "; Lit sig]])%list ->
    forallb silent evs = true ->
    existsb isConfirmedPoll evs = true ->
    SendBlock err r
| Block_thrown e :
    completion r = Throw e ->
    forallb silent (events r) = true ->
    existsb isConfirmedPoll (events r) = false ->
    SendBlock err r.

(** The same after the [catch] and [finally] blocks. *)
Inductive SendOutcome (err : option string) (r : Run unit unit) : Prop :=
| Send_waiting :
    completion r = Pending -> SendOutcome err r
| Send_succeeded evs sig :
    completion r = Normal tt ->
    error (world r) = err ->
    events r = (evs ++ [Alert [Lit "✅ Success! Transaction signature: "; Lit sig]])%list ->
    forallb silent evs = true ->
    existsb isConfirmedPoll evs = true ->
    SendOutcome err r
| Send_failed e evs :
    completion r = Normal tt ->
    error (world r) = Some (RetryConfirm.describe e) ->
    events r = (evs ++ [ConsoleError e])%list ->
    forallb silent evs = true ->
    existsb isConfirmedPoll evs = false ->
    SendOutcome err r.

(** The outcome both iterations of [requestAirdrop] share: the alert [first]
    begins is the last event, and no error is set but that of a failed
    balance fetch. *)
Definition airdropShown (first : string) (r : Run unit unit) : Prop :=
  completion r = Normal tt /\
  loading (world r) = false /\
  (error (world r) = None \/ error (world r) = Some "Failed to fetch balance") /\
  exists evs text,
    events r = (evs ++ [Alert text])%list /\ hd (Lit "") text = Lit first.

(** A block that ends with the alert [first] begins. *)
Definition endsShowing (first : string) (err : option string) (r : Run unit unit) : Prop :=
  completion r = Normal tt /\
  (error (world r) = err \/ error (world r) = Some "Failed to fetch balance") /\
  exists evs text,
    events r = (evs ++ [Alert text])%list /\ hd (Lit "") text = Lit first.

(** How one pass through the inner [try] block ends. *)
Inductive AttemptEnd (err : option string) (r : Run unit unit) : Prop :=
| Attempt_sent evs text :
    completion r = Return tt ->
    error (world r) = err ->
    events r = (evs ++ [Alert text])%list ->
    hd (Lit "") text = Lit "✅ Sent " ->
    forallb plain evs = true ->
    AttemptEnd err r
| Attempt_thrown e :
    completion r = Throw e ->
    error (world r) = err ->
    forallb plain (events r) = true ->
    AttemptEnd err r.

(** How the [while] loop ends when it starts with [retries] retries. *)
Inductive LoopEnd (err : option string) (retries : nat) (r : Run unit unit) : Prop :=
| Loop_sent evs text :
    completion r = Return tt ->
    error (world r) = err ->
    events r = (evs ++ [Alert text])%list ->
    hd (Lit "") text = Lit "✅ Sent " ->
    forallb silent evs = true ->
    LoopEnd err retries r
| Loop_thrown e :
    completion r = Throw e ->
    JsString.includes (message e) "Blockhash" = false ->
    forallb silent (events r) = true ->
    LoopEnd err retries r
| Loop_exhausted :
    completion r = Normal tt ->
    error (world r) = err ->
    forallb silent (events r) = true ->
    List.length (filter isTimer (events r)) = retries ->
    LoopEnd err retries r.

(** *** Reading a hex string back *)

(** Where [c] stands in [chars], if it does. *)
Fixpoint position (c : ascii) (chars : list ascii) : option N :=
  match chars with
  | [] => None
  | x :: rest =>
      if Ascii.eqb c x then Some 0%N else option_map N.succ (position c rest)
  end.

(** The value of a hex digit: its place in the alphabet of the table. *)
Definition hexValue (c : ascii) : option N := position c Hex.alphabet.

(** The bytes a hex string stands for, two digits a byte.  The component
    has no such function; it is the inverse against which the encodings
    are measured. *)
Fixpoint parseHex (s : string) : option (list byte) :=
  match s with
  | EmptyString => Some []
  | String hi (String lo rest) =>
      match hexValue hi, hexValue lo, parseHex rest with
      | Some h, Some l, Some bytes =>
          option_map (fun b => b :: bytes) (Byte.of_N (16 * h + l))
      | _, _, _ => None
      end
  | String _ EmptyString => None
  end.

(* ------------------------------------------------------------------ *)
(** ** More sample nodes *)

Module Scenes.

(** Every transaction lands and fails on chain: the confirmation arrives
    with an error. *)
Definition failsOnChain : Oracle :=
  Demo.node
    (fun _ => mkReply 400 (Fulfilled (Some "{InstructionError:[0,{Custom:1}]}")))
    Demo.freshContext Demo.signedAndSent.

(** Every poll is answered with a confirmation, seventy seconds after it
    was asked. *)
Definition answersLate : Oracle :=
  Demo.node (fun _ => mkReply 70000 (Fulfilled None)) Demo.freshContext Demo.signedAndSent.

(** Every transaction is sent, and every confirmation is refused because
    the blockhash is said to have expired. *)
Definition sentButExpired : Oracle :=
  Demo.node
    (fun _ => mkReply 400
                (Rejected (Error "Signature has expired: Blockhash is no longer valid")))
    Demo.freshContext Demo.signedAndSent.

End Scenes.

(* ================================================================== *)
(** * Properties *)

(** ** Laws of the runtime *)

Lemma run_eta {R A : Type} (r : Run R A) :
  mkRun (completion r) (world r) (events r) = r.
Proof. now destruct r. Qed.

Lemma await_fulfilled {R A : Type} (ask : nat -> Reply A)
  (record : Z -> Settled A -> Event) (w : World) (a : A) :
  settled (ask (calls w)) = Fulfilled a ->
  await (R := R) ask record w =
  mkRun (Normal a) (elapse (Z.of_N (took (ask (calls w)))) w) [record (now w) (Fulfilled a)].
Proof. intros H. unfold await. now rewrite H. Qed.

Lemma await_rejected {R A : Type} (ask : nat -> Reply A)
  (record : Z -> Settled A -> Event) (w : World) (e : JsError) :
  settled (ask (calls w)) = Rejected e ->
  await (R := R) ask record w =
  mkRun (Throw e) (elapse (Z.of_N (took (ask (calls w)))) w) [record (now w) (Rejected e)].
Proof. intros H. unfold await. now rewrite H. Qed.

Lemma tryCatch_caught {R A : Type} (body : M R A) (handler : JsError -> M R A)
  (w w' : World) (e : JsError) (evs : list Event) :
  body w = mkRun (Throw e) w' evs ->
  tryCatch body handler w =
  mkRun (completion (handler e w')) (world (handler e w')) (evs ++ events (handler e w')).
Proof. intros H. unfold tryCatch. now rewrite H. Qed.

Lemma tryCatch_returned {R A : Type} (body : M R A) (handler : JsError -> M R A)
  (w w' : World) (v : R) (evs : list Event) :
  body w = mkRun (Return v) w' evs ->
  tryCatch body handler w = mkRun (Return v) w' evs.
Proof. intros H. unfold tryCatch. now rewrite H. Qed.

Lemma bind_normal_run {R A B : Type} (m : M R A) (k : A -> M R B)
  (w w' : World) (a : A) (evs : list Event) :
  m w = mkRun (Normal a) w' evs ->
  bind m k w = mkRun (completion (k a w')) (world (k a w')) (evs ++ events (k a w')).
Proof. intros H. unfold bind, andThen. now rewrite H. Qed.

Lemma bind_throw_run {R A B : Type} (m : M R A) (k : A -> M R B)
  (w w' : World) (e : JsError) (evs : list Event) :
  m w = mkRun (Throw e) w' evs ->
  bind m k w = mkRun (Throw e) w' evs.
Proof. intros H. unfold bind, andThen. now rewrite H. Qed.

Lemma reject_now {A : Type} (text : string) (k : unit -> M unit A) (w : World) :
  (bind (rejectWhen true text) k) w = mkRun (Return tt) w [Alert [Lit text]].
Proof. reflexivity. Qed.

Lemma reject_not {A : Type} (text : string) (k : unit -> M unit A) (w : World) :
  (bind (rejectWhen false text) k) w = k tt w.
Proof. unfold bind, andThen. cbn. now destruct (k tt w). Qed.

Lemma transfer_accepted {R B : Type} (env : Oracle) (fromPubkey toPubkey : string)
  (x : float) (k : unit -> M R B) (w : World) :
  transferThrows env fromPubkey toPubkey x = None ->
  bind (systemTransfer env fromPubkey toPubkey x) k w = k tt w.
Proof.
  intros H. unfold systemTransfer, bind, andThen. rewrite H. cbn.
  now destruct (k tt w).
Qed.

Lemma transfer_thrown {R B : Type} (env : Oracle) (fromPubkey toPubkey : string)
  (x : float) (k : unit -> M R B) (w : World) (e : JsError) :
  transferThrows env fromPubkey toPubkey x = Some e ->
  bind (systemTransfer env fromPubkey toPubkey x) k w = mkRun (Throw e) w [].
Proof. intros H. unfold systemTransfer, bind, andThen. now rewrite H. Qed.

(** *** Statements that return, and what statements emit *)

Section Composition.

Context {R A B : Type}.
Variable P : Event -> Prop.

Lemma Ends_ret (a : A) : Ends (ret (R := R) a).
Proof. intros w. discriminate. Qed.

Lemma Ends_return (v : R) : Ends (return_ (A := A) v).
Proof. intros w. discriminate. Qed.

Lemma Ends_throw (e : JsError) : Ends (throw (R := R) (A := A) e).
Proof. intros w. discriminate. Qed.

Lemma Ends_bind (m : M R A) (k : A -> M R B) :
  Ends m -> (forall a, Ends (k a)) -> Ends (bind m k).
Proof.
  intros Hm Hk w. unfold bind, andThen. specialize (Hm w).
  destruct (completion (m w)) eqn:E; cbn; try discriminate; [apply Hk | contradiction].
Qed.

Lemma Ends_await (ask : nat -> Reply A) (record : Z -> Settled A -> Event) :
  Ends (await (R := R) ask record).
Proof. intros w. unfold await. destruct (settled (ask (calls w))); discriminate. Qed.

Lemma Ends_tryCatch (body : M R A) (handler : JsError -> M R A) :
  Ends body -> (forall e, Ends (handler e)) -> Ends (tryCatch body handler).
Proof.
  intros Hb Hh w. unfold tryCatch. specialize (Hb w).
  destruct (completion (body w)) eqn:E; try (rewrite E; discriminate);
    [apply Hh | contradiction].
Qed.

Lemma Ends_tryCatchFinally (body : M R A) (handler : JsError -> M R A) (fin : M R unit) :
  Ends body -> (forall e, Ends (handler e)) -> Ends fin ->
  Ends (tryCatchFinally body handler fin).
Proof.
  intros Hb Hh Hf w. unfold tryCatchFinally, finally_.
  pose proof (Ends_tryCatch body handler Hb Hh w) as Ht.
  specialize (Hf (world (tryCatch body handler w))).
  destruct (completion (tryCatch body handler w)); try contradiction;
    cbn [completion]; destruct (completion (fin _)); try discriminate; contradiction.
Qed.

Lemma Ends_callAsync (dflt : A) (body : M A B) :
  Ends body -> Ends (callAsync (R := R) dflt body).
Proof.
  intros Hb w. unfold callAsync. specialize (Hb w). cbn [completion].
  destruct (completion (body w)); try discriminate; contradiction.
Qed.

Lemma Emits_ret (a : A) : Emits P (ret (R := R) a).
Proof. intros w. constructor. Qed.

Lemma Emits_return (v : R) : Emits P (return_ (A := A) v).
Proof. intros w. constructor. Qed.

Lemma Emits_throw (e : JsError) : Emits P (throw (R := R) (A := A) e).
Proof. intros w. constructor. Qed.

Lemma Emits_bind (m : M R A) (k : A -> M R B) :
  Emits P m -> (forall a, Emits P (k a)) -> Emits P (bind m k).
Proof.
  intros Hm Hk w. unfold bind, andThen. specialize (Hm w).
  destruct (completion (m w)) eqn:E; cbn [events]; try assumption.
  apply Forall_app. split; [assumption | apply Hk].
Qed.

Lemma Emits_await (ask : nat -> Reply A) (record : Z -> Settled A -> Event) :
  (forall t r, P (record t r)) -> Emits P (await (R := R) ask record).
Proof.
  intros Hrec w. unfold await.
  destruct (settled (ask (calls w))); cbn [events]; repeat constructor; apply Hrec.
Qed.

Lemma Emits_tryCatch (body : M R A) (handler : JsError -> M R A) :
  Emits P body -> (forall e, Emits P (handler e)) -> Emits P (tryCatch body handler).
Proof.
  intros Hb Hh w. unfold tryCatch. specialize (Hb w).
  destruct (completion (body w)) eqn:E; try assumption.
  cbn [events]. apply Forall_app. split; [assumption | apply Hh].
Qed.

Lemma Emits_tryCatchFinally (body : M R A) (handler : JsError -> M R A) (fin : M R unit) :
  Emits P body -> (forall e, Emits P (handler e)) -> Emits P fin ->
  Emits P (tryCatchFinally body handler fin).
Proof.
  intros Hb Hh Hf w. unfold tryCatchFinally, finally_.
  pose proof (Emits_tryCatch body handler Hb Hh w) as Ht.
  specialize (Hf (world (tryCatch body handler w))).
  destruct (completion (tryCatch body handler w)); try assumption;
    cbn [events]; apply Forall_app; now split.
Qed.

Lemma Emits_callAsync (dflt : A) (body : M A B) :
  Emits P body -> Emits P (callAsync (R := R) dflt body).
Proof. intros Hb w. apply Hb. Qed.

End Composition.

Lemma Ends_emit {R : Type} (ev : Event) : Ends (emit (R := R) ev).
Proof. intros w. discriminate. Qed.

Lemma Ends_sleep {R : Type} (env : Oracle) (ms : Z) : Ends (sleep (R := R) env ms).
Proof. intros w. discriminate. Qed.

Lemma Ends_setLoading {R : Type} (b : bool) : Ends (setLoading (R := R) b).
Proof. intros w. discriminate. Qed.

Lemma Ends_setError {R : Type} (e : option string) : Ends (setError (R := R) e).
Proof. intros w. discriminate. Qed.

Lemma Ends_setBalance {R : Type} (b : float) : Ends (setBalance (R := R) b).
Proof. intros w. discriminate. Qed.

Lemma Ends_setSignature {R : Type} (s : string) : Ends (setSignature (R := R) s).
Proof. intros w. discriminate. Qed.

Lemma Emits_emit {R : Type} (P : Event -> Prop) (ev : Event) :
  P ev -> Emits P (emit (R := R) ev).
Proof. intros H w. now repeat constructor. Qed.

Lemma Emits_sleep {R : Type} (P : Event -> Prop) (env : Oracle) (ms : Z) :
  (forall t, P (Timer t ms)) -> Emits P (sleep (R := R) env ms).
Proof. intros H w. cbn. repeat constructor. apply H. Qed.

Lemma Emits_setLoading {R : Type} (P : Event -> Prop) (b : bool) :
  Emits P (setLoading (R := R) b).
Proof. intros w. constructor. Qed.

Lemma Emits_setError {R : Type} (P : Event -> Prop) (e : option string) :
  Emits P (setError (R := R) e).
Proof. intros w. constructor. Qed.

Lemma Emits_setBalance {R : Type} (P : Event -> Prop) (b : float) :
  Emits P (setBalance (R := R) b).
Proof. intros w. constructor. Qed.

Lemma Emits_setSignature {R : Type} (P : Event -> Prop) (s : string) :
  Emits P (setSignature (R := R) s).
Proof. intros w. constructor. Qed.

Lemma Ends_dateNow {R : Type} : Ends (dateNow (R := R)).
Proof. intros w. discriminate. Qed.

Lemma Emits_dateNow {R : Type} (P : Event -> Prop) : Emits P (dateNow (R := R)).
Proof. intros w. constructor. Qed.

Lemma Ends_systemTransfer {R : Type} (env : Oracle) (fromPubkey toPubkey : string)
  (x : float) : Ends (systemTransfer (R := R) env fromPubkey toPubkey x).
Proof.
  intros w. unfold systemTransfer.
  destruct (transferThrows env fromPubkey toPubkey x); discriminate.
Qed.

Lemma Emits_systemTransfer {R : Type} (P : Event -> Prop) (env : Oracle)
  (fromPubkey toPubkey : string) (x : float) :
  Emits P (systemTransfer (R := R) env fromPubkey toPubkey x).
Proof.
  intros w. unfold systemTransfer.
  destruct (transferThrows env fromPubkey toPubkey x); constructor.
Qed.

Create HintDb statements.

(** Takes a statement apart along its binds, branches and [try] blocks;
    what is known of a called function comes from the hints. *)
Ltac compose :=
  repeat first
    [ solve [auto with statements]
    | apply Ends_dateNow | apply Emits_dateNow
    | apply Ends_systemTransfer | apply Emits_systemTransfer
    | apply Ends_bind; [|intros ?]
    | apply Ends_tryCatchFinally; [|intros ?|]
    | apply Ends_tryCatch; [|intros ?]
    | apply Ends_callAsync
    | apply Ends_await | apply Ends_ret | apply Ends_return | apply Ends_throw
    | apply Ends_emit | apply Ends_sleep | apply Ends_setLoading | apply Ends_setError
    | apply Ends_setBalance | apply Ends_setSignature
    | apply Emits_bind; [|intros ?]
    | apply Emits_tryCatchFinally; [|intros ?|]
    | apply Emits_tryCatch; [|intros ?]
    | apply Emits_callAsync
    | apply Emits_await; [intros ? ?; first [exact I | reflexivity]]
    | apply Emits_ret | apply Emits_return | apply Emits_throw
    | apply Emits_emit; exact I
    | apply Emits_sleep; intros ?; exact I
    | apply Emits_setLoading | apply Emits_setError
    | apply Emits_setBalance | apply Emits_setSignature
    | match goal with
      | |- Ends (if ?c then _ else _) => destruct c
      | |- Ends (match ?x with _ => _ end) => destruct x
      | |- Emits _ (if ?c then _ else _) => destruct c
      | |- Emits _ (match ?x with _ => _ end) => destruct x
      end ].

(** ** Strings *)

Lemma append_empty_r (s : string) : s ++ "" = s.
Proof. induction s as [|c s IH]; simpl; [reflexivity | now rewrite IH]. Qed.




(** ** The two hex encodings *)

Lemma byteToHex_table (b : byte) : Hex.byteToHex b = Hex.hexSliceLookup b.
Proof. destruct b; reflexivity. Qed.

Lemma join_empty_cons (x : string) (xs : list string) :
  JsString.join "" (x :: xs) = x ++ JsString.join "" xs.
Proof.
  unfold JsString.join. destruct xs as [|y ys]; simpl.
  - now rewrite append_empty_r.
  - reflexivity.
Qed.

(** C10.  For every byte array, the hand-written encoding of the signer
    iteration ([b.toString(16).padStart(2, '0')] on every byte, joined)
    is the string that [Buffer.from(sig).toString("hex")] gives in the
    other iterations. *)
Theorem manual_hex_is_buffer_hex (sig : list byte) :
  Hex.manualHex sig = Hex.bufferHex sig.
Proof.
  induction sig as [|b rest IH]; [reflexivity|].
  unfold Hex.manualHex in *. cbn [map Hex.bufferHex].
  now rewrite join_empty_cons, IH, byteToHex_table.
Qed.

(** A hex string has two characters for every byte. *)
Lemma bufferHex_length (sig : list byte) :
  String.length (Hex.bufferHex sig) = (2 * List.length sig)%nat.
Proof.
  induction sig as [|b rest IH]; [reflexivity|].
  cbn [Hex.bufferHex List.length]. unfold Hex.hexSliceLookup. simpl String.length.
  rewrite IH. lia.
Qed.

(** ** Validation comes before the network *)

Lemma untouched_after_alert (w : World) (m : M unit unit) (text : list Piece) :
  m w = mkRun (Return tt) w [Alert text] ->
  returnsUntouched w (callAsync tt m w).
Proof. intros H. unfold returnsUntouched, callAsync. rewrite H. repeat split. Qed.

Ltac rejected :=
  eapply untouched_after_alert; repeat rewrite reject_not;
  first [apply reject_now | reflexivity].

(** C4.  In each of the three send handlers, an invalid recipient address
    or an amount that is not a number or not positive makes the handler
    return with no call to the wallet or the node (no blockhash fetch, no
    send, no confirmation) and with the component state as it was. *)
Theorem invalid_input_makes_no_network_call
  (env : Oracle) (publicKey : option string) (fuel : nat) (w : World)
  (toAddress sendAmount : string) (to amountInput : option string) :
  (newPublicKey env toAddress = None \/
   notPositive (parseFloat env (Some sendAmount)) = true) ->
  (invalidRecipient env to \/ notPositive (parseFloat env amountInput) = true) ->
  returnsUntouched w (RetryConfirm.handleSend env publicKey fuel toAddress sendAmount w) /\
  returnsUntouched w (Simple.handleSend env publicKey to amountInput w) /\
  returnsUntouched w (BoundedRetry.handleSend env publicKey to amountInput w).
Proof.
  intros Hstate Hprompt.
  destruct publicKey as [key|];
    [|repeat split; eapply untouched_after_alert; reflexivity].
  split; [|split].
  - unfold RetryConfirm.handleSend.
    destruct (notPositive (parseFloat env (Some sendAmount))) eqn:Eamount; [rejected|].
    destruct Hstate as [Hto | Hbad]; [|discriminate].
    rewrite Hto. rejected.
  - unfold Simple.handleSend.
    destruct to as [s|]; [|rejected].
    cbn [falsy]. destruct (String.eqb s ""); [rejected|].
    destruct (newPublicKey env s) eqn:Ekey; [|rejected].
    destruct Hprompt as [Hto | Hbad]; [simpl in Hto; congruence|].
    rewrite Hbad. rejected.
  - unfold BoundedRetry.handleSend.
    destruct to as [s|]; [|rejected].
    cbn [falsy]. destruct (String.eqb s ""); [rejected|].
    destruct (newPublicKey env s) eqn:Ekey; [|rejected].
    destruct Hprompt as [Hto | Hbad]; [simpl in Hto; congruence|].
    rewrite Hbad. rejected.
Qed.

(** ** The loading flag *)

Lemma finally_resets_loading {R A : Type} (body : M R A) (handler : JsError -> M R A)
  (w : World) :
  completion (tryCatchFinally body handler (setLoading false) w) <> Pending ->
  loading (world (tryCatchFinally body handler (setLoading false) w)) = false.
Proof.
  unfold tryCatchFinally, finally_.
  destruct (completion (tryCatch body handler w)) eqn:E; cbn; try reflexivity.
  rewrite E. intros H. now contradiction H.
Qed.

(** A handler that returns at a guard leaves [loading] as it was. *)
Lemma guard_keeps_loading (m : M unit unit) (w : World) (evs : list Event) :
  m w = mkRun (Return tt) w evs ->
  resetsLoading false w (callAsync tt m w).
Proof. intros H _. unfold callAsync. now rewrite H. Qed.

(** A handler that sets [loading] and then runs a statement that leaves it
    false leaves it false. *)
Lemma prologue_then_reset (k : M unit unit) (w : World) :
  (forall w', completion (k w') <> Pending -> loading (world (k w')) = false) ->
  resetsLoading true w (callAsync tt (setLoading true ;; setError None ;; k) w).
Proof.
  intros Hk.
  set (w' := mkWorld (now w) (calls w) true None (balance w) (signature w)).
  change (resetsLoading true w (callAsync tt k w')).
  intros Hret. unfold callAsync in *. cbn [completion world] in *.
  apply Hk. intros Hpending. apply Hret. now rewrite Hpending.
Qed.

Ltac at_guard := eapply guard_keeps_loading; repeat rewrite reject_not;
  first [apply reject_now | reflexivity].

Lemma callAsync_reject_not (text : string) (k : unit -> M unit unit) (w : World) :
  callAsync tt (bind (rejectWhen false text) k) w = callAsync (R := unit) tt (k tt) w.
Proof. unfold callAsync. now rewrite reject_not. Qed.

Ltac past_guards reset := repeat rewrite callAsync_reject_not;
  apply prologue_then_reset; intros w'; apply reset.

Lemma simple_airdrop_resets env publicKey key amount w :
  completion (Simple.airdrop env publicKey key amount w) <> Pending ->
  loading (world (Simple.airdrop env publicKey key amount w)) = false.
Proof. apply finally_resets_loading. Qed.

Lemma simple_submit_resets env key to amount w :
  completion (Simple.submit env key to amount w) <> Pending ->
  loading (world (Simple.submit env key to amount w)) = false.
Proof. apply finally_resets_loading. Qed.

Lemma signer_sign_resets env message w :
  completion (Signer.sign env message w) <> Pending ->
  loading (world (Signer.sign env message w)) = false.
Proof. apply finally_resets_loading. Qed.

Lemma bounded_submit_resets env key to toPublicKey amount w :
  completion (BoundedRetry.submit env key to toPublicKey amount w) <> Pending ->
  loading (world (BoundedRetry.submit env key to toPublicKey amount w)) = false.
Proof. apply finally_resets_loading. Qed.

Lemma retry_submit_resets env fuel key toPubkey amount w :
  completion (RetryConfirm.submit env fuel key toPubkey amount w) <> Pending ->
  loading (world (RetryConfirm.submit env fuel key toPubkey amount w)) = false.
Proof. apply finally_resets_loading. Qed.

Lemma retry_airdrop_resets env publicKey key amount w :
  completion (RetryConfirm.airdrop env publicKey key amount w) <> Pending ->
  loading (world (RetryConfirm.airdrop env publicKey key amount w)) = false.
Proof. apply finally_resets_loading. Qed.

Lemma retry_sign_resets env message w :
  completion (RetryConfirm.sign env message w) <> Pending ->
  loading (world (RetryConfirm.sign env message w)) = false.
Proof. apply finally_resets_loading. Qed.

Lemma requestAirdrop_resets_loading env publicKey amountInput w :
  resetsLoading (airdropAccepted env publicKey amountInput) w
    (Simple.requestAirdrop env publicKey amountInput w).
Proof.
  unfold airdropAccepted, notPositive, Simple.requestAirdrop.
  destruct publicKey as [key|]; [|at_guard].
  destruct (JsNumber.isNaN (parseFloat env (Some amountInput))); [at_guard|].
  destruct (PrimFloat.leb (parseFloat env (Some amountInput)) PrimFloat.zero);
    [at_guard | past_guards simple_airdrop_resets].
Qed.

Lemma retry_requestAirdrop_resets_loading env publicKey amountInput w :
  resetsLoading (airdropAccepted env publicKey amountInput) w
    (RetryConfirm.requestAirdrop env publicKey amountInput w).
Proof.
  unfold airdropAccepted, RetryConfirm.requestAirdrop.
  destruct publicKey as [key|]; [|at_guard].
  destruct (notPositive (parseFloat env (Some amountInput)));
    [at_guard | past_guards retry_airdrop_resets].
Qed.

Lemma retry_handleSend_resets_loading env publicKey fuel toAddress sendAmount w :
  resetsLoading (sendAccepted env publicKey toAddress sendAmount) w
    (RetryConfirm.handleSend env publicKey fuel toAddress sendAmount w).
Proof.
  unfold sendAccepted, RetryConfirm.handleSend.
  destruct publicKey as [key|]; [|at_guard].
  destruct (notPositive (parseFloat env (Some sendAmount))); [at_guard|].
  destruct (newPublicKey env toAddress) as [toPubkey|];
    [past_guards retry_submit_resets | at_guard].
Qed.

Lemma simple_handleSend_resets_loading env publicKey to amountInput w :
  resetsLoading (promptedSendAccepted env publicKey to amountInput) w
    (Simple.handleSend env publicKey to amountInput w).
Proof.
  unfold promptedSendAccepted, Simple.handleSend.
  destruct publicKey as [key|]; [|at_guard].
  destruct to as [s|]; [|at_guard].
  cbn [falsy]. destruct (String.eqb s ""); [at_guard|].
  destruct (newPublicKey env s) as [toKey|]; [|at_guard].
  destruct (notPositive (parseFloat env amountInput));
    [at_guard | past_guards simple_submit_resets].
Qed.

Lemma bounded_handleSend_resets_loading env publicKey to amountInput w :
  resetsLoading (promptedSendAccepted env publicKey to amountInput) w
    (BoundedRetry.handleSend env publicKey to amountInput w).
Proof.
  unfold promptedSendAccepted, BoundedRetry.handleSend.
  destruct publicKey as [key|]; [|at_guard].
  destruct to as [s|]; [|at_guard].
  cbn [falsy]. destruct (String.eqb s ""); [at_guard|].
  destruct (newPublicKey env s) as [toKey|]; [|at_guard].
  destruct (notPositive (parseFloat env amountInput));
    [at_guard | past_guards bounded_submit_resets].
Qed.

Lemma signer_handleSignMessage_resets_loading env publicKey message w :
  resetsLoading (signAccepted env publicKey message) w
    (Signer.handleSignMessage env publicKey message w).
Proof.
  unfold signAccepted, Signer.handleSignMessage.
  destruct publicKey as [key|]; [|at_guard].
  destruct (String.eqb (trim env message) "");
    [at_guard | past_guards signer_sign_resets].
Qed.

Lemma retry_handleSignMessage_resets_loading env publicKey message w :
  resetsLoading (signAccepted env publicKey message) w
    (RetryConfirm.handleSignMessage env publicKey message w).
Proof.
  unfold signAccepted, RetryConfirm.handleSignMessage.
  destruct publicKey as [key|]; [|at_guard].
  destruct (String.eqb (trim env message) "");
    [at_guard | past_guards retry_sign_resets].
Qed.



(** ** The confirmation loop *)

Section PollingFacts.

Variable env : Oracle.
Variable signature : string.
Variables timeout retryInterval startTime : Z.

Local Notation "'loop' fuel" :=
  (RetryConfirm.pollLoop env fuel signature timeout retryInterval startTime)
  (at level 10, fuel at level 9).
Local Notation "'Runs'" := (Polling env signature timeout retryInterval startTime).

(** The [try] block of a poll, and its [catch] block. *)
Lemma poll_try_catch lease w :
  RetryConfirm.poll env signature lease w =
  tryCatch
    (confirmation <- await (fun n => confirmTransaction env n (pollRequest signature lease))
                       (fun t => CallConfirm t (pollRequest signature lease)) ;;
     match confirmation with
     | Some _ => throw (Error "Transaction failed")
     | None => return_ "success"
     end)
    (fun err =>
       if RetryConfirm.blockhashExpired (message err)
       then
         consoleLog "Blockhash expired, getting new one..." ;;
         await (fun n => getLatestBlockhash env n "confirmed")
           (fun t => CallGetLatestBlockhash t "confirmed")
       else throw err) w.
Proof. reflexivity. Qed.

Lemma poll_confirmed lease w :
  settled (pollReply env signature lease w) = Fulfilled None ->
  RetryConfirm.poll env signature lease w =
  mkRun (Return "success") (afterPoll env signature lease w) [pollEvent env signature lease w].
Proof.
  intros H. rewrite poll_try_catch. apply tryCatch_returned.
  unfold bind. rewrite await_fulfilled with (a := None) by exact H.
  unfold pollEvent. rewrite H. reflexivity.
Qed.

Lemma poll_fatal lease w e :
  pollError (settled (pollReply env signature lease w)) = Some e ->
  RetryConfirm.blockhashExpired (message e) = false ->
  RetryConfirm.poll env signature lease w =
  mkRun (Throw e) (afterPoll env signature lease w) [pollEvent env signature lease w].
Proof.
  intros He Hfatal. rewrite poll_try_catch. unfold pollEvent.
  destruct (settled (pollReply env signature lease w)) as [[onchain|]|reason] eqn:Hreply;
    cbn in He; try discriminate; injection He as He; subst e.
  - erewrite tryCatch_caught;
      [|unfold bind; rewrite await_fulfilled with (a := Some onchain) by exact Hreply;
        reflexivity].
    reflexivity.
  - erewrite tryCatch_caught;
      [|unfold bind; rewrite await_rejected with (e := reason) by exact Hreply;
        reflexivity].
    cbv beta. rewrite Hfatal. reflexivity.
Qed.

Lemma poll_no_lease lease w e e' :
  settled (pollReply env signature lease w) = Rejected e ->
  RetryConfirm.blockhashExpired (message e) = true ->
  settled (fetchReply env signature lease w) = Rejected e' ->
  RetryConfirm.poll env signature lease w =
  mkRun (Throw e') (afterFetch env signature lease w)
    [pollEvent env signature lease w; noteEvent; fetchEvent env signature lease w].
Proof.
  intros He Hexpired Hfetch. rewrite poll_try_catch. unfold pollEvent, fetchEvent.
  erewrite tryCatch_caught;
    [|unfold bind; rewrite await_rejected with (e := e) by exact He; reflexivity].
  cbv beta. rewrite Hexpired, He, Hfetch. unfold bind, consoleLog, emit, andThen.
  cbn [completion world events].
  rewrite await_rejected with (e := e') by exact Hfetch. reflexivity.
Qed.

Lemma poll_new_lease lease w e lease' :
  settled (pollReply env signature lease w) = Rejected e ->
  RetryConfirm.blockhashExpired (message e) = true ->
  settled (fetchReply env signature lease w) = Fulfilled lease' ->
  RetryConfirm.poll env signature lease w =
  mkRun (Normal lease') (afterFetch env signature lease w)
    [pollEvent env signature lease w; noteEvent; fetchEvent env signature lease w].
Proof.
  intros He Hexpired Hfetch. rewrite poll_try_catch. unfold pollEvent, fetchEvent.
  erewrite tryCatch_caught;
    [|unfold bind; rewrite await_rejected with (e := e) by exact He; reflexivity].
  cbv beta. rewrite Hexpired, He, Hfetch. unfold bind, consoleLog, emit, andThen.
  cbn [completion world events].
  rewrite await_fulfilled with (a := lease') by exact Hfetch. reflexivity.
Qed.

(** One turn of the [while]. *)
Lemma loop_turn fuel lease w :
  loop (S fuel) lease w =
  if now w - startTime <? timeout
  then (lease' <- RetryConfirm.poll env signature lease ;;
        sleep env retryInterval ;;
        loop fuel lease') w
  else mkRun (Normal tt) w [].
Proof.
  cbn [RetryConfirm.pollLoop]. unfold bind at 1. unfold andThen at 1.
  cbn [dateNow completion world events app]. rewrite run_eta.
  now destruct (now w - startTime <? timeout).
Qed.

(** The rest of a turn after a poll that ended abruptly. *)
Lemma turn_ends lease w (c : Completion string Lease) w' evs fuel :
  RetryConfirm.poll env signature lease w = mkRun c w' evs ->
  (forall lease', c <> Normal lease') ->
  (lease' <- RetryConfirm.poll env signature lease ;;
   sleep env retryInterval ;;
   loop fuel lease') w
  = mkRun match c with
          | Normal _ => Pending
          | Return v => Return v
          | Throw e => Throw e
          | Pending => Pending
          end w' evs.
Proof.
  intros H Hc. unfold bind at 1. rewrite H. unfold andThen.
  cbn [completion world events]. destruct c; try reflexivity.
  now contradiction (Hc a).
Qed.

(** The rest of a turn after a poll that left a new lease. *)
Lemma turn_goes_on lease w lease' w' evs fuel :
  RetryConfirm.poll env signature lease w = mkRun (Normal lease') w' evs ->
  (lease' <- RetryConfirm.poll env signature lease ;;
   sleep env retryInterval ;;
   loop fuel lease') w
  = let r := loop fuel lease'
               (elapse (Z.max 0 retryInterval + Z.of_N (timerLag env (calls w'))) w') in
    mkRun (completion r) (world r) (evs ++ Timer (now w') retryInterval :: events r).
Proof.
  intros H. unfold bind at 1. rewrite H. unfold andThen at 1.
  cbn [completion world events]. unfold bind, andThen.
  cbn [sleep completion world events app]. reflexivity.
Qed.

Lemma loop_cases fuel lease w :
  Turn env signature timeout retryInterval startTime fuel lease w.
Proof.
  pose proof (loop_turn fuel lease w) as Hturn.
  destruct (now w - startTime <? timeout) eqn:Hdeadline;
    [apply Z.ltb_lt in Hdeadline
    | apply Z.ltb_ge in Hdeadline; now apply Turn_deadline].
  destruct (settled (pollReply env signature lease w)) as [[onchain|]|e] eqn:Hreply.
  - assert (Herr : pollError (settled (pollReply env signature lease w))
                   = Some (Error "Transaction failed")) by now rewrite Hreply.
    rewrite (turn_ends _ _ _ _ _ _ (poll_fatal lease w _ Herr eq_refl)) in Hturn
      by discriminate.
    now apply Turn_fatal with (e := Error "Transaction failed").
  - rewrite (turn_ends _ _ _ _ _ _ (poll_confirmed lease w Hreply)) in Hturn
      by discriminate.
    now apply Turn_confirmed.
  - assert (Herr : pollError (settled (pollReply env signature lease w)) = Some e)
      by now rewrite Hreply.
    destruct (RetryConfirm.blockhashExpired (message e)) eqn:Hexpired.
    + destruct (settled (fetchReply env signature lease w)) as [lease'|e'] eqn:Hfetch.
      * rewrite (turn_goes_on _ _ _ _ _ _ (poll_new_lease lease w e lease' Hreply Hexpired Hfetch))
          in Hturn.
        now apply Turn_retry with (e := e) (lease' := lease').
      * rewrite (turn_ends _ _ _ _ _ _ (poll_no_lease lease w e e' Hreply Hexpired Hfetch))
          in Hturn by discriminate.
        now apply Turn_no_lease with (e := e) (e' := e').
    + rewrite (turn_ends _ _ _ _ _ _ (poll_fatal lease w e Herr Hexpired)) in Hturn
        by discriminate.
      now apply Turn_fatal with (e := e).
Qed.

(** Every run of the loop is one of the runs of [Polling]. *)
Lemma loop_runs fuel : forall lease w, Runs lease w (loop fuel lease w).
Proof.
  induction fuel as [|fuel IH]; intros lease w; [apply Polling_starved|].
  destruct (loop_cases fuel lease w) as
    [Hd Hrun | Hd Hreply Hrun | e Hd Herr Hfatal Hrun | e e' Hd Hreply Hexp Hfetch Hrun
    | e lease' Hd Hreply Hexp Hfetch Hrun]; cbv zeta in *; rewrite Hrun.
  - now apply Polling_deadline.
  - now apply Polling_confirmed.
  - now apply Polling_fatal.
  - now apply Polling_no_lease with (e := e).
  - apply Polling_retry with (e := e) (lease' := lease'); try assumption. apply IH.
Qed.

(** *** What every run of the loop satisfies *)

Lemma Polling_no_send lease w r :
  Runs lease w r -> existsb isSend (events r) = false.
Proof. induction 1; cbn; auto. Qed.


Lemma Polling_within_budget lease w r :
  Runs lease w r -> Forall (pollsBefore (startTime + timeout)) (events r).
Proof.
  induction 1; cbn [events]; repeat constructor; cbn; try lia; assumption.
Qed.

Lemma Polling_deadline_passed lease w r :
  Runs lease w r -> completion r = Normal tt -> timeout <= now (world r) - startTime.
Proof. induction 1; cbn; intros Hc; try discriminate; auto. Qed.

Lemma Polling_returns_success lease w r v :
  Runs lease w r -> completion r = Return v -> v = "success".
Proof. induction 1; cbn; intros Hc; try discriminate; auto. now injection Hc. Qed.


Ltac not_a_poll H :=
  repeat match type of H with
         | _ :: _ = (?before ++ _)%list =>
             destruct before; cbn [app] in H; [discriminate H|];
             injection H as _ H
         | [] = (?before ++ _)%list =>
             destruct before; discriminate H
         end.

(** Every poll of a run is the first poll of a run of the loop that ends as
    the whole run ends. *)
Ltac head_poll H :=
  match type of H with
  | ?ev :: ?rest = CallConfirm ?t ?req ?ans :: ?after =>
      let Hev := fresh "Hev" in
      let Hafter := fresh "Hafter" in
      assert (Hev : CallConfirm t req ans = ev) by (injection H; congruence);
      assert (Hafter : after = rest) by (injection H; congruence);
      rewrite Hev, Hafter; clear H
  end.

Lemma Polling_at_poll lease w r :
  Runs lease w r ->
  forall before t req ans after,
    events r = (before ++ CallConfirm t req ans :: after)%list ->
    exists lease' w',
      Runs lease' w' (mkRun (completion r) (world r) (CallConfirm t req ans :: after)) /\
      CallConfirm t req ans = pollEvent env signature lease' w'.
Proof.
  induction 1 as [| | lease w Hd Hreply | lease w e Hd Herr Hfatal
                 | lease w e e' Hd Hreply Hexp Hfetch
                 | lease w e lease' r Hd Hreply Hexp Hfetch Hrest IH];
    intros before t req ans after Hsplit; cbn [events completion world] in *.
  - destruct before; discriminate.
  - destruct before; discriminate.
  - destruct before as [|ev before]; cbn [app] in Hsplit.
    + head_poll Hsplit. exists lease, w. split; [|reflexivity].
      now apply Polling_confirmed.
    + injection Hsplit as _ Hsplit. not_a_poll Hsplit.
  - destruct before as [|ev before]; cbn [app] in Hsplit.
    + head_poll Hsplit. exists lease, w. split; [|reflexivity].
      now apply Polling_fatal.
    + injection Hsplit as _ Hsplit. not_a_poll Hsplit.
  - destruct before as [|ev before]; cbn [app] in Hsplit.
    + head_poll Hsplit. exists lease, w. split; [|reflexivity].
      now apply Polling_no_lease with (e := e).
    + injection Hsplit as _ Hsplit. unfold noteEvent, fetchEvent in Hsplit.
      not_a_poll Hsplit.
  - destruct before as [|ev before]; cbn [app] in Hsplit.
    + head_poll Hsplit. exists lease, w. split; [|reflexivity].
      now apply Polling_retry with (e := e) (lease' := lease').
    + injection Hsplit as _ Hsplit. unfold noteEvent, fetchEvent, timerEvent in Hsplit.
      destruct before as [|ev1 before]; [discriminate|]. injection Hsplit as _ Hsplit.
      destruct before as [|ev2 before]; [discriminate|]. injection Hsplit as _ Hsplit.
      destruct before as [|ev3 before]; [discriminate|]. injection Hsplit as _ Hsplit.
      exact (IH before t req ans after Hsplit).
Qed.

(** How a run goes after its first poll. *)
Lemma Polling_first_turn lease w c wf first after :
  Runs lease w (mkRun c wf (first :: after)) ->
  first = pollEvent env signature lease w /\
  match pollError (settled (pollReply env signature lease w)) with
  | None => after = [] /\ c = Return "success"
  | Some e =>
      if RetryConfirm.blockhashExpired (message e)
      then
        settled (pollReply env signature lease w) = Rejected e /\
        exists rest,
          after = noteEvent :: fetchEvent env signature lease w :: rest /\
          match settled (fetchReply env signature lease w) with
          | Rejected e' => rest = [] /\ c = Throw e'
          | Fulfilled lease' =>
              exists r,
                Runs lease' (afterTimer env signature retryInterval lease w) r /\
                rest = timerEvent env signature retryInterval lease w :: events r /\
                c = completion r
          end
      else after = [] /\ c = Throw e
  end.
Proof.
  intros H.
  inversion H as [| | ? ? Hd Hreply | ? ? e Hd Herr Hfatal
                 | ? ? e e' Hd Hreply Hexp Hfetch
                 | ? ? e lease' r Hd Hreply Hexp Hfetch Hrest]; subst;
    (split; [reflexivity|]).
  - now rewrite Hreply.
  - now rewrite Herr, Hfatal.
  - rewrite Hreply. cbn [pollError]. rewrite Hexp. split; [reflexivity|].
    exists []. now rewrite Hfetch.
  - rewrite Hreply. cbn [pollError]. rewrite Hexp. split; [reflexivity|].
    exists (timerEvent env signature retryInterval lease w :: events r).
    rewrite Hfetch. split; [reflexivity|]. now exists r.
Qed.

(** A run that hears nothing but expiry ends at the deadline, if it ends. *)
Lemma Polling_still_waiting lease w r :
  Runs lease w r ->
  forallb stillWaiting (events r) = true ->
  completion r = Normal tt \/ completion r = Pending.
Proof.
  induction 1 as [| | lease w Hd Hreply | lease w e Hd Herr Hfatal
                 | lease w e e' Hd Hreply Hexp Hfetch
                 | lease w e lease' r Hd Hreply Hexp Hfetch Hrest IH];
    cbn [events completion forallb stillWaiting pollEvent noteEvent fetchEvent timerEvent];
    auto.
  - rewrite Hreply. discriminate.
  - destruct (settled (pollReply env signature lease w)) as [[x|]|e0];
      cbn in Herr; try discriminate.
    injection Herr as ->. rewrite Hfatal. discriminate.
  - rewrite Hreply, Hexp, Hfetch. discriminate.
  - rewrite Hreply, Hexp, Hfetch. cbn [andb]. exact IH.
Qed.

(** A run that ends at the deadline heard nothing but expiry. *)
Lemma Polling_only_expiry lease w r :
  Runs lease w r ->
  completion r = Normal tt ->
  forallb stillWaiting (events r) = true.
Proof.
  induction 1 as [| | lease w Hd Hreply | lease w e Hd Herr Hfatal
                 | lease w e e' Hd Hreply Hexp Hfetch
                 | lease w e lease' r Hd Hreply Hexp Hfetch Hrest IH];
    cbn [events completion forallb stillWaiting pollEvent noteEvent fetchEvent timerEvent];
    try discriminate; [reflexivity|].
  intros Hc. rewrite Hreply, Hexp, Hfetch. cbn [andb]. now apply IH.
Qed.

(** The clock after a retry is at least [retryInterval] later. *)
Lemma afterTimer_later lease w :
  now w + retryInterval <= now (afterTimer env signature retryInterval lease w).
Proof. unfold afterTimer, afterFetch, afterPoll, elapse. cbn [now]. lia. Qed.

(** With a positive [retryInterval] the loop ends within
    [timeout / retryInterval] turns and one more test. *)
Lemma loop_ends fuel :
  0 < retryInterval ->
  forall lease w,
    (0 < fuel)%nat ->
    startTime + timeout - now w <= (Z.of_nat fuel - 1) * retryInterval ->
    completion (loop fuel lease w) <> Pending.
Proof.
  intros Hpos. induction fuel as [|fuel IH]; intros lease w Hfuel Hleft; [lia|].
  destruct (loop_cases fuel lease w) as
    [Hd Hrun | Hd Hreply Hrun | e Hd Herr Hfatal Hrun | e e' Hd Hreply Hexp Hfetch Hrun
    | e lease' Hd Hreply Hexp Hfetch Hrun]; cbv zeta in *; rewrite Hrun;
    cbn [completion]; try discriminate.
  pose proof (afterTimer_later lease w) as Hlater.
  apply IH; nia.
Qed.

End PollingFacts.

(** ** [confirmTransactionWithRetry] *)

Section HelperFacts.

Variable env : Oracle.
Variable R : Type.
Variable signature : string.
Variables timeout retryInterval : Z.

(** The helper runs the loop with [startTime] the time of the call, and
    turns the way the loop ends into its result. *)
Lemma helper_run fuel lease w :
  RetryConfirm.confirmTransactionWithRetry (R := R) env fuel signature lease
    timeout retryInterval w =
  let r := RetryConfirm.pollLoop env fuel signature timeout retryInterval (now w) lease w in
  mkRun match completion r with
        | Normal _ => Normal "timeout"
        | Return v => Normal v
        | Throw e => Throw e
        | Pending => Pending
        end (world r) (events r).
Proof.
  unfold RetryConfirm.confirmTransactionWithRetry, callAsync, bind, andThen.
  cbn [dateNow completion world events app return_].
  destruct (RetryConfirm.pollLoop env fuel signature timeout retryInterval (now w) lease w)
    as [[[]|v|e|] w' evs]; cbn [completion world events]; now rewrite ?app_nil_r.
Qed.

Lemma helper_runs fuel lease w :
  let r := RetryConfirm.confirmTransactionWithRetry (R := R) env fuel signature lease
             timeout retryInterval w in
  exists r0,
    Polling env signature timeout retryInterval (now w) lease w r0 /\
    r0 = RetryConfirm.pollLoop env fuel signature timeout retryInterval (now w) lease w /\
    events r = events r0 /\ world r = world r0 /\
    completion r = match completion r0 with
                   | Normal _ => Normal "timeout"
                   | Return v => Normal v
                   | Throw e => Throw e
                   | Pending => Pending
                   end.
Proof.
  cbv zeta. rewrite helper_run. cbv zeta.
  eexists. split; [apply loop_runs|]. repeat split.
Qed.

(** How the run goes on after any of its polls. *)
Lemma helper_after_poll fuel lease w before t req ans after :
  let r := RetryConfirm.confirmTransactionWithRetry (R := R) env fuel signature lease
             timeout retryInterval w in
  events r = (before ++ CallConfirm t req ans :: after)%list ->
  exists lease' w' r0,
    Polling env signature timeout retryInterval (now w) lease' w'
      (mkRun (completion r0) (world r0) (CallConfirm t req ans :: after)) /\
    CallConfirm t req ans = pollEvent env signature lease' w' /\
    completion r = match completion r0 with
                   | Normal _ => Normal "timeout"
                   | Return v => Normal v
                   | Throw e => Throw e
                   | Pending => Pending
                   end.
Proof.
  intros r Hsplit.
  destruct (helper_runs fuel lease w) as (r0 & Hruns & _ & Hev & _ & Hc).
  fold r in Hev, Hc. rewrite Hev in Hsplit.
  destruct (Polling_at_poll _ _ _ _ _ _ _ _ Hruns _ _ _ _ _ Hsplit)
    as (lease' & w' & Hsuffix & Hpoll).
  now exists lease', w', r0.
Qed.

(** *** The test of the [catch] block *)


(** C3.  When a poll of the helper ends with an error that is not taken for
    an expired lease (the promise is rejected with such an error, or the
    confirmation carries an on-chain error), the poll is the last event of
    the run: there is no further poll, fetch or timer, and the helper
    throws that error. *)
Theorem other_confirmation_error_aborts fuel lease w before t req ans after e :
  let r := RetryConfirm.confirmTransactionWithRetry (R := R) env fuel signature lease
             timeout retryInterval w in
  events r = (before ++ CallConfirm t req ans :: after)%list ->
  pollError ans = Some e ->
  RetryConfirm.blockhashExpired (message e) = false ->
  after = [] /\ completion r = Throw e.
Proof.
  intros r Hsplit Herr Hfatal.
  destruct (helper_after_poll fuel lease w before t req ans after Hsplit)
    as (lease' & w' & r0 & Hsuffix & Hpoll & Hc).
  fold r in Hc. apply Polling_first_turn in Hsuffix. destruct Hsuffix as [_ Hturn].
  assert (Hans : settled (pollReply env signature lease' w') = ans)
    by (unfold pollEvent in Hpoll; congruence).
  rewrite Hans, Herr, Hfatal in Hturn. destruct Hturn as [-> Hthrow].
  split; [reflexivity|]. now rewrite Hc, Hthrow.
Qed.



(** C5.  The deadline is the time of the call plus [timeout]: every poll of
    the run, however many leases were replaced before it, starts before
    that deadline, and a run that ends with 'timeout' ends at or after it. *)
Theorem deadline_is_fixed_at_entry fuel lease w :
  let r := RetryConfirm.confirmTransactionWithRetry (R := R) env fuel signature lease
             timeout retryInterval w in
  Forall (pollsBefore (now w + timeout)) (events r) /\
  (completion r = Normal "timeout" -> timeout <= now (world r) - now w).
Proof.
  intros r.
  destruct (helper_runs fuel lease w) as (r0 & Hruns & _ & Hev & Hw & Hc).
  fold r in Hev, Hw, Hc. rewrite Hev, Hw, Hc. split.
  - exact (Polling_within_budget _ _ _ _ _ _ _ _ Hruns).
  - intros Hresult. apply (Polling_deadline_passed _ _ _ _ _ _ _ _ Hruns).
    destruct (completion r0) as [[]|v|e|] eqn:Hc0; try discriminate; [reflexivity|].
    apply (Polling_returns_success _ _ _ _ _ _ _ _ _ Hruns) in Hc0. subst v.
    discriminate.
Qed.

(** C2 (amended).  With a positive [retryInterval] (and fuel for the turns
    the budget allows) the helper ends in one of three ways: it returns
    'timeout', it returns 'success', or it throws.  It returns 'timeout'
    exactly in the runs in which nothing but expiry is heard from the node
    (every poll is rejected with an expired lease and every lease fetch
    succeeds), and then at or after the deadline.  The deadline is looked
    at before a poll starts and at no other time, so nothing is said of
    how late a run may end. *)
Theorem timeout_exactly_when_only_expiry_is_heard fuel lease w :
  let r := RetryConfirm.confirmTransactionWithRetry (R := R) env fuel signature lease
             timeout retryInterval w in
  0 < retryInterval ->
  (0 < fuel)%nat ->
  timeout <= (Z.of_nat fuel - 1) * retryInterval ->
  (completion r = Normal "timeout" \/ completion r = Normal "success" \/
   exists e, completion r = Throw e) /\
  (completion r = Normal "timeout" <-> forallb stillWaiting (events r) = true) /\
  (completion r = Normal "timeout" -> timeout <= now (world r) - now w).
Proof.
  intros r Hpos Hfuel Hbudget.
  destruct (helper_runs fuel lease w) as (r0 & Hruns & Hloop & Hev & Hw & Hc).
  fold r in Hev, Hw, Hc.
  assert (Hends : completion r0 <> Pending).
  { rewrite Hloop. apply loop_ends; [assumption | assumption | lia]. }
  rewrite Hev, Hw, Hc.
  destruct (completion r0) as [[]|v|e|] eqn:Hc0.
  - split; [now left|]. split.
    + split; [intros _ | reflexivity].
      exact (Polling_only_expiry _ _ _ _ _ _ _ _ Hruns Hc0).
    + intros _. exact (Polling_deadline_passed _ _ _ _ _ _ _ _ Hruns Hc0).
  - pose proof (Polling_returns_success _ _ _ _ _ _ _ _ _ Hruns Hc0) as ->.
    split; [right; now left|]. split; [split|]; try discriminate.
    intros Hwaiting.
    destruct (Polling_still_waiting _ _ _ _ _ _ _ _ Hruns Hwaiting) as [H | H];
      rewrite Hc0 in H; discriminate.
  - split; [right; right; now exists e|]. split; [split|]; try discriminate.
    intros Hwaiting.
    destruct (Polling_still_waiting _ _ _ _ _ _ _ _ Hruns Hwaiting) as [H | H];
      rewrite Hc0 in H; discriminate.
  - now contradiction Hends.
Qed.

End HelperFacts.

(** ** The bounded retry *)

Section BoundedRetryFacts.

Variable env : Oracle.
Variables key to toPublicKey : string.
Variable amount : float.

Hypothesis context_arrives :
  forall n, exists context,
    settled (getLatestBlockhashAndContext env n) = Fulfilled context.

Hypothesis transfer_built :
  transferThrows env key toPublicKey (JsNumber.solToLamports amount) = None.

Hypothesis always_stale :
  forall n tx slot, exists e,
    settled (sendTransaction env n tx slot) = Rejected e /\
    JsString.includes (message e) "Blockhash" = true.

(** An attempt ends when the wallet refuses the transaction. *)
Lemma attempt_stale w :
  exists e w1 evs,
    JsString.includes (message e) "Blockhash" = true /\
    BoundedRetry.attempt env key to toPublicKey amount w = mkRun (Throw e) w1 evs /\
    error w1 = error w /\
    forallb (fun ev => negb (isReport ev)) evs = true /\
    List.length (filter isNetworkCall evs) = 2%nat.
Proof.
  destruct (context_arrives (calls w)) as [context Hcontext].
  unfold BoundedRetry.attempt.
  erewrite bind_normal_run by (apply await_fulfilled; exact Hcontext).
  cbv zeta. rewrite (transfer_accepted _ _ _ _ _ _ transfer_built).
  match goal with
  | |- context [bind (await (fun n => sendTransaction env n ?tx ?slot) _) _ ?w1] =>
      destruct (always_stale (calls w1) tx slot) as [e [He Hmsg]]
  end.
  erewrite bind_throw_run by (apply await_rejected; exact He).
  cbn [completion world events app].
  exists e. do 2 eexists. split; [exact Hmsg|]. split; [reflexivity|].
  repeat split.
Qed.

(** A turn of the [while] whose attempt threw a blockhash error. *)
Lemma attempts_retry retries w e w1 evs :
  BoundedRetry.attempt env key to toPublicKey amount w = mkRun (Throw e) w1 evs ->
  JsString.includes (message e) "Blockhash" = true ->
  BoundedRetry.attempts env (S retries) key to toPublicKey amount w =
  let r := BoundedRetry.attempts env retries key to toPublicKey amount
             (elapse (Z.max 0 1000 + Z.of_N (timerLag env (calls w1))) w1) in
  mkRun (completion r) (world r) (evs ++ Timer (now w1) 1000 :: events r).
Proof.
  intros Hattempt Hmsg. cbn [BoundedRetry.attempts]. unfold bind.
  erewrite tryCatch_caught by exact Hattempt.
  rewrite Hmsg. cbn [andb Nat.ltb Nat.leb sleep completion world events app].
  unfold andThen. cbn [completion world events]. now rewrite <- app_assoc.
Qed.

(** The loop runs out of retries without a word. *)
Lemma attempts_exhausted retries : forall w,
  let r := BoundedRetry.attempts env retries key to toPublicKey amount w in
  completion r = Normal tt /\
  error (world r) = error w /\
  forallb (fun ev => negb (isReport ev)) (events r) = true /\
  List.length (filter isNetworkCall (events r)) = (2 * retries)%nat.
Proof.
  induction retries as [|retries IH]; intros w; [now cbn|].
  destruct (attempt_stale w) as (e & w1 & evs & Hmsg & Hattempt & Hsame & Hsilent & Htwo).
  cbv zeta. rewrite (attempts_retry retries w e _ _ Hattempt Hmsg). cbv zeta.
  match goal with
  | |- context [BoundedRetry.attempts env retries key to toPublicKey amount ?w'] =>
      specialize (IH w'); cbv zeta in IH;
      destruct IH as (Hc & Herr & Hquiet & Hcalls)
  end.
  cbn [completion world events].
  rewrite forallb_app, filter_app, length_app.
  cbn [forallb filter isNetworkCall isReport negb andb].
  rewrite Hc, Herr, Hsilent, Hquiet, Htwo, Hcalls.
  repeat split; [exact Hsame | lia].
Qed.


End BoundedRetryFacts.


Lemma callAsync_prologue (k : M unit unit) (w : World) :
  callAsync (R := unit) tt (setLoading true ;; setError None ;; k) w =
  callAsync tt k (mkWorld (now w) (calls w) true None (balance w) (signature w)).
Proof. reflexivity. Qed.

(** C7, at the input that breaks it.  In the bounded-retry iteration, when
    each of the three attempts fails with an error whose message includes
    'Blockhash' (here: the transfer instruction is built and the wallet
    refuses the transaction each time), the handler returns with nothing
    reported: no alert, no [console.error], and no error message set. *)
Theorem exhausted_retries_are_reported_nowhere
  (env : Oracle) (key to toPublicKey : string) (amountInput : option string) (w : World) :
  to <> "" ->
  newPublicKey env to = Some toPublicKey ->
  notPositive (parseFloat env amountInput) = false ->
  transferThrows env key toPublicKey
    (JsNumber.solToLamports (parseFloat env amountInput)) = None ->
  (forall n, exists context,
     settled (getLatestBlockhashAndContext env n) = Fulfilled context) ->
  (forall n tx slot, exists e,
     settled (sendTransaction env n tx slot) = Rejected e /\
     JsString.includes (message e) "Blockhash" = true) ->
  let r := BoundedRetry.handleSend env (Some key) (Some to) amountInput w in
  completion r = Normal tt /\
  loading (world r) = false /\
  error (world r) = None /\
  forallb (fun ev => negb (isReport ev)) (events r) = true /\
  List.length (filter isNetworkCall (events r)) = 6%nat.
Proof.
  intros Hto Hkey Hamount Hbuilt Hcontext Hstale.
  unfold BoundedRetry.handleSend. cbn [falsy].
  apply String.eqb_neq in Hto. rewrite Hto, callAsync_reject_not, Hkey.
  cbv zeta. rewrite Hamount, callAsync_reject_not, callAsync_prologue.
  set (w' := mkWorld (now w) (calls w) true None (balance w) (signature w)).
  pose proof (attempts_exhausted env key to toPublicKey (parseFloat env amountInput)
                Hcontext Hbuilt Hstale 3 w') as Hrun.
  cbv zeta in Hrun. unfold BoundedRetry.submit, tryCatchFinally, tryCatch, finally_, callAsync.
  destruct (BoundedRetry.attempts env 3 key to toPublicKey (parseFloat env amountInput) w')
    as [c3 w3 evs3].
  cbn [completion world events] in Hrun. destruct Hrun as (-> & Herr & Hquiet & Hcalls).
  cbn [completion world events setLoading loading error]. rewrite app_nil_r.
  repeat split; assumption.
Qed.

(** ** The confirmation loop reports every outcome *)

Lemma bind_reports_when_its_end_does {R A B : Type} (m : M R A) (k : A -> M R B) :
  (forall a w b, completion (k a w) = Normal b ->
                 existsb isReport (events (k a w)) = true) ->
  forall w b, completion (bind m k w) = Normal b ->
              existsb isReport (events (bind m k w)) = true.
Proof.
  intros Hk w b. unfold bind, andThen.
  destruct (completion (m w)) as [a| | |]; cbn [completion events]; try discriminate.
  intros Hb. rewrite existsb_app, (Hk _ _ _ Hb). apply orb_true_r.
Qed.

Lemma bind_never_returns {R A B : Type} (m : M R A) (k : A -> M R B) :
  (forall w v, completion (m w) <> Return v) ->
  (forall a w v, completion (k a w) <> Return v) ->
  forall w v, completion (bind m k w) <> Return v.
Proof.
  intros Hm Hk w v. unfold bind, andThen. specialize (Hm w).
  destruct (completion (m w)) as [a|v'| |]; cbn [completion]; try discriminate.
  - apply Hk.
  - now contradiction (Hm v').
Qed.

Lemma await_never_returns {R A : Type} (ask : nat -> Reply A)
  (record : Z -> Settled A -> Event) w (v : R) :
  completion (await ask record w) <> Return v.
Proof. unfold await. destruct (settled (ask (calls w))); discriminate. Qed.

Lemma callAsync_never_returns {R A B : Type} (dflt : A) (body : M A B) w (v : R) :
  completion (callAsync dflt body w) <> Return v.
Proof. unfold callAsync. cbn [completion]. destruct (completion (body w)); discriminate. Qed.

(** In the last iteration, a submission that has ended was reported: by
    the alert of the success, or by [console.error] after the error message
    was set (the timeout included). *)
Lemma retry_submit_is_reported env fuel key toPubkey amount w :
  let r := RetryConfirm.submit env fuel key toPubkey amount w in
  completion r <> Pending -> existsb isReport (events r) = true.
Proof.
  unfold RetryConfirm.submit, tryCatchFinally, finally_, tryCatch.
  match goal with
  | |- context [completion (?body w)] => set (run := body w)
  end.
  assert (Hnormal : forall b, completion run = Normal b ->
                              existsb isReport (events run) = true).
  { apply bind_reports_when_its_end_does. intros lease w1.
    apply bind_reports_when_its_end_does. intros [] w1'.
    apply bind_reports_when_its_end_does. intros signature w2.
    apply bind_reports_when_its_end_does. intros [] w3.
    apply bind_reports_when_its_end_does. intros result w4 b.
    destruct (String.eqb result "success"); [reflexivity | discriminate]. }
  assert (Hreturn : forall v, completion run <> Return v).
  { apply bind_never_returns; [intros; apply await_never_returns | intros lease].
    apply bind_never_returns;
      [intros w1 v; unfold systemTransfer; destruct (transferThrows _ _ _ _); discriminate
      | intros []].
    apply bind_never_returns; [intros; apply await_never_returns | intros signature].
    apply bind_never_returns; [discriminate | intros []].
    apply bind_never_returns; [intros; apply callAsync_never_returns | intros result w4 v].
    destruct (String.eqb result "success"); discriminate. }
  clearbody run. destruct run as [[b|v|e|] wr evs];
    cbn [completion world events] in *; cbv zeta.
  - intros _.
    rewrite existsb_app, (Hnormal b eq_refl). reflexivity.
  - now contradiction (Hreturn v).
  - intros _. cbn. rewrite !existsb_app. cbn. now rewrite !orb_true_r.
  - intros H. now contradiction H.
Qed.

(** The timeout of the confirmation loop is shown as a failure: the error
    thrown says 'timed out', the message set is 'Transaction failed'. *)
Example timeout_is_shown_as_failure :
  let r := RetryConfirm.handleSend Demo.neverConfirms (Some Demo.key) 31
             Demo.recipient "1.5" Demo.idle in
  completion r = Normal tt /\
  error (world r) = Some "Transaction failed" /\
  loading (world r) = false /\
  last (events r) (Alert []) = ConsoleError (Error "Transaction confirmation timed out").
Proof. vm_compute. repeat split. Qed.

(** The bounded retry tests for another text than the confirmation loop:
    an error the loop takes for an expired lease need not be retried by the
    handler of the bounded-retry iteration, and the other way round. *)
Example bounded_retry_tests_another_text :
  RetryConfirm.blockhashExpired "blockhash expired" = true /\
  JsString.includes "blockhash expired" "Blockhash" = false /\
  RetryConfirm.blockhashExpired "Blockhash mismatch" = false /\
  JsString.includes "Blockhash mismatch" "Blockhash" = true.
Proof. repeat split. Qed.

(** ** The handlers return *)

Lemma helper_ends {R : Type} env fuel signature lease :
  (31 <= fuel)%nat ->
  Ends (RetryConfirm.confirmTransactionWithRetry (R := R) env fuel signature lease
          RetryConfirm.defaultTimeout RetryConfirm.defaultRetryInterval).
Proof.
  intros Hfuel w.
  destruct (helper_runs env R signature RetryConfirm.defaultTimeout
              RetryConfirm.defaultRetryInterval fuel lease w)
    as (r0 & _ & Hloop & _ & _ & Hc).
  rewrite Hc. clear Hc.
  assert (Hends : completion r0 <> Pending).
  { rewrite Hloop. apply loop_ends;
      unfold RetryConfirm.defaultTimeout, RetryConfirm.defaultRetryInterval; lia. }
  destruct (completion r0); try discriminate. contradiction.
Qed.

#[local] Hint Resolve helper_ends : statements.

Lemma simple_getBalance_ends env publicKey :
  Ends (Simple.getBalance env publicKey).
Proof. unfold Simple.getBalance. compose. Qed.

Lemma requestAirdrop_ends env publicKey amountInput :
  Ends (Simple.requestAirdrop env publicKey amountInput).
Proof.
  unfold Simple.requestAirdrop, Simple.airdrop, rejectWhen, alert. compose.
Qed.

Lemma handleSignMessage_ends env publicKey message :
  Ends (Signer.handleSignMessage env publicKey message).
Proof. unfold Signer.handleSignMessage, Signer.sign, rejectWhen, alert, consoleError. compose. Qed.

Lemma retry_handleSend_ends env publicKey fuel toAddress sendAmount :
  (31 <= fuel)%nat ->
  Ends (RetryConfirm.handleSend env publicKey fuel toAddress sendAmount).
Proof.
  intros Hfuel.
  unfold RetryConfirm.handleSend, RetryConfirm.submit, rejectWhen, alert, consoleLog,
    consoleError.
  compose.
Qed.

(** ** SOL and lamports *)

(** *** Rounding to the nearest double

    The library specifies the primitive operations by [SpecFloat]: the
    exact quotient or product is cut to 53 bits by shifting, the bits cut
    off are remembered as a location, and the location decides the
    rounding.  The lemmas below say what that comes to: the mantissa of the
    result is the integer nearest to the exact value on the grid of the
    result. *)









Lemma locOf_whole (N : Z) : locOf N 1 = loc_Exact.
Proof. unfold locOf. now rewrite Z.mod_1_r. Qed.

(** *** The nearest integer *)



(** *** Rounding to a double *)


Lemma recOf_whole (m : Z) : shr_record_of_loc m loc_Exact = recOf m 1.
Proof. unfold recOf. now rewrite locOf_whole, Z.div_1_r. Qed.






(** *** The numbers of the handlers *)






















(** *** The ranges in which the conversions are what the arithmetic says *)




Section Lamports.

Variable env : Oracle.
Variable amount : float.

Lemma pollLoop_carries fuel signature timeout retryInterval startTime : forall lease,
  Emits (carriesLamports amount)
    (RetryConfirm.pollLoop env fuel signature timeout retryInterval startTime lease).
Proof.
  induction fuel as [|fuel IH]; intros lease; cbn [RetryConfirm.pollLoop];
    [intros w; constructor|].
  unfold RetryConfirm.poll, consoleLog. compose.
Qed.

Lemma helper_carries {R : Type} fuel signature lease timeout retryInterval :
  Emits (carriesLamports amount)
    (RetryConfirm.confirmTransactionWithRetry (R := R) env fuel signature lease
       timeout retryInterval).
Proof.
  unfold RetryConfirm.confirmTransactionWithRetry. apply Emits_callAsync.
  apply Emits_bind; [apply Emits_dateNow | intros startTime].
  apply Emits_bind; [apply pollLoop_carries | intros _; apply Emits_return].
Qed.

End Lamports.

#[local] Hint Resolve helper_carries : statements.

(** *** Nothing is sent when the transfer cannot be built *)






(** C9.  The airdrop handler, the send handler and the sign handler each
    leave [loading] false on every path that went past the guards, whatever
    the wallet and the node answered (thrown errors and the timeout of the
    confirmation loop included), and leave it as it was on every path that
    returned at a guard.  So a handler started with [loading] false has
    [loading] false when it has returned; and the three handlers do return
    (the send handler with fuel for the 30 turns its budget allows). *)
Theorem loading_is_reset_on_every_exit
  (env : Oracle) (publicKey : option string) (fuel : nat) (w : World)
  (amountInput toAddress sendAmount message : string) :
  let airdropped := Simple.requestAirdrop env publicKey amountInput w in
  let sent := RetryConfirm.handleSend env publicKey fuel toAddress sendAmount w in
  let signed := Signer.handleSignMessage env publicKey message w in
  resetsLoading (airdropAccepted env publicKey amountInput) w airdropped /\
  resetsLoading (sendAccepted env publicKey toAddress sendAmount) w sent /\
  resetsLoading (signAccepted env publicKey message) w signed /\
  (loading w = false ->
     (completion airdropped <> Pending -> loading (world airdropped) = false) /\
     (completion sent <> Pending -> loading (world sent) = false) /\
     (completion signed <> Pending -> loading (world signed) = false)) /\
  completion airdropped <> Pending /\
  ((31 <= fuel)%nat -> completion sent <> Pending) /\
  completion signed <> Pending.
Proof.
  intros airdropped sent signed.
  pose proof (requestAirdrop_resets_loading env publicKey amountInput w) as Ha.
  pose proof (retry_handleSend_resets_loading env publicKey fuel toAddress sendAmount w) as Hs.
  pose proof (signer_handleSignMessage_resets_loading env publicKey message w) as Hm.
  fold airdropped in Ha. fold sent in Hs. fold signed in Hm.
  split; [exact Ha|]. split; [exact Hs|]. split; [exact Hm|]. split; [|split; [|split]].
  - intros Hidle. split; [|split]; intros Hret.
    + rewrite (Ha Hret). now destruct (airdropAccepted env publicKey amountInput).
    + rewrite (Hs Hret). now destruct (sendAccepted env publicKey toAddress sendAmount).
    + rewrite (Hm Hret). now destruct (signAccepted env publicKey message).
  - apply requestAirdrop_ends.
  - intros Hfuel. now apply retry_handleSend_ends.
  - apply handleSignMessage_ends.
Qed.

(* ------------------------------------------------------------------ *)
(** ** The properties on the sample wallets and nodes *)

(** A node that never confirms: the helper, called with its defaults,
    returns 'timeout' a minute or more after the call. *)
Lemma timeout_exactly_when_only_expiry_is_heard_witness :
  let r := RetryConfirm.confirmTransactionWithRetry (R := unit) Demo.neverConfirms 31
             Demo.txSignature Demo.firstLease
             RetryConfirm.defaultTimeout RetryConfirm.defaultRetryInterval Demo.idle in
  (completion r = Normal "timeout" \/ completion r = Normal "success" \/
   exists e, completion r = Throw e) /\
  (completion r = Normal "timeout" <-> forallb stillWaiting (events r) = true) /\
  (completion r = Normal "timeout" ->
   RetryConfirm.defaultTimeout <= now (world r) - now Demo.idle).
Proof.
  apply (timeout_exactly_when_only_expiry_is_heard Demo.neverConfirms unit Demo.txSignature
           RetryConfirm.defaultTimeout RetryConfirm.defaultRetryInterval
           31 Demo.firstLease Demo.idle).
  - reflexivity.
  - apply Nat.lt_0_succ.
  - vm_compute. discriminate.
Defined.

(** C2 as stated fails.  A node that answers the first poll seventy
    seconds after it was asked: no confirmation arrives within the minute
    of the budget, and the helper returns 'success', seventy seconds after
    the call.  A node in trouble: no confirmation arrives at all, and the
    helper throws the node's error after the first poll. *)
Lemma a_late_answer_is_not_a_timeout :
  let late := RetryConfirm.confirmTransactionWithRetry (R := unit) Scenes.answersLate 31
                Demo.txSignature Demo.firstLease
                RetryConfirm.defaultTimeout RetryConfirm.defaultRetryInterval Demo.idle in
  let refused := RetryConfirm.confirmTransactionWithRetry (R := unit) Demo.inTrouble 31
                   Demo.txSignature Demo.firstLease
                   RetryConfirm.defaultTimeout RetryConfirm.defaultRetryInterval Demo.idle in
  events late = [CallConfirm (now Demo.idle)
                   (ByStrategy Demo.txSignature Demo.firstLease None "confirmed")
                   (Fulfilled None)] /\
  now (world late) = now Demo.idle + 70000 /\
  RetryConfirm.defaultTimeout < now (world late) - now Demo.idle /\
  completion late = Normal "success" /\
  existsb isConfirmedPoll (events refused) = false /\
  now (world refused) = now Demo.idle + 400 /\
  completion refused = Throw Demo.unhealthy.
Proof. vm_compute. repeat split. Qed.

(** A node in trouble: the first poll is the only event, and the helper
    throws the node's error. *)
Lemma other_confirmation_error_aborts_witness :
  let r := RetryConfirm.confirmTransactionWithRetry (R := unit) Demo.inTrouble 31
             Demo.txSignature Demo.firstLease
             RetryConfirm.defaultTimeout RetryConfirm.defaultRetryInterval Demo.idle in
  tl (events r) = [] /\ completion r = Throw Demo.unhealthy.
Proof.
  apply (other_confirmation_error_aborts Demo.inTrouble unit Demo.txSignature
           RetryConfirm.defaultTimeout RetryConfirm.defaultRetryInterval
           31 Demo.firstLease Demo.idle []
           (now Demo.idle) (ByStrategy Demo.txSignature Demo.firstLease None "confirmed")
           (Rejected Demo.unhealthy)); reflexivity.
Defined.




(** A text that is no key and an amount of zero: the three send handlers
    return with the component and the network untouched. *)
Lemma invalid_input_makes_no_network_call_witness :
  returnsUntouched Demo.idle
    (RetryConfirm.handleSend Demo.neverConfirms (Some Demo.key) 31 "not a key" "0" Demo.idle) /\
  returnsUntouched Demo.idle
    (Simple.handleSend Demo.neverConfirms (Some Demo.key) (Some "not a key") (Some "-2")
       Demo.idle) /\
  returnsUntouched Demo.idle
    (BoundedRetry.handleSend Demo.neverConfirms (Some Demo.key) (Some "not a key")
       (Some "-2") Demo.idle).
Proof.
  apply (invalid_input_makes_no_network_call Demo.neverConfirms (Some Demo.key) 31 Demo.idle
           "not a key" "0" (Some "not a key") (Some "-2")).
  - left. reflexivity.
  - right. reflexivity.
Defined.

(** A wallet that is refused each time because the blockhash is not found:
    three attempts, six calls, and nothing is reported. *)
Lemma exhausted_retries_are_reported_nowhere_witness :
  let r := BoundedRetry.handleSend Demo.staleNode (Some Demo.key) (Some Demo.recipient)
             (Some "1.5") Demo.idle in
  completion r = Normal tt /\
  loading (world r) = false /\
  error (world r) = None /\
  forallb (fun ev => negb (isReport ev)) (events r) = true /\
  List.length (filter isNetworkCall (events r)) = 6%nat.
Proof.
  apply (exhausted_retries_are_reported_nowhere Demo.staleNode Demo.key Demo.recipient
           Demo.recipient (Some "1.5") Demo.idle).
  - discriminate.
  - reflexivity.
  - reflexivity.
  - vm_compute. reflexivity.
  - intros n. eexists. reflexivity.
  - intros n tx slot. exists Demo.stale. split; reflexivity.
Defined.

(** The same handler reports any other refusal: the message and the logs
    are set as the error, logged and shown. *)
Example bounded_retry_reports_other_errors :
  let r := BoundedRetry.handleSend Demo.brokeWallet (Some Demo.key) (Some Demo.recipient)
             (Some "1.5") Demo.idle in
  completion r = Normal tt /\
  loading (world r) = false /\
  error (world r) <> None /\
  existsb isReport (events r) = true /\
  List.length (filter isNetworkCall (events r)) = 2%nat.
Proof. vm_compute. repeat split. discriminate. Qed.

(* ================================================================== *)
(** * Further properties *)

(** ** No handler rejects *)

Section NeverThrowing.

Context {R A B : Type}.

Lemma NeverThrows_bind (m : M R A) (k : A -> M R B) :
  NeverThrows m -> (forall a, NeverThrows (k a)) -> NeverThrows (bind m k).
Proof.
  intros Hm Hk w e. unfold bind, andThen. specialize (Hm w).
  destruct (completion (m w)) as [a|v|e'|]; cbn [completion]; try discriminate.
  - apply Hk.
  - now contradiction (Hm e').
Qed.

Lemma NeverThrows_tryCatch (body : M R A) (handler : JsError -> M R A) :
  (forall e, NeverThrows (handler e)) -> NeverThrows (tryCatch body handler).
Proof.
  intros Hh w e. unfold tryCatch.
  destruct (completion (body w)) as [a|v|e'|] eqn:E; try (rewrite E; discriminate).
  apply Hh.
Qed.

Lemma NeverThrows_tryCatchFinally (body : M R A) (handler : JsError -> M R A)
  (fin : M R unit) :
  (forall e, NeverThrows (handler e)) -> NeverThrows fin ->
  NeverThrows (tryCatchFinally body handler fin).
Proof.
  intros Hh Hf w e. unfold tryCatchFinally, finally_.
  pose proof (NeverThrows_tryCatch body handler Hh w) as Ht.
  specialize (Hf (world (tryCatch body handler w))).
  destruct (completion (tryCatch body handler w)) as [a|v|e'|] eqn:E;
    cbn [completion]; try (rewrite E; discriminate);
    try (destruct (completion (fin _)) as [[]|v'|e''|]; try discriminate;
         now contradiction (Hf e'')).
  now contradiction (Ht e').
Qed.

Lemma NeverThrows_callAsync (dflt : A) (body : M A B) :
  NeverThrows body -> NeverThrows (callAsync (R := R) dflt body).
Proof.
  intros Hb w e. unfold callAsync. specialize (Hb w). cbn [completion].
  destruct (completion (body w)) as [b|v|e'|]; try discriminate.
  now contradiction (Hb e').
Qed.

End NeverThrowing.

(** Takes a handler apart down to its [try] statement, whose [catch] and
    [finally] blocks are all that matters. *)
Ltac never_throws :=
  repeat first
    [ progress cbv beta zeta
    | match goal with
      | |- NeverThrows (callAsync _ _) => apply NeverThrows_callAsync
      | |- NeverThrows (tryCatchFinally _ _ _) =>
          apply NeverThrows_tryCatchFinally; [intros ?|]
      | |- NeverThrows (tryCatch _ _) => apply NeverThrows_tryCatch; intros ?
      | |- NeverThrows (bind _ _) => apply NeverThrows_bind; [|intros ?]
      | |- NeverThrows (if ?c then _ else _) => destruct c
      | |- NeverThrows (match ?x with _ => _ end) => destruct x
      | |- NeverThrows _ => intros ? ?; discriminate
      end ].

(** X1.  No handler rejects its promise: whatever the wallet and the node
    answer, [getBalance], the two [requestAirdrop], the three [handleSend]
    and the two [handleSignMessage] never end by throwing; every error is
    caught by the handler's own [catch] block (thrown values being error
    objects). *)
Theorem handlers_never_reject (env : Oracle) (publicKey : option string) (fuel : nat)
  (text other : string) (to amountInput : option string) :
  NeverThrows (Simple.getBalance env publicKey) /\
  NeverThrows (Simple.requestAirdrop env publicKey text) /\
  NeverThrows (Simple.handleSend env publicKey to amountInput) /\
  NeverThrows (Signer.handleSignMessage env publicKey text) /\
  NeverThrows (BoundedRetry.handleSend env publicKey to amountInput) /\
  NeverThrows (RetryConfirm.requestAirdrop env publicKey text) /\
  NeverThrows (RetryConfirm.handleSend env publicKey fuel text other) /\
  NeverThrows (RetryConfirm.handleSignMessage env publicKey text).
Proof.
  repeat split.
  - unfold Simple.getBalance, consoleError. never_throws.
  - unfold Simple.requestAirdrop, Simple.airdrop, rejectWhen, alert, consoleError.
    never_throws.
  - unfold Simple.handleSend, Simple.submit, rejectWhen, alert, consoleError.
    never_throws.
  - unfold Signer.handleSignMessage, Signer.sign, rejectWhen, alert, consoleError.
    never_throws.
  - unfold BoundedRetry.handleSend, BoundedRetry.submit, rejectWhen, alert, consoleError.
    never_throws.
  - unfold RetryConfirm.requestAirdrop, RetryConfirm.airdrop, rejectWhen, alert, consoleError.
    never_throws.
  - unfold RetryConfirm.handleSend, RetryConfirm.submit, rejectWhen, alert, consoleError.
    never_throws.
  - unfold RetryConfirm.handleSignMessage, RetryConfirm.sign, rejectWhen, alert, consoleError.
    never_throws.
Qed.

(** ** [getBalance] *)

(** The run of [getBalance] for a connected wallet. *)
Lemma getBalance_run env key w :
  Simple.getBalance env (Some key) w =
  let reply := Js.getBalance env (calls w) key in
  let w' := elapse (Z.of_N (took reply)) w in
  match settled reply with
  | Fulfilled lamports =>
      mkRun (Normal tt)
        (mkWorld (now w') (calls w') (loading w) (error w)
           (Some (JsNumber.lamportsToSol lamports)) (Js.signature w))
        [CallGetBalance (now w) key (Fulfilled lamports)]
  | Rejected e =>
      mkRun (Normal tt)
        (mkWorld (now w') (calls w') (loading w) (Some "Failed to fetch balance")
           (balance w) (Js.signature w))
        [CallGetBalance (now w) key (Rejected e); ConsoleError e]
  end.
Proof.
  unfold Simple.getBalance, callAsync, tryCatch. cbv zeta.
  destruct (settled (Js.getBalance env (calls w) key)) as [lamports|e] eqn:Hreply.
  - erewrite bind_normal_run by (apply await_fulfilled; exact Hreply). reflexivity.
  - erewrite bind_throw_run by (apply await_rejected; exact Hreply). reflexivity.
Qed.

(** X2.  [getBalance] makes no call without a wallet and one call with
    one.  When the node answers, the balance shown is the answer divided by
    [LAMPORTS_PER_SOL] and an error left by an earlier failure stays as it
    is; when the node refuses, the error becomes 'Failed to fetch balance',
    the refusal is logged, and the balance shown before stays.  Either way
    the function returns normally and [loading] is not touched. *)
Theorem balance_fetch_never_fails (env : Oracle) (publicKey : option string) (w : World) :
  let r := Simple.getBalance env publicKey w in
  completion r = Normal tt /\
  loading (world r) = loading w /\
  match publicKey with
  | None => world r = w /\ events r = []
  | Some key =>
      match settled (Js.getBalance env (calls w) key) with
      | Fulfilled lamports =>
          balance (world r) = Some (JsNumber.lamportsToSol lamports) /\
          error (world r) = error w /\
          events r = [CallGetBalance (now w) key (Fulfilled lamports)]
      | Rejected e =>
          balance (world r) = balance w /\
          error (world r) = Some "Failed to fetch balance" /\
          events r = [CallGetBalance (now w) key (Rejected e); ConsoleError e]
      end
  end.
Proof.
  destruct publicKey as [key|]; cbv zeta; [|repeat split].
  rewrite getBalance_run. cbv zeta.
  destruct (settled (Js.getBalance env (calls w) key)); repeat split.
Qed.

(** ** The loading flag in the other handlers *)

(** X3.  The handlers of the other iterations reset [loading] as well:
    [handleSend] of [src/App.jsx] and of the bounded-retry iteration,
    and [requestAirdrop] and [handleSignMessage] of the last iteration
    leave [loading] false when their guards let them through and they
    return, and as it was when a guard returns. *)
Theorem the_other_handlers_reset_loading
  (env : Oracle) (publicKey to amountInput : option string) (text : string) (w : World) :
  resetsLoading (promptedSendAccepted env publicKey to amountInput) w
    (Simple.handleSend env publicKey to amountInput w) /\
  resetsLoading (promptedSendAccepted env publicKey to amountInput) w
    (BoundedRetry.handleSend env publicKey to amountInput w) /\
  resetsLoading (airdropAccepted env publicKey text) w
    (RetryConfirm.requestAirdrop env publicKey text w) /\
  resetsLoading (signAccepted env publicKey text) w
    (RetryConfirm.handleSignMessage env publicKey text w).
Proof.
  split; [apply simple_handleSend_resets_loading|].
  split; [apply bounded_handleSend_resets_loading|].
  split; [apply retry_requestAirdrop_resets_loading
         | apply retry_handleSignMessage_resets_loading].
Qed.

(** ** Counting calls *)

Section Counting.

Context {R A B : Type}.
Variable counted : Event -> bool.

Lemma AtMost_more (a b : nat) (m : M R A) :
  (a <= b)%nat -> AtMost counted a m -> AtMost counted b m.
Proof. intros Hab Hm w. specialize (Hm w). lia. Qed.

Lemma AtMost_bind (a b : nat) (m : M R A) (k : A -> M R B) :
  AtMost counted a m -> (forall x, AtMost counted b (k x)) ->
  AtMost counted (a + b) (bind m k).
Proof.
  intros Hm Hk w. unfold bind, andThen. specialize (Hm w).
  destruct (completion (m w)) as [x| | |]; cbn [events]; try lia.
  rewrite filter_app, length_app. specialize (Hk x (world (m w))). lia.
Qed.

Lemma AtMost_tryCatch (a b : nat) (body : M R A) (handler : JsError -> M R A) :
  AtMost counted a body -> (forall e, AtMost counted b (handler e)) ->
  AtMost counted (a + b) (tryCatch body handler).
Proof.
  intros Hb Hh w. unfold tryCatch. specialize (Hb w).
  destruct (completion (body w)) as [x| |e|]; try lia.
  cbn [events]. rewrite filter_app, length_app. specialize (Hh e (world (body w))). lia.
Qed.

Lemma AtMost_tryCatchFinally (a b c : nat) (body : M R A) (handler : JsError -> M R A)
  (fin : M R unit) :
  AtMost counted a body -> (forall e, AtMost counted b (handler e)) ->
  AtMost counted c fin ->
  AtMost counted (a + b + c) (tryCatchFinally body handler fin).
Proof.
  intros Hb Hh Hf w. unfold tryCatchFinally, finally_.
  pose proof (AtMost_tryCatch a b body handler Hb Hh w) as Ht.
  specialize (Hf (world (tryCatch body handler w))).
  destruct (completion (tryCatch body handler w)); cbn [events];
    rewrite ?filter_app, ?length_app; lia.
Qed.

Lemma AtMost_callAsync (n : nat) (dflt : A) (body : M A B) :
  AtMost counted n body -> AtMost counted n (callAsync (R := R) dflt body).
Proof. intros Hb w. apply Hb. Qed.

Lemma AtMost_await (ask : nat -> Reply A) (record : Z -> Settled A -> Event) :
  AtMost counted 1 (await (R := R) ask record).
Proof.
  intros w. unfold await.
  destruct (settled (ask (calls w))); cbn [events filter];
    destruct (counted _); cbn [List.length]; lia.
Qed.

Lemma AtMost_uncounted (n : nat) (m : M R A) :
  Emits (fun ev => counted ev = false) m -> AtMost counted n m.
Proof.
  intros Hm w. specialize (Hm w).
  induction Hm as [|ev evs Hev _ IH]; cbn [filter List.length]; [lia|].
  now rewrite Hev.
Qed.

End Counting.

(** Statements none of whose events is counted. *)
Ltac uncounted :=
  repeat first
    [ progress cbv beta zeta
    | match goal with
      | |- Emits _ (bind _ _) => apply Emits_bind; [|intros ?]
      | |- Emits _ (tryCatchFinally _ _ _) => apply Emits_tryCatchFinally; [|intros ?|]
      | |- Emits _ (tryCatch _ _) => apply Emits_tryCatch; [|intros ?]
      | |- Emits _ (callAsync _ _) => apply Emits_callAsync
      | |- Emits _ (await _ _) => apply Emits_await; intros ? ?; reflexivity
      | |- Emits _ (sleep _ _) => apply Emits_sleep; intros ?; reflexivity
      | |- Emits _ (systemTransfer _ _ _ _) => apply Emits_systemTransfer
      | |- Emits _ (emit _) => apply Emits_emit; reflexivity
      | |- Emits _ (alert _) => apply Emits_emit; reflexivity
      | |- Emits _ (consoleLog _) => apply Emits_emit; reflexivity
      | |- Emits _ (consoleError _) => apply Emits_emit; reflexivity
      | |- Emits _ (rejectWhen ?c _) => destruct c; unfold rejectWhen
      | |- Emits _ (if ?c then _ else _) => destruct c
      | |- Emits _ (match ?x with _ => _ end) => destruct x
      | |- Emits _ _ => intros ?; constructor
      end ].

(** Spends the budget of a statement along its binds: a statement that
    makes no counted call costs nothing, an [await] or a call known from
    the hints costs what it costs. *)
Ltac within :=
  repeat first
    [ progress cbv beta zeta
    | match goal with
      | |- AtMost _ _ (callAsync _ _) => apply AtMost_callAsync
      | |- AtMost ?c ?n (tryCatchFinally _ _ _) =>
          apply (AtMost_tryCatchFinally c n 0 0);
          [ | intros ?; apply AtMost_uncounted; solve [uncounted]
            | apply AtMost_uncounted; solve [uncounted] ]
      | |- AtMost ?c ?n (tryCatch _ _) =>
          apply (AtMost_tryCatch c n 0);
          [ | intros ?; apply AtMost_uncounted; solve [uncounted] ]
      | |- AtMost ?c ?n (bind _ _) =>
          first
            [ apply (AtMost_bind c 0 n); [apply AtMost_uncounted; solve [uncounted] | intros ?]
            | apply (AtMost_bind c 1);
              [first [apply AtMost_await | solve [auto with statements]] | intros ?] ]
      | |- AtMost _ _ (if ?c then _ else _) => destruct c
      | |- AtMost _ _ (match ?x with _ => _ end) => destruct x
      | |- AtMost _ _ _ => apply AtMost_uncounted; solve [uncounted]
      end ].

Lemma getBalance_one_call env publicKey :
  AtMost isNetworkCall 1 (Simple.getBalance env publicKey).
Proof. unfold Simple.getBalance. within. Qed.

#[local] Hint Resolve getBalance_one_call : statements.

Lemma simple_handleSend_calls env publicKey to amountInput :
  AtMost isNetworkCall 3 (Simple.handleSend env publicKey to amountInput) /\
  AtMost isSend 1 (Simple.handleSend env publicKey to amountInput).
Proof. split; unfold Simple.handleSend, Simple.submit; within. Qed.

Lemma simple_requestAirdrop_calls env publicKey text :
  AtMost isNetworkCall 3 (Simple.requestAirdrop env publicKey text).
Proof. unfold Simple.requestAirdrop, Simple.airdrop; within. Qed.

Lemma retry_requestAirdrop_calls env publicKey text :
  AtMost isNetworkCall 3 (RetryConfirm.requestAirdrop env publicKey text).
Proof. unfold RetryConfirm.requestAirdrop, RetryConfirm.airdrop; within. Qed.

Lemma sign_calls env publicKey text :
  AtMost isNetworkCall 1 (Signer.handleSignMessage env publicKey text) /\
  AtMost isNetworkCall 1 (RetryConfirm.handleSignMessage env publicKey text).
Proof.
  split; [unfold Signer.handleSignMessage, Signer.sign
         | unfold RetryConfirm.handleSignMessage, RetryConfirm.sign]; within.
Qed.

Lemma attempt_calls env key to toPublicKey amount :
  AtMost isNetworkCall 3 (BoundedRetry.attempt env key to toPublicKey amount) /\
  AtMost isSend 1 (BoundedRetry.attempt env key to toPublicKey amount).
Proof. split; unfold BoundedRetry.attempt; within. Qed.

Lemma attempts_calls env key to toPublicKey amount counted k :
  AtMost counted k (BoundedRetry.attempt env key to toPublicKey amount) ->
  (forall t ms, counted (Timer t ms) = false) ->
  forall retries,
    AtMost counted (retries * k) (BoundedRetry.attempts env retries key to toPublicKey amount).
Proof.
  intros Hattempt Htimer.
  induction retries as [|retries IH]; cbn [BoundedRetry.attempts Nat.mul].
  - apply AtMost_uncounted. uncounted.
  - apply AtMost_bind; [|intros _; exact IH].
    apply (AtMost_more counted (k + 0) k); [lia|].
    apply AtMost_tryCatch; [exact Hattempt|].
    intros e. apply AtMost_uncounted.
    destruct (JsString.includes (message e) "Blockhash" && (0 <? S retries)%nat).
    + apply Emits_sleep. intros t. apply Htimer.
    + uncounted.
Qed.

Lemma bounded_handleSend_calls env publicKey to amountInput :
  AtMost isNetworkCall 9 (BoundedRetry.handleSend env publicKey to amountInput) /\
  AtMost isSend 3 (BoundedRetry.handleSend env publicKey to amountInput).
Proof.
  assert (Hsubmit : forall key to' toPublicKey amount,
            AtMost isNetworkCall 9 (BoundedRetry.submit env key to' toPublicKey amount) /\
            AtMost isSend 3 (BoundedRetry.submit env key to' toPublicKey amount)).
  { intros key to' toPublicKey amount.
    destruct (attempt_calls env key to' toPublicKey amount) as [Hcalls Hsends].
    split; unfold BoundedRetry.submit.
    - apply (AtMost_tryCatchFinally isNetworkCall 9 0 0);
        [|intros e; apply AtMost_uncounted; uncounted | apply AtMost_uncounted; uncounted].
      apply (attempts_calls env key to' toPublicKey amount isNetworkCall 3 Hcalls); reflexivity.
    - apply (AtMost_tryCatchFinally isSend 3 0 0);
        [|intros e; apply AtMost_uncounted; uncounted | apply AtMost_uncounted; uncounted].
      apply (attempts_calls env key to' toPublicKey amount isSend 1 Hsends); reflexivity. }
  split; unfold BoundedRetry.handleSend.
  - apply AtMost_callAsync. destruct publicKey as [key|]; [|within].
    apply (AtMost_bind isNetworkCall 0 9); [apply AtMost_uncounted; uncounted|intros _].
    cbv zeta. destruct (newPublicKey env _) as [toPublicKey|]; [|within].
    apply (AtMost_bind isNetworkCall 0 9); [apply AtMost_uncounted; uncounted|intros _].
    apply (AtMost_bind isNetworkCall 0 9); [apply AtMost_uncounted; uncounted|intros _].
    apply (AtMost_bind isNetworkCall 0 9); [apply AtMost_uncounted; uncounted|intros _].
    apply Hsubmit.
  - apply AtMost_callAsync. destruct publicKey as [key|]; [|within].
    apply (AtMost_bind isSend 0 3); [apply AtMost_uncounted; uncounted|intros _].
    cbv zeta. destruct (newPublicKey env _) as [toPublicKey|]; [|within].
    apply (AtMost_bind isSend 0 3); [apply AtMost_uncounted; uncounted|intros _].
    apply (AtMost_bind isSend 0 3); [apply AtMost_uncounted; uncounted|intros _].
    apply (AtMost_bind isSend 0 3); [apply AtMost_uncounted; uncounted|intros _].
    apply Hsubmit.
Qed.

(** ** Polls, calls and the time budget *)

Section PollingBounds.

Variable env : Oracle.
Variable signature : string.
Variables timeout retryInterval startTime : Z.

Local Notation "'Runs'" := (Polling env signature timeout retryInterval startTime).

(** Two polls are at least [retryInterval] apart, and each starts before
    the deadline: the time left bounds the number of polls. *)
Lemma Polling_poll_bound lease w r :
  0 < retryInterval ->
  Runs lease w r ->
  Z.of_nat (List.length (filter isPoll (events r))) * retryInterval <
  Z.max 0 (startTime + timeout - now w) + retryInterval.
Proof.
  intros Hpos.
  induction 1 as [| | lease w Hd Hreply | lease w e Hd Herr Hfatal
                 | lease w e e' Hd Hreply Hexp Hfetch
                 | lease w e lease' r Hd Hreply Hexp Hfetch Hrest IH];
    cbn [events filter isPoll pollEvent noteEvent fetchEvent timerEvent List.length];
    try lia.
  pose proof (afterTimer_later env signature retryInterval lease w) as Hlater.
  rewrite Nat2Z.inj_succ.
  set (n := Z.of_nat (List.length (filter isPoll (events r)))) in *.
  assert (Hn : 0 <= n) by apply Nat2Z.is_nonneg.
  replace (Z.succ n * retryInterval) with (n * retryInterval + retryInterval) by ring.
  destruct (Z_le_gt_dec
              (startTime + timeout - now (afterTimer env signature retryInterval lease w)) 0)
    as [Hpast|Hleft].
  - assert (n = 0) by nia. subst n. lia.
  - lia.
Qed.

(** A run asks the node for at most one lease per poll. *)
Lemma Polling_calls_per_poll lease w r :
  Runs lease w r ->
  (List.length (filter isNetworkCall (events r)) <=
   2 * List.length (filter isPoll (events r)))%nat.
Proof.
  induction 1;
    cbn [events filter isPoll isNetworkCall pollEvent noteEvent fetchEvent timerEvent
         List.length]; lia.
Qed.

(** The loop reports nothing and leaves the state of the component alone. *)
Lemma Polling_silent lease w r :
  Runs lease w r -> forallb silent (events r) = true.
Proof. induction 1; cbn; auto. Qed.

Lemma Polling_keeps_state lease w r :
  Runs lease w r ->
  error (world r) = error w /\ loading (world r) = loading w /\
  balance (world r) = balance w /\ Js.signature (world r) = Js.signature w.
Proof.
  induction 1; cbn [world]; try (repeat split; reflexivity).
  destruct IHPolling as (He & Hl & Hb & Hs). rewrite He, Hl, Hb, Hs. repeat split.
Qed.

(** The loop returns 'success' exactly when one of its polls was confirmed
    without an on-chain error, and that poll is then its last event. *)
Lemma Polling_success lease w r :
  Runs lease w r ->
  (completion r = Return "success" <-> existsb isConfirmedPoll (events r) = true) /\
  (completion r = Return "success" ->
   exists before last, events r = (before ++ [last])%list /\ isConfirmedPoll last = true).
Proof.
  induction 1 as [| | lease w Hd Hreply | lease w e Hd Herr Hfatal
                 | lease w e e' Hd Hreply Hexp Hfetch
                 | lease w e lease' r Hd Hreply Hexp Hfetch Hrest IH];
    cbn [events completion].
  - split; [split|]; discriminate.
  - split; [split|]; discriminate.
  - assert (Hlast : isConfirmedPoll (pollEvent env signature lease w) = true)
      by (unfold pollEvent; now rewrite Hreply).
    cbn [existsb]. rewrite Hlast. split; [split; reflexivity|]. intros _.
    exists [], (pollEvent env signature lease w). split; [reflexivity | exact Hlast].
  - assert (Hlast : isConfirmedPoll (pollEvent env signature lease w) = false).
    { unfold pollEvent.
      destruct (settled (pollReply env signature lease w)) as [[x|]|e0];
        cbn in Herr; try discriminate; reflexivity. }
    cbn [existsb]. rewrite Hlast. split; [split|]; discriminate.
  - assert (Hlast : isConfirmedPoll (pollEvent env signature lease w) = false)
      by (unfold pollEvent; now rewrite Hreply).
    cbn [existsb]. rewrite Hlast. split; [split|]; discriminate.
  - assert (Hlast : isConfirmedPoll (pollEvent env signature lease w) = false)
      by (unfold pollEvent; now rewrite Hreply).
    cbn [existsb]. rewrite Hlast. cbn [isConfirmedPoll noteEvent fetchEvent timerEvent orb].
    destruct IH as [IHiff IHlast]. split; [exact IHiff|].
    intros Hc. destruct (IHlast Hc) as (before & last & Hevs & Hconfirmed).
    exists (pollEvent env signature lease w :: noteEvent :: fetchEvent env signature lease w
              :: timerEvent env signature retryInterval lease w :: before), last.
    split; [|exact Hconfirmed]. cbn [app]. now rewrite Hevs.
Qed.

End PollingBounds.

Lemma bind_emit_run {R B : Type} (ev : Event) (k : unit -> M R B) (w : World) :
  bind (emit ev) k w =
  mkRun (completion (k tt w)) (world (k tt w)) (ev :: events (k tt w)).
Proof. reflexivity. Qed.

Lemma filter_none {A : Type} (f : A -> bool) (l : list A) :
  existsb f l = false -> filter f l = [].
Proof.
  induction l as [|x l IH]; cbn; [reflexivity|].
  destruct (f x); cbn; [discriminate | exact IH].
Qed.

Section HelperBounds.

Variable env : Oracle.
Variable R : Type.
Variable signature : string.
Variables timeout retryInterval : Z.

Local Notation "'helper' fuel lease" :=
  (RetryConfirm.confirmTransactionWithRetry (R := R) env fuel signature lease
     timeout retryInterval) (at level 10, fuel at level 9, lease at level 9).

Lemma helper_polls fuel lease w :
  0 < retryInterval ->
  Z.of_nat (List.length (filter isPoll (events (helper fuel lease w)))) * retryInterval <
  Z.max 0 timeout + retryInterval.
Proof.
  intros Hpos.
  destruct (helper_runs env R signature timeout retryInterval fuel lease w)
    as (r0 & Hruns & _ & Hevents & _ & _).
  rewrite Hevents.
  pose proof (Polling_poll_bound _ _ _ _ _ _ _ _ Hpos Hruns) as Hbound.
  replace (now w + timeout - now w) with timeout in Hbound by ring. exact Hbound.
Qed.

Lemma helper_calls_per_poll fuel lease w :
  (List.length (filter isNetworkCall (events (helper fuel lease w))) <=
   2 * List.length (filter isPoll (events (helper fuel lease w))))%nat.
Proof.
  destruct (helper_runs env R signature timeout retryInterval fuel lease w)
    as (r0 & Hruns & _ & Hevents & _ & _).
  rewrite Hevents. exact (Polling_calls_per_poll _ _ _ _ _ _ _ _ Hruns).
Qed.

Lemma helper_never_sends fuel lease : AtMost isSend 0 (helper fuel lease).
Proof.
  intros w.
  destruct (helper_runs env R signature timeout retryInterval fuel lease w)
    as (r0 & Hruns & _ & Hevents & _ & _).
  rewrite Hevents, (filter_none _ _ (Polling_no_send _ _ _ _ _ _ _ _ Hruns)).
  reflexivity.
Qed.

(** What a caller can tell from the result. *)
Lemma helper_outcome fuel lease w :
  let r := helper fuel lease w in
  forallb silent (events r) = true /\
  error (world r) = error w /\
  match completion r with
  | Normal v =>
      if existsb isConfirmedPoll (events r)
      then v = "success" /\
           exists before last,
             events r = (before ++ [last])%list /\ isConfirmedPoll last = true
      else v = "timeout"
  | Return _ => False
  | Throw _ | Pending => existsb isConfirmedPoll (events r) = false
  end.
Proof.
  cbv zeta.
  destruct (helper_runs env R signature timeout retryInterval fuel lease w)
    as (r0 & Hruns & _ & Hevents & Hworld & Hc).
  rewrite Hevents, Hworld, Hc.
  destruct (Polling_keeps_state _ _ _ _ _ _ _ _ Hruns) as (Herror & _).
  destruct (Polling_success _ _ _ _ _ _ _ _ Hruns) as [Hiff Hlast].
  split; [exact (Polling_silent _ _ _ _ _ _ _ _ Hruns)|]. split; [exact Herror|].
  destruct (completion r0) as [[]|v|e|] eqn:Hend.
  - destruct (existsb isConfirmedPoll (events r0)); [|reflexivity].
    destruct Hiff as [_ Hiff]. now specialize (Hiff eq_refl).
  - pose proof (Polling_returns_success _ _ _ _ _ _ _ _ _ Hruns Hend) as ->.
    destruct Hiff as [Hiff _]. rewrite (Hiff eq_refl). split; [reflexivity|].
    now apply Hlast.
  - destruct (existsb isConfirmedPoll (events r0)); [|reflexivity].
    destruct Hiff as [_ Hiff]. now specialize (Hiff eq_refl).
  - destruct (existsb isConfirmedPoll (events r0)); [|reflexivity].
    destruct Hiff as [_ Hiff]. now specialize (Hiff eq_refl).
Qed.

End HelperBounds.

Lemma helper_default_calls {R : Type} env fuel signature lease :
  AtMost isNetworkCall 60
    (RetryConfirm.confirmTransactionWithRetry (R := R) env fuel signature lease
       RetryConfirm.defaultTimeout RetryConfirm.defaultRetryInterval).
Proof.
  intros w.
  pose proof (helper_polls env R signature RetryConfirm.defaultTimeout
                RetryConfirm.defaultRetryInterval fuel lease w) as Hpolls.
  pose proof (helper_calls_per_poll env R signature RetryConfirm.defaultTimeout
                RetryConfirm.defaultRetryInterval fuel lease w) as Hcalls.
  unfold RetryConfirm.defaultTimeout, RetryConfirm.defaultRetryInterval in *.
  lia.
Qed.

#[local] Hint Resolve helper_default_calls helper_never_sends : statements.

Lemma retry_handleSend_calls env publicKey fuel toAddress sendAmount :
  AtMost isNetworkCall 62 (RetryConfirm.handleSend env publicKey fuel toAddress sendAmount) /\
  AtMost isSend 1 (RetryConfirm.handleSend env publicKey fuel toAddress sendAmount).
Proof.
  split; unfold RetryConfirm.handleSend, RetryConfirm.submit.
  - apply AtMost_callAsync. destruct publicKey as [key|]; [|within].
    cbv zeta.
    apply (AtMost_bind isNetworkCall 0 62); [apply AtMost_uncounted; uncounted|intros _].
    destruct (newPublicKey env toAddress) as [toPubkey|]; [|within].
    apply (AtMost_bind isNetworkCall 0 62); [apply AtMost_uncounted; uncounted|intros _].
    apply (AtMost_bind isNetworkCall 0 62); [apply AtMost_uncounted; uncounted|intros _].
    apply (AtMost_tryCatchFinally isNetworkCall 62 0 0);
      [|intros e; apply AtMost_uncounted; uncounted | apply AtMost_uncounted; uncounted].
    apply (AtMost_bind isNetworkCall 1 61); [apply AtMost_await|intros lease]. cbv zeta.
    apply (AtMost_bind isNetworkCall 0 61); [apply AtMost_uncounted; uncounted|intros _].
    apply (AtMost_bind isNetworkCall 1 60); [apply AtMost_await|intros sig].
    apply (AtMost_bind isNetworkCall 0 60); [apply AtMost_uncounted; uncounted|intros _].
    apply (AtMost_bind isNetworkCall 60 0); [apply helper_default_calls|intros result].
    within.
  - apply AtMost_callAsync. destruct publicKey as [key|]; [|within].
    cbv zeta.
    apply (AtMost_bind isSend 0 1); [apply AtMost_uncounted; uncounted|intros _].
    destruct (newPublicKey env toAddress) as [toPubkey|]; [|within].
    apply (AtMost_bind isSend 0 1); [apply AtMost_uncounted; uncounted|intros _].
    apply (AtMost_bind isSend 0 1); [apply AtMost_uncounted; uncounted|intros _].
    apply (AtMost_tryCatchFinally isSend 1 0 0);
      [|intros e; apply AtMost_uncounted; uncounted | apply AtMost_uncounted; uncounted].
    apply (AtMost_bind isSend 0 1); [apply AtMost_uncounted; uncounted|intros lease]. cbv zeta.
    apply (AtMost_bind isSend 0 1); [apply AtMost_uncounted; uncounted|intros _].
    apply (AtMost_bind isSend 1 0); [apply AtMost_await|intros sig].
    apply (AtMost_bind isSend 0 0); [apply AtMost_uncounted; uncounted|intros _].
    apply (AtMost_bind isSend 0 0); [apply helper_never_sends|intros result].
    within.
Qed.

(** X4.  One call of [handleSend] hands at most one transaction to the
    wallet in [src/App.jsx] and in the last iteration, and at most three
    in the bounded-retry iteration, whatever the wallet and the node
    answer. *)
Theorem transactions_per_click_are_bounded
  (env : Oracle) (publicKey to amountInput : option string) (fuel : nat)
  (toAddress sendAmount : string) :
  AtMost isSend 1 (Simple.handleSend env publicKey to amountInput) /\
  AtMost isSend 3 (BoundedRetry.handleSend env publicKey to amountInput) /\
  AtMost isSend 1 (RetryConfirm.handleSend env publicKey fuel toAddress sendAmount).
Proof.
  split; [apply simple_handleSend_calls|].
  split; [apply bounded_handleSend_calls | apply retry_handleSend_calls].
Qed.

(** X5.  The calls one handler makes to the wallet and the node are
    bounded: one for [getBalance] and for [handleSignMessage], three for
    [requestAirdrop] and for [handleSend] of [src/App.jsx], nine for the
    bounded-retry [handleSend], and sixty-two for the last [handleSend]
    (a lease, the transaction, and at most thirty polls with a lease
    fetch each). *)
Theorem network_calls_per_click_are_bounded
  (env : Oracle) (publicKey to amountInput : option string) (fuel : nat)
  (text other : string) :
  AtMost isNetworkCall 1 (Simple.getBalance env publicKey) /\
  AtMost isNetworkCall 3 (Simple.requestAirdrop env publicKey text) /\
  AtMost isNetworkCall 3 (RetryConfirm.requestAirdrop env publicKey text) /\
  AtMost isNetworkCall 1 (Signer.handleSignMessage env publicKey text) /\
  AtMost isNetworkCall 1 (RetryConfirm.handleSignMessage env publicKey text) /\
  AtMost isNetworkCall 3 (Simple.handleSend env publicKey to amountInput) /\
  AtMost isNetworkCall 9 (BoundedRetry.handleSend env publicKey to amountInput) /\
  AtMost isNetworkCall 62 (RetryConfirm.handleSend env publicKey fuel text other).
Proof.
  split; [apply getBalance_one_call|].
  split; [apply simple_requestAirdrop_calls|].
  split; [apply retry_requestAirdrop_calls|].
  split; [apply sign_calls|]. split; [apply sign_calls|].
  split; [apply simple_handleSend_calls|].
  split; [apply bounded_handleSend_calls | apply retry_handleSend_calls].
Qed.

(** X6.  With a positive [retryInterval], the polls of
    [confirmTransactionWithRetry] are at least [retryInterval] apart and
    each starts before the deadline, so their number times
    [retryInterval] stays below [max(0, timeout) + retryInterval] (none at
    all for a [timeout] of zero or less, at most thirty with the
    defaults); and the helper makes at most two calls for every poll. *)
Theorem polls_fit_the_time_budget
  (env : Oracle) (R : Type) (signature : string) (timeout retryInterval : Z)
  (fuel : nat) (lease : Lease) (w : World) :
  0 < retryInterval ->
  let r := RetryConfirm.confirmTransactionWithRetry (R := R) env fuel signature lease
             timeout retryInterval w in
  let polls := List.length (filter isPoll (events r)) in
  Z.of_nat polls * retryInterval < Z.max 0 timeout + retryInterval /\
  (List.length (filter isNetworkCall (events r)) <= 2 * polls)%nat.
Proof.
  intros Hpos. cbv zeta. split.
  - now apply helper_polls.
  - apply helper_calls_per_poll.
Qed.

(** X7.  [confirmTransactionWithRetry] returns 'success' exactly when
    one of its polls was answered with a confirmation that carries no
    on-chain error, and that poll is then its last event; any other value
    it returns is 'timeout'.  It shows and logs no error itself, and it
    leaves the state of the component ([error], [loading], [balance],
    [signature]) as it found it. *)
Theorem the_helper_says_success_exactly_when_confirmed
  (env : Oracle) (R : Type) (signature : string) (timeout retryInterval : Z)
  (fuel : nat) (lease : Lease) (w : World) :
  let r := RetryConfirm.confirmTransactionWithRetry (R := R) env fuel signature lease
             timeout retryInterval w in
  (completion r = Normal "success" <-> existsb isConfirmedPoll (events r) = true) /\
  (completion r = Normal "success" ->
   exists before last, events r = (before ++ [last])%list /\ isConfirmedPoll last = true) /\
  (forall v, completion r = Normal v -> v = "success" \/ v = "timeout") /\
  forallb silent (events r) = true /\
  error (world r) = error w /\ loading (world r) = loading w /\
  balance (world r) = balance w /\ Js.signature (world r) = Js.signature w.
Proof.
  cbv zeta.
  pose proof (helper_outcome env R signature timeout retryInterval fuel lease w) as Houtcome.
  cbv zeta in Houtcome. destruct Houtcome as (Hsilent & _ & Hend).
  destruct (helper_runs env R signature timeout retryInterval fuel lease w)
    as (r0 & Hruns & _ & _ & Hworld & _).
  destruct (Polling_keeps_state _ _ _ _ _ _ _ _ Hruns) as (He & Hl & Hb & Hs).
  rewrite Hworld.
  destruct (completion (RetryConfirm.confirmTransactionWithRetry env fuel signature lease
                          timeout retryInterval w)) as [v|v|e|]; [| contradiction | |].
  - destruct (existsb isConfirmedPoll (events _)).
    + destruct Hend as [-> Hlast]. repeat split; auto. intros v Hv. left. congruence.
    + subst v. repeat split; auto; try discriminate.
      intros v Hv. right. congruence.
  - rewrite Hend. repeat split; auto; discriminate.
  - rewrite Hend. repeat split; auto; discriminate.
Qed.

(** ** The last iteration reports what happened *)

(** What was heard before the block went on does not change how it ends. *)
Lemma SendBlock_after err (pre : list Event) (r : Run unit unit) :
  forallb silent pre = true ->
  existsb isConfirmedPoll pre = false ->
  SendBlock err r ->
  SendBlock err (mkRun (completion r) (world r) (pre ++ events r)).
Proof.
  intros Hsilent Hnone [Hc | evs sig Hc Herr Hevs Hquiet Hconfirmed | e Hc Hquiet Hconfirmed].
  - now apply Block_waiting.
  - apply Block_done with (evs := (pre ++ evs)%list) (sig := sig);
      cbn [completion world events]; try assumption.
    + now rewrite Hevs, app_assoc.
    + now rewrite forallb_app, Hsilent, Hquiet.
    + now rewrite existsb_app, Hconfirmed, orb_true_r.
  - apply Block_thrown with (e := e); cbn [completion world events]; try assumption.
    + now rewrite forallb_app, Hsilent, Hquiet.
    + now rewrite existsb_app, Hnone, Hconfirmed.
Qed.

Lemma SendBlock_caught err (body : M unit unit) (w : World) :
  SendBlock err (body w) ->
  SendOutcome err
    (tryCatchFinally body
       (fun e => setError (Some (RetryConfirm.describe e)) ;; consoleError e)
       (setLoading false) w).
Proof.
  unfold tryCatchFinally, tryCatch, finally_.
  intros [Hc | evs sig Hc Herr Hevs Hquiet Hconfirmed | e Hc Hquiet Hconfirmed]; rewrite Hc.
  - rewrite Hc. now apply Send_waiting.
  - rewrite Hc. cbn [completion world events setLoading].
    apply Send_succeeded with (evs := evs) (sig := sig); cbn [completion world events error];
      try assumption; [reflexivity | now rewrite app_nil_r].
  - cbn [completion world events setLoading setError consoleError emit bind andThen app].
    apply Send_failed with (e := e) (evs := events (body w));
      cbn [completion world events error]; try assumption; try reflexivity.
    now rewrite app_nil_r.
Qed.

Lemma retry_submit_outcome env fuel key toPubkey amount w :
  SendOutcome (error w) (RetryConfirm.submit env fuel key toPubkey amount w).
Proof.
  unfold RetryConfirm.submit. apply SendBlock_caught.
  destruct (settled (getLatestBlockhash env (calls w) "confirmed")) as [lease|e0] eqn:Hlease.
  - erewrite bind_normal_run by (apply await_fulfilled; exact Hlease).
    apply SendBlock_after; [reflexivity | reflexivity |]. cbv zeta.
    destruct (transferThrows env key toPubkey (JsNumber.solToWholeLamports amount))
      as [thrown|] eqn:Hbuilt;
      [ rewrite (transfer_thrown _ _ _ _ _ _ _ Hbuilt);
        now apply Block_thrown with (e := thrown)
      | rewrite (transfer_accepted _ _ _ _ _ _ Hbuilt) ].
    match goal with
    | |- context [bind (await (fun n => sendTransaction env n ?tx None) _) _ ?w1] =>
        destruct (settled (sendTransaction env (calls w1) tx None)) as [sig|e1] eqn:Hsend
    end.
    + erewrite bind_normal_run by (apply await_fulfilled; exact Hsend).
      apply SendBlock_after; [reflexivity | reflexivity |].
      unfold consoleLog. rewrite bind_emit_run.
      apply (SendBlock_after _ [ConsoleLog _]); [reflexivity | reflexivity |].
      match goal with
      | |- context [bind (RetryConfirm.confirmTransactionWithRetry env fuel sig lease ?t ?i) _ ?w2] =>
          pose proof (helper_outcome env unit sig t i fuel lease w2) as Hhelper;
          unfold bind;
          destruct (RetryConfirm.confirmTransactionWithRetry (R := unit) env fuel sig lease
                      t i w2) as [c wh evh]
      end.
      cbv zeta in Hhelper. cbn [completion world events] in Hhelper.
      destruct Hhelper as (Hsilent & Herror & Hend).
      unfold andThen. cbn [completion world events].
      destruct c as [v|v|e|]; [| contradiction | |].
      * destruct (existsb isConfirmedPoll evh) eqn:Hconfirmed.
        -- destruct Hend as (-> & before & last & Hevh & Hlast).
           apply Block_done with (evs := evh) (sig := sig); try assumption; reflexivity.
        -- subst v.
           apply Block_thrown with (e := Error "Transaction confirmation timed out");
             cbn [completion world events String.eqb Ascii.eqb Bool.eqb throw];
             rewrite ?app_nil_r; try assumption; reflexivity.
      * apply Block_thrown with (e := e); try assumption; reflexivity.
      * now apply Block_waiting.
    + erewrite bind_throw_run by (apply await_rejected; exact Hsend).
      now apply Block_thrown with (e := e1).
  - erewrite bind_throw_run by (apply await_rejected; exact Hlease).
    now apply Block_thrown with (e := e0).
Qed.

Lemma retry_describe_not_empty (e : JsError) : RetryConfirm.describe e <> "".
Proof.
  unfold RetryConfirm.describe. destruct (isSendTransactionError e); discriminate.
Qed.

Lemma retry_handleSend_accepted env publicKey fuel toAddress sendAmount w :
  sendAccepted env publicKey toAddress sendAmount = true ->
  exists key toPubkey,
    publicKey = Some key /\ newPublicKey env toAddress = Some toPubkey /\
    RetryConfirm.handleSend env publicKey fuel toAddress sendAmount w =
    callAsync tt
      (RetryConfirm.submit env fuel key toPubkey (parseFloat env (Some sendAmount)))
      (mkWorld (now w) (calls w) true None (balance w) (Js.signature w)).
Proof.
  unfold sendAccepted, RetryConfirm.handleSend. intros Haccepted.
  destruct publicKey as [key|]; [|discriminate].
  destruct (notPositive (parseFloat env (Some sendAmount))) eqn:Hamount; [discriminate|].
  destruct (newPublicKey env toAddress) as [toPubkey|] eqn:Hkey; [|discriminate].
  exists key, toPubkey. split; [reflexivity|]. split; [reflexivity|]. cbv zeta.
  now rewrite callAsync_reject_not, callAsync_prologue.
Qed.

(** X8.  In the last iteration, a [handleSend] that got past its guards
    (with fuel for the whole minute) returns in one of two ways.  Either
    the success alert is its last event, no error is set, nothing else
    was reported, and a poll was confirmed before; or the last event is
    the [console.error] of an error [e], the error shown is the non-empty
    [describe e], no alert was shown, and no poll was confirmed. *)
Theorem success_is_reported_only_when_confirmed
  (env : Oracle) (publicKey : option string) (fuel : nat) (toAddress sendAmount : string)
  (w : World) :
  sendAccepted env publicKey toAddress sendAmount = true ->
  (31 <= fuel)%nat ->
  let r := RetryConfirm.handleSend env publicKey fuel toAddress sendAmount w in
  completion r = Normal tt /\
  ((error (world r) = None /\
    exists evs sig,
      events r = (evs ++ [Alert [Lit "✅ Success! Transaction signature: "; Lit sig]])%list /\
      forallb silent evs = true /\
      existsb isConfirmedPoll evs = true)
   \/
   (exists e evs,
      error (world r) = Some (RetryConfirm.describe e) /\
      RetryConfirm.describe e <> "" /\
      events r = (evs ++ [ConsoleError e])%list /\
      forallb silent evs = true /\
      existsb isConfirmedPoll evs = false)).
Proof.
  intros Haccepted Hfuel. cbv zeta.
  pose proof (retry_handleSend_ends env publicKey fuel toAddress sendAmount Hfuel w) as Hends.
  destruct (retry_handleSend_accepted env publicKey fuel toAddress sendAmount w Haccepted)
    as (key & toPubkey & _ & _ & Hrun).
  rewrite Hrun in *. clear Hrun.
  set (w' := mkWorld (now w) (calls w) true None (balance w) (Js.signature w)) in *.
  destruct (retry_submit_outcome env fuel key toPubkey (parseFloat env (Some sendAmount)) w')
    as [Hc | evs sig Hc Herr Hevs Hquiet Hconfirmed | e evs Hc Herr Hevs Hquiet Hconfirmed];
    unfold callAsync in *; cbn [completion world events] in *; rewrite Hc in *.
  - now contradiction Hends.
  - split; [reflexivity|]. left. split; [exact Herr|]. now exists evs, sig.
  - split; [reflexivity|]. right. exists e, evs.
    repeat split; try assumption. apply retry_describe_not_empty.
Qed.

(** ** The first iteration does not look at the confirmation *)

Lemma simple_handleSend_accepted env publicKey to amountInput w :
  promptedSendAccepted env publicKey to amountInput = true ->
  exists key to' toKey,
    publicKey = Some key /\ to = Some to' /\ newPublicKey env to' = Some toKey /\
    Simple.handleSend env publicKey to amountInput w =
    callAsync tt (Simple.submit env key to' (parseFloat env amountInput))
      (mkWorld (now w) (calls w) true None (balance w) (Js.signature w)).
Proof.
  unfold promptedSendAccepted, Simple.handleSend. intros Haccepted.
  destruct publicKey as [key|]; [|discriminate].
  destruct to as [to'|]; [|discriminate]. cbn [falsy connected andb negb] in *.
  destruct (String.eqb to' "") eqn:Hto; [discriminate|].
  destruct (newPublicKey env to') as [toKey|] eqn:Hkey; [|discriminate].
  cbn [connected andb negb] in Haccepted.
  destruct (notPositive (parseFloat env amountInput)) eqn:Hamount; [discriminate|].
  exists key, to', toKey. split; [reflexivity|]. split; [reflexivity|].
  split; [exact Hkey|]. cbv zeta.
  now rewrite !callAsync_reject_not, callAsync_prologue.
Qed.

(** X9.  [handleSend] of [src/App.jsx] awaits the confirmation and does
    not read it: when [SystemProgram.transfer] builds the instruction for
    the lamports of the amount, the blockhash and the signature arrive and
    the confirmation carries an on-chain error, the handler still shows
    'Successfully sent ...' right after that confirmation, sets no error
    and logs none. *)
Theorem first_send_takes_any_confirmation_for_success
  (env : Oracle) (publicKey to amountInput : option string) (w : World) :
  promptedSendAccepted env publicKey to amountInput = true ->
  (forall fromPubkey toPubkey,
     transferThrows env fromPubkey toPubkey
       (JsNumber.solToLamports (parseFloat env amountInput)) = None) ->
  (forall n, exists recent, settled (getRecentBlockhash env n) = Fulfilled recent) ->
  (forall n tx slot, exists sig, settled (sendTransaction env n tx slot) = Fulfilled sig) ->
  (forall n req, exists failure,
     settled (confirmTransaction env n req) = Fulfilled (Some failure)) ->
  let r := Simple.handleSend env publicKey to amountInput w in
  completion r = Normal tt /\
  error (world r) = None /\
  loading (world r) = false /\
  exists evs t req failure text,
    events r = (evs ++ [CallConfirm t req (Fulfilled (Some failure)); Alert text])%list /\
    forallb silent evs = true /\
    hd (Lit "") text = Lit "Successfully sent ".
Proof.
  intros Haccepted Hbuilt Hfetch Hsend Hconfirm. cbv zeta.
  destruct (simple_handleSend_accepted env publicKey to amountInput w Haccepted)
    as (key & to' & toKey & _ & _ & Hkey & Hrun).
  rewrite Hrun. clear Hrun.
  set (w0 := mkWorld (now w) (calls w) true None (balance w) (Js.signature w)).
  unfold Simple.submit, tryCatchFinally, tryCatch, callAsync. rewrite Hkey.
  erewrite bind_normal_run by reflexivity. cbn [app].
  rewrite (transfer_accepted _ _ _ _ _ _ (Hbuilt key toKey)).
  destruct (Hfetch (calls w0)) as [recent Hrecent].
  erewrite bind_normal_run by (apply await_fulfilled; exact Hrecent).
  cbn [completion world events]. cbv zeta.
  match goal with
  | |- context [bind (await (fun n => sendTransaction env n ?tx None) _) _ ?w1] =>
      destruct (Hsend (calls w1) tx None) as [sig Hsig]
  end.
  erewrite bind_normal_run by (apply await_fulfilled; exact Hsig).
  cbn [completion world events].
  match goal with
  | |- context [bind (await (fun n => confirmTransaction env n ?req) _) _ ?w2] =>
      destruct (Hconfirm (calls w2) req) as [failure Hfailure]
  end.
  erewrite bind_normal_run by (apply await_fulfilled; exact Hfailure).
  cbn [completion world events alert emit finally_ setLoading error loading app].
  split; [reflexivity|]. split; [reflexivity|]. split; [reflexivity|].
  do 5 eexists. split.
  - rewrite ?app_nil_r.
    match goal with
    | |- [?a; ?b; ?c; ?d] = _ => change [a; b; c; d] with ([a; b] ++ [c; d])%list
    end.
    reflexivity.
  - split; reflexivity.
Qed.

Lemma requestAirdrop_accepted env publicKey amountInput w :
  airdropAccepted env publicKey amountInput = true ->
  exists key,
    publicKey = Some key /\
    Simple.requestAirdrop env publicKey amountInput w =
    callAsync tt (Simple.airdrop env publicKey key (parseFloat env (Some amountInput)))
      (mkWorld (now w) (calls w) true None (balance w) (Js.signature w)) /\
    RetryConfirm.requestAirdrop env publicKey amountInput w =
    callAsync tt (RetryConfirm.airdrop env publicKey key (parseFloat env (Some amountInput)))
      (mkWorld (now w) (calls w) true None (balance w) (Js.signature w)).
Proof.
  unfold airdropAccepted, Simple.requestAirdrop, RetryConfirm.requestAirdrop.
  intros Haccepted. destruct publicKey as [key|]; [|discriminate].
  cbn [connected andb] in Haccepted. apply negb_true_iff in Haccepted.
  exists key. split; [reflexivity|]. cbv zeta. rewrite Haccepted.
  unfold notPositive in Haccepted. apply orb_false_iff in Haccepted.
  destruct Haccepted as [Hnan Hleb]. rewrite Hnan, Hleb.
  now rewrite !callAsync_reject_not, !callAsync_prologue.
Qed.

Lemma endsShowing_after first err (pre : list Event) (r : Run unit unit) :
  endsShowing first err r ->
  endsShowing first err (mkRun (completion r) (world r) (pre ++ events r)).
Proof.
  intros (Hc & Herr & evs & text & Hevs & Htext). repeat split; try assumption.
  exists (pre ++ evs)%list, text. cbn [events]. now rewrite Hevs, app_assoc.
Qed.

Lemma endsShowing_finally first (body : M unit unit) (handler : JsError -> M unit unit)
  (w : World) :
  error w = None ->
  endsShowing first (error w) (body w) ->
  airdropShown first (callAsync tt (tryCatchFinally body handler (setLoading false)) w).
Proof.
  intros Hnone (Hc & Herr & evs & text & Hevs & Htext).
  unfold callAsync, tryCatchFinally, tryCatch, finally_. rewrite !Hc.
  cbn [completion world events setLoading loading error]. rewrite app_nil_r.
  rewrite Hnone in Herr. repeat split; try assumption. now exists evs, text.
Qed.

Lemma balance_then_alert first err env key text w :
  error w = err ->
  hd (Lit "") text = Lit first ->
  endsShowing first err (bind (Simple.getBalance env (Some key)) (fun _ => alert text) w).
Proof.
  intros <- Htext. unfold bind. rewrite getBalance_run. cbv zeta.
  destruct (settled (Js.getBalance env (calls w) key)) as [lamports|e];
    unfold andThen; cbn [completion world events alert emit error app].
  - repeat split; [now left|]. now exists [CallGetBalance (now w) key (Fulfilled lamports)], text.
  - repeat split; [now right|].
    now exists [CallGetBalance (now w) key (Rejected e); ConsoleError e], text.
Qed.

(** X10.  Both iterations of [requestAirdrop] do the same: when the
    airdrop is accepted and the confirmation carries an on-chain error,
    the success alert is the last event.  The only error that can be set
    on this path is 'Failed to fetch balance', when the refresh of the
    balance fails; the alert is shown all the same. *)
Theorem airdrop_takes_any_confirmation_for_success
  (env : Oracle) (publicKey : option string) (amountInput : string) (w : World) :
  airdropAccepted env publicKey amountInput = true ->
  (forall n key lamports, exists sig,
     settled (Js.requestAirdrop env n key lamports) = Fulfilled sig) ->
  (forall n req, exists failure,
     settled (confirmTransaction env n req) = Fulfilled (Some failure)) ->
  airdropShown "Successfully airdropped " (Simple.requestAirdrop env publicKey amountInput w) /\
  airdropShown "✅ Airdropped " (RetryConfirm.requestAirdrop env publicKey amountInput w).
Proof.
  intros Haccepted Hairdrop Hconfirm.
  destruct (requestAirdrop_accepted env publicKey amountInput w Haccepted)
    as (key & Hkey & Hfirst & Hlast).
  rewrite Hfirst, Hlast, Hkey. clear Hfirst Hlast Hkey.
  set (w0 := mkWorld (now w) (calls w) true None (balance w) (Js.signature w)).
  split.
  - unfold Simple.airdrop. apply endsShowing_finally; [reflexivity|].
    match goal with
    | |- context [bind (await (fun n => Js.requestAirdrop env n key ?lamports) _) _ w0] =>
        destruct (Hairdrop (calls w0) key lamports) as [sig Hsig]
    end.
    erewrite bind_normal_run by (apply await_fulfilled; exact Hsig).
    apply endsShowing_after.
    match goal with
    | |- context [bind (await (fun n => confirmTransaction env n ?req) _) _ ?w1] =>
        destruct (Hconfirm (calls w1) req) as [failure Hfailure]
    end.
    erewrite bind_normal_run by (apply await_fulfilled; exact Hfailure).
    apply endsShowing_after. now apply balance_then_alert.
  - unfold RetryConfirm.airdrop. apply endsShowing_finally; [reflexivity|].
    match goal with
    | |- context [bind (await (fun n => Js.requestAirdrop env n key ?lamports) _) _ w0] =>
        destruct (Hairdrop (calls w0) key lamports) as [sig Hsig]
    end.
    erewrite bind_normal_run by (apply await_fulfilled; exact Hsig).
    apply endsShowing_after.
    match goal with
    | |- context [bind (await (fun n => confirmTransaction env n ?req) _) _ ?w1] =>
        destruct (Hconfirm (calls w1) req) as [failure Hfailure]
    end.
    erewrite bind_normal_run by (apply await_fulfilled; exact Hfailure).
    apply endsShowing_after. now apply balance_then_alert.
Qed.

(** ** The bounded retry, whatever the wallet and the node answer *)

Lemma plain_silent (evs : list Event) :
  forallb plain evs = true ->
  forallb silent evs = true /\ filter isTimer evs = [].
Proof.
  induction evs as [|ev evs IH]; cbn [forallb filter]; [now split|].
  unfold plain at 1. intros H. apply andb_true_iff in H. destruct H as [Hev Hevs].
  apply andb_true_iff in Hev. destruct Hev as [Hsilent Htimer].
  apply negb_true_iff in Htimer. destruct (IH Hevs) as [IHs IHt].
  now rewrite Hsilent, Htimer, IHs, IHt.
Qed.

Lemma AttemptEnd_after err (pre : list Event) (r : Run unit unit) :
  forallb plain pre = true ->
  AttemptEnd err r ->
  AttemptEnd err (mkRun (completion r) (world r) (pre ++ events r)).
Proof.
  intros Hpre [evs text Hc Herr Hevs Htext Hplain | e Hc Herr Hplain].
  - apply Attempt_sent with (evs := (pre ++ evs)%list) (text := text);
      cbn [completion world events]; try assumption.
    + now rewrite Hevs, app_assoc.
    + now rewrite forallb_app, Hpre, Hplain.
  - apply Attempt_thrown with (e := e); cbn [completion world events]; try assumption.
    now rewrite forallb_app, Hpre, Hplain.
Qed.

Lemma attempt_ends env key to toPublicKey amount w :
  AttemptEnd (error w) (BoundedRetry.attempt env key to toPublicKey amount w).
Proof.
  unfold BoundedRetry.attempt.
  destruct (settled (getLatestBlockhashAndContext env (calls w))) as [ctx|e0] eqn:Hctx.
  - erewrite bind_normal_run by (apply await_fulfilled; exact Hctx).
    apply AttemptEnd_after; [reflexivity|]. cbv zeta.
    destruct (transferThrows env key toPublicKey (JsNumber.solToLamports amount))
      as [thrown|] eqn:Hbuilt;
      [ rewrite (transfer_thrown _ _ _ _ _ _ _ Hbuilt);
        now apply Attempt_thrown with (e := thrown)
      | rewrite (transfer_accepted _ _ _ _ _ _ Hbuilt) ].
    match goal with
    | |- context [bind (await (fun n => sendTransaction env n ?tx ?slot) _) _ ?w1] =>
        destruct (settled (sendTransaction env (calls w1) tx slot)) as [sig|e1] eqn:Hsend
    end.
    + erewrite bind_normal_run by (apply await_fulfilled; exact Hsend).
      apply AttemptEnd_after; [reflexivity|]. cbv zeta.
      match goal with
      | |- context [bind (await (fun n => confirmTransaction env n ?req) _) _ ?w2] =>
          destruct (settled (confirmTransaction env (calls w2) req))
            as [confirmation|e2] eqn:Hconfirm
      end.
      * erewrite bind_normal_run by (apply await_fulfilled; exact Hconfirm).
        apply AttemptEnd_after; [reflexivity|].
        destruct confirmation as [failure|].
        -- now apply Attempt_thrown with (e := Error "Transaction confirmation failed").
        -- now apply Attempt_sent with (evs := [])
             (text := [Lit "✅ Sent "; Num amount; Lit " SOL to "; Lit to]).
      * erewrite bind_throw_run by (apply await_rejected; exact Hconfirm).
        now apply Attempt_thrown with (e := e2).
    + erewrite bind_throw_run by (apply await_rejected; exact Hsend).
      now apply Attempt_thrown with (e := e1).
  - erewrite bind_throw_run by (apply await_rejected; exact Hctx).
    now apply Attempt_thrown with (e := e0).
Qed.

Lemma attempts_end env key to toPublicKey amount retries : forall w,
  LoopEnd (error w) retries (BoundedRetry.attempts env retries key to toPublicKey amount w).
Proof.
  induction retries as [|retries IH]; intros w.
  - now apply Loop_exhausted.
  - pose proof (attempt_ends env key to toPublicKey amount w) as Hattempt.
    destruct (BoundedRetry.attempt env key to toPublicKey amount w) as [c wa eva] eqn:Hrun.
    destruct Hattempt as [evs text Hc Herr Hevs Htext Hplain | e Hc Herr Hplain];
      cbn [completion world events] in *; subst c.
    + cbn [BoundedRetry.attempts]. unfold bind.
      erewrite tryCatch_returned by exact Hrun. unfold andThen. cbn [completion world events].
      apply Loop_sent with (evs := evs) (text := text); cbn [completion world events];
        try assumption; try reflexivity.
      now apply plain_silent.
    + destruct (plain_silent eva Hplain) as [Hsilent Htimers].
      destruct (JsString.includes (message e) "Blockhash") eqn:Hmsg.
      * rewrite (attempts_retry env key to toPublicKey amount retries w e wa eva Hrun Hmsg).
        cbv zeta.
        match goal with
        | |- context [BoundedRetry.attempts env retries key to toPublicKey amount ?w'] =>
            specialize (IH w');
            destruct (BoundedRetry.attempts env retries key to toPublicKey amount w')
              as [c wr evr]
        end.
        cbn [completion world events elapse error] in *.
        destruct IH as [evs text Hc Herr' Hevs Htext Hquiet | e' Hc Hother Hquiet
                       | Hc Herr' Hquiet Hcount]; cbn [completion world events] in *.
        -- apply Loop_sent with (evs := (eva ++ Timer (now wa) 1000 :: evs)%list) (text := text);
             cbn [completion world events]; try assumption.
           ++ congruence.
           ++ rewrite Hevs, <- app_assoc. reflexivity.
           ++ rewrite forallb_app, Hsilent. cbn. exact Hquiet.
        -- apply Loop_thrown with (e := e'); cbn [completion world events]; try assumption.
           rewrite forallb_app, Hsilent. cbn. exact Hquiet.
        -- apply Loop_exhausted; cbn [completion world events]; try assumption.
           ++ congruence.
           ++ rewrite forallb_app, Hsilent. cbn. exact Hquiet.
           ++ rewrite filter_app, Htimers. cbn. now rewrite Hcount.
      * cbn [BoundedRetry.attempts]. unfold bind.
        erewrite tryCatch_caught by exact Hrun. rewrite Hmsg.
        cbn [andb throw completion world events]. unfold andThen. cbn [completion world events].
        apply Loop_thrown with (e := e); cbn [completion world events];
          try assumption; try reflexivity.
        now rewrite app_nil_r.
Qed.

Lemma bounded_handleSend_accepted env publicKey to amountInput w :
  promptedSendAccepted env publicKey to amountInput = true ->
  exists key to' toPublicKey,
    BoundedRetry.handleSend env publicKey to amountInput w =
    callAsync tt (BoundedRetry.submit env key to' toPublicKey (parseFloat env amountInput))
      (mkWorld (now w) (calls w) true None (balance w) (Js.signature w)).
Proof.
  unfold promptedSendAccepted, BoundedRetry.handleSend. intros Haccepted.
  destruct publicKey as [key|]; [|discriminate].
  destruct to as [to'|]; [|discriminate]. cbn [falsy connected andb negb] in *.
  destruct (String.eqb to' "") eqn:Hto; [discriminate|].
  destruct (newPublicKey env to') as [toPublicKey|] eqn:Hkey; [|discriminate].
  cbn [connected andb negb] in Haccepted.
  destruct (notPositive (parseFloat env amountInput)) eqn:Hamount; [discriminate|].
  exists key, to', toPublicKey. cbv zeta.
  now rewrite !callAsync_reject_not, callAsync_prologue.
Qed.

(** X11.  In the bounded-retry iteration, a [handleSend] that got past
    its guards returns in one of three ways, whatever the wallet and the
    node answer: the '✅ Sent' alert is the last event and no error is
    set; or an error whose message does not include 'Blockhash' is set
    (as [describe e]), logged and shown in the '❌ Failed' alert; or
    nothing at all is reported and no error is set, after exactly three
    waits of a second.  So an error whose message includes 'Blockhash' is
    never shown. *)
Theorem bounded_retry_is_silent_only_when_exhausted
  (env : Oracle) (publicKey to amountInput : option string) (w : World) :
  promptedSendAccepted env publicKey to amountInput = true ->
  let r := BoundedRetry.handleSend env publicKey to amountInput w in
  completion r = Normal tt /\
  loading (world r) = false /\
  ((error (world r) = None /\
    exists evs text,
      events r = (evs ++ [Alert text])%list /\
      hd (Lit "") text = Lit "✅ Sent " /\
      forallb silent evs = true)
   \/
   (exists e evs,
      JsString.includes (message e) "Blockhash" = false /\
      error (world r) = Some (BoundedRetry.describe e) /\
      events r = (evs ++ [ConsoleError e;
                          Alert [Lit "❌ Failed: "; Lit (BoundedRetry.describe e)]])%list /\
      forallb silent evs = true)
   \/
   (error (world r) = None /\
    forallb silent (events r) = true /\
    List.length (filter isTimer (events r)) = 3%nat)).
Proof.
  intros Haccepted. cbv zeta.
  destruct (bounded_handleSend_accepted env publicKey to amountInput w Haccepted)
    as (key & to' & toPublicKey & ->).
  set (w0 := mkWorld (now w) (calls w) true None (balance w) (Js.signature w)).
  pose proof (attempts_end env key to' toPublicKey (parseFloat env amountInput) 3 w0) as Hloop.
  unfold BoundedRetry.submit, callAsync, tryCatchFinally, tryCatch, finally_.
  destruct (BoundedRetry.attempts env 3 key to' toPublicKey (parseFloat env amountInput) w0)
    as [c wl evl].
  destruct Hloop as [evs text Hc Herr Hevs Htext Hquiet | e Hc Hother Hquiet
                    | Hc Herr Hquiet Hcount]; cbn [completion world events] in *; subst c.
  - cbn [completion world events setLoading loading error].
    split; [reflexivity|]. split; [reflexivity|]. left. split; [exact Herr|].
    exists evs, text. rewrite ?app_nil_r. now repeat split.
  - cbn [completion world events setLoading setError consoleError alert emit bind andThen
         loading error app].
    split; [reflexivity|]. split; [reflexivity|]. right. left.
    exists e, evl. rewrite ?app_nil_r. now repeat split.
  - cbn [completion world events setLoading loading error].
    split; [reflexivity|]. split; [reflexivity|]. right. right.
    rewrite ?app_nil_r. now repeat split.
Qed.

(** ** The bounded retry sends again what was sent *)

Section SentAgain.

Variable env : Oracle.
Variables key to toPublicKey : string.
Variable amount : float.

Hypothesis context_arrives :
  forall n, exists context,
    settled (getLatestBlockhashAndContext env n) = Fulfilled context.

Hypothesis transfer_built :
  transferThrows env key toPublicKey (JsNumber.solToLamports amount) = None.

Hypothesis always_sent :
  forall n tx slot, exists sig,
    settled (sendTransaction env n tx slot) = Fulfilled sig.

Hypothesis never_confirmed :
  forall n req, exists e,
    settled (confirmTransaction env n req) = Rejected e /\
    JsString.includes (message e) "Blockhash" = true.

(** An attempt whose transaction is sent and whose confirmation is refused
    with a blockhash error. *)
Lemma attempt_unconfirmed w :
  exists e w1 evs,
    JsString.includes (message e) "Blockhash" = true /\
    BoundedRetry.attempt env key to toPublicKey amount w = mkRun (Throw e) w1 evs /\
    error w1 = error w /\
    forallb silent evs = true /\
    List.length (filter isSentTransaction evs) = 1%nat /\
    List.length (filter isNetworkCall evs) = 3%nat.
Proof.
  destruct (context_arrives (calls w)) as [context Hcontext].
  unfold BoundedRetry.attempt.
  erewrite bind_normal_run by (apply await_fulfilled; exact Hcontext).
  cbv zeta. rewrite (transfer_accepted _ _ _ _ _ _ transfer_built).
  match goal with
  | |- context [bind (await (fun n => sendTransaction env n ?tx ?slot) _) _ ?w1] =>
      destruct (always_sent (calls w1) tx slot) as [sig Hsig]
  end.
  erewrite bind_normal_run by (apply await_fulfilled; exact Hsig).
  cbn [completion world events].
  match goal with
  | |- context [bind (await (fun n => confirmTransaction env n ?req) _) _ ?w2] =>
      destruct (never_confirmed (calls w2) req) as [e [He Hmsg]]
  end.
  erewrite bind_throw_run by (apply await_rejected; exact He).
  cbn [completion world events app].
  exists e. do 2 eexists. split; [exact Hmsg|]. split; [reflexivity|].
  repeat split.
Qed.

Lemma attempts_unconfirmed retries : forall w,
  let r := BoundedRetry.attempts env retries key to toPublicKey amount w in
  completion r = Normal tt /\
  error (world r) = error w /\
  forallb silent (events r) = true /\
  List.length (filter isSentTransaction (events r)) = retries /\
  List.length (filter isNetworkCall (events r)) = (3 * retries)%nat.
Proof.
  induction retries as [|retries IH]; intros w; [now cbn|].
  destruct (attempt_unconfirmed w)
    as (e & w1 & evs & Hmsg & Hattempt & Hsame & Hsilent & Hone & Hthree).
  cbv zeta. rewrite (attempts_retry env key to toPublicKey amount retries w e _ _ Hattempt Hmsg).
  cbv zeta.
  match goal with
  | |- context [BoundedRetry.attempts env retries key to toPublicKey amount ?w'] =>
      specialize (IH w'); cbv zeta in IH;
      destruct IH as (Hc & Herr & Hquiet & Hsent & Hcalls)
  end.
  cbn [completion world events].
  rewrite forallb_app, !filter_app, !length_app.
  cbn [forallb filter isNetworkCall isSentTransaction silent isReport negb andb].
  rewrite Hc, Herr, Hsilent, Hquiet, Hone, Hsent, Hthree, Hcalls.
  repeat split; [exact Hsame | lia].
Qed.

End SentAgain.

(** X20.  In the bounded-retry iteration every retry builds and sends a
    new transaction.  So when [SystemProgram.transfer] builds the
    instruction for the lamports of the amount, the wallet sends each
    transaction and every confirmation is refused with an error whose
    message includes 'Blockhash', a [handleSend] that got past its guards
    has three transactions signed and sent, makes nine calls, and returns
    without an alert, a [console.error] or an error set. *)
Theorem an_unconfirmed_transfer_is_sent_three_times
  (env : Oracle) (publicKey to amountInput : option string) (w : World) :
  promptedSendAccepted env publicKey to amountInput = true ->
  (forall fromPubkey toPubkey,
     transferThrows env fromPubkey toPubkey
       (JsNumber.solToLamports (parseFloat env amountInput)) = None) ->
  (forall n, exists context,
     settled (getLatestBlockhashAndContext env n) = Fulfilled context) ->
  (forall n tx slot, exists sig,
     settled (sendTransaction env n tx slot) = Fulfilled sig) ->
  (forall n req, exists e,
     settled (confirmTransaction env n req) = Rejected e /\
     JsString.includes (message e) "Blockhash" = true) ->
  let r := BoundedRetry.handleSend env publicKey to amountInput w in
  completion r = Normal tt /\
  loading (world r) = false /\
  error (world r) = None /\
  forallb silent (events r) = true /\
  List.length (filter isSentTransaction (events r)) = 3%nat /\
  List.length (filter isNetworkCall (events r)) = 9%nat.
Proof.
  intros Haccepted Hbuilt Hcontext Hsent Hnever. cbv zeta.
  destruct (bounded_handleSend_accepted env publicKey to amountInput w Haccepted)
    as (key & to' & toPublicKey & ->).
  set (w0 := mkWorld (now w) (calls w) true None (balance w) (Js.signature w)).
  pose proof (attempts_unconfirmed env key to' toPublicKey (parseFloat env amountInput)
                Hcontext (Hbuilt key toPublicKey) Hsent Hnever 3 w0) as Hrun.
  cbv zeta in Hrun.
  unfold BoundedRetry.submit, tryCatchFinally, tryCatch, finally_, callAsync.
  destruct (BoundedRetry.attempts env 3 key to' toPublicKey (parseFloat env amountInput) w0)
    as [c3 w3 evs3].
  cbn [completion world events] in Hrun.
  destruct Hrun as (-> & Herr & Hquiet & Hthree & Hcalls).
  cbn [completion world events setLoading loading error]. rewrite app_nil_r.
  repeat split; assumption.
Qed.

(** ** Whose money goes where *)

Lemma Emits_reject_now {A : Type} (P : Event -> Prop) (text : string)
  (k : unit -> M unit A) :
  P (Alert [Lit text]) -> Emits P (bind (rejectWhen true text) k).
Proof. intros H w. rewrite reject_now. now repeat constructor. Qed.

Lemma Emits_bind_ret {R A B : Type} (P : Event -> Prop) (a : A) (k : A -> M R B) :
  Emits P (k a) -> Emits P (bind (ret a) k).
Proof.
  intros H w. erewrite bind_normal_run by reflexivity. cbn [events app]. apply H.
Qed.

Lemma Emits_bind_throw {R A B : Type} (P : Event -> Prop) (e : JsError) (k : A -> M R B) :
  Emits P (bind (throw e) k).
Proof. intros w. erewrite bind_throw_run by reflexivity. constructor. Qed.

(** The confirmation helper emits whatever holds of everything but a
    transaction handed to the wallet. *)
Lemma helper_emits {R : Type} (P : Event -> Prop) env fuel signature lease timeout
  retryInterval :
  (forall ev, isSend ev = false -> P ev) ->
  Emits P (RetryConfirm.confirmTransactionWithRetry (R := R) env fuel signature lease
             timeout retryInterval).
Proof.
  intros HP w.
  destruct (helper_runs env R signature timeout retryInterval fuel lease w)
    as (r0 & Hruns & _ & Hevents & _ & _).
  rewrite Hevents.
  pose proof (Polling_no_send _ _ _ _ _ _ _ _ Hruns) as Hnone.
  revert Hnone. generalize (events r0).
  induction l as [|ev evs IH]; intros Hnone; constructor;
    cbn [existsb] in Hnone; apply orb_false_iff in Hnone; destruct Hnone as [Hev Hevs].
  - now apply HP.
  - now apply IH.
Qed.

Lemma fromWalletTo_others publicKey recipient ev :
  isSend ev = false -> fromWalletTo publicKey recipient ev.
Proof. destruct ev; cbn; intros H; try exact I. discriminate. Qed.

(** Statements whose transactions are as [fromWalletTo] wants them. *)
Ltac transfers :=
  repeat first
    [ progress cbv beta zeta
    | match goal with
      | |- Emits _ (bind (rejectWhen true _) _) => apply Emits_reject_now; exact I
      | |- Emits _ (bind (ret _) _) => apply Emits_bind_ret
      | |- Emits _ (bind (throw _) _) => apply Emits_bind_throw
      | |- Emits _ (bind _ _) => apply Emits_bind; [|intros ?]
      | |- Emits _ (tryCatchFinally _ _ _) => apply Emits_tryCatchFinally; [|intros ?|]
      | |- Emits _ (tryCatch _ _) => apply Emits_tryCatch; [|intros ?]
      | |- Emits _ (callAsync _ _) => apply Emits_callAsync
      | |- Emits _ (RetryConfirm.confirmTransactionWithRetry _ _ _ _ _ _) =>
          apply helper_emits; apply fromWalletTo_others
      | |- Emits _ (await _ _) =>
          apply Emits_await; intros ? ?;
          first [exact I | cbn; repeat split; discriminate]
      | |- Emits _ (sleep _ _) => apply Emits_sleep; intros ?; exact I
      | |- Emits _ (systemTransfer _ _ _ _) => apply Emits_systemTransfer
      | |- Emits _ (emit _) => apply Emits_emit; exact I
      | |- Emits _ (alert _) => apply Emits_emit; exact I
      | |- Emits _ (consoleLog _) => apply Emits_emit; exact I
      | |- Emits _ (consoleError _) => apply Emits_emit; exact I
      | |- Emits _ (rejectWhen ?c _) => destruct c; unfold rejectWhen
      | |- Emits _ (if ?c then _ else _) => destruct c
      | |- Emits _ (match ?x with _ => _ end) => destruct x
      | |- Emits _ _ => intros ?; constructor
      end ].

Lemma attempts_transfer env key to toPublicKey amount retries :
  Emits (fromWalletTo (Some key) (Some toPublicKey))
    (BoundedRetry.attempts env retries key to toPublicKey amount).
Proof.
  induction retries as [|retries IH]; cbn [BoundedRetry.attempts]; [transfers|].
  apply Emits_bind; [|intros _; exact IH].
  unfold BoundedRetry.attempt. transfers.
Qed.

(** X12.  Every transaction a [handleSend] hands to the wallet has the
    connected wallet as fee payer and as source, the key that
    [new PublicKey] made of the recipient typed as destination, and a
    recent blockhash; in all three iterations. *)
Theorem transfers_go_from_the_wallet_to_the_recipient
  (env : Oracle) (publicKey to amountInput : option string) (fuel : nat)
  (toAddress sendAmount : string) :
  let typed := match to with Some s => s | None => "" end in
  Emits (fromWalletTo publicKey (newPublicKey env typed))
    (Simple.handleSend env publicKey to amountInput) /\
  Emits (fromWalletTo publicKey (newPublicKey env typed))
    (BoundedRetry.handleSend env publicKey to amountInput) /\
  Emits (fromWalletTo publicKey (newPublicKey env toAddress))
    (RetryConfirm.handleSend env publicKey fuel toAddress sendAmount).
Proof.
  cbv zeta. split; [|split].
  - unfold Simple.handleSend, Simple.submit. apply Emits_callAsync.
    destruct publicKey as [key|]; [|transfers].
    apply Emits_bind; [transfers|intros _]. cbv zeta.
    destruct (newPublicKey env match to with Some s => s | None => "" end) as [toKey|];
      transfers.
  - unfold BoundedRetry.handleSend, BoundedRetry.submit. apply Emits_callAsync.
    destruct publicKey as [key|]; [|transfers].
    apply Emits_bind; [transfers|intros _]. cbv zeta.
    destruct (newPublicKey env match to with Some s => s | None => "" end) as [toPublicKey|];
      [|transfers].
    apply Emits_bind; [transfers|intros _].
    apply Emits_bind; [transfers|intros _].
    apply Emits_bind; [transfers|intros _].
    apply Emits_tryCatchFinally; [apply attempts_transfer | intros e; transfers | transfers].
  - unfold RetryConfirm.handleSend, RetryConfirm.submit. apply Emits_callAsync.
    destruct publicKey as [key|]; [|transfers]. cbv zeta.
    apply Emits_bind; [transfers|intros _].
    destruct (newPublicKey env toAddress) as [toPubkey|]; transfers.
Qed.

(** ** Signing a message *)

Lemma handleSignMessage_accepted env publicKey message w :
  signAccepted env publicKey message = true ->
  Signer.handleSignMessage env publicKey message w =
  callAsync tt (Signer.sign env message)
    (mkWorld (now w) (calls w) true None (balance w) (Js.signature w)) /\
  RetryConfirm.handleSignMessage env publicKey message w =
  callAsync tt (RetryConfirm.sign env message)
    (mkWorld (now w) (calls w) true None (balance w) (Js.signature w)).
Proof.
  unfold signAccepted, Signer.handleSignMessage, RetryConfirm.handleSignMessage.
  intros Haccepted. destruct publicKey as [key|]; [|discriminate].
  cbn [connected andb] in Haccepted. apply negb_true_iff in Haccepted.
  rewrite Haccepted. now rewrite !callAsync_reject_not, !callAsync_prologue.
Qed.

(** X13.  [handleSignMessage], past its guards, asks the wallet once, for
    the bytes of the message as typed (the trimmed text only serves the
    guard).  When the wallet signs, the signature shown is the hex of the
    bytes returned and no error is set; when it refuses, the error is set
    ('Failed to sign message', or 'Signing failed: ' and the message), the
    refusal is logged, and the signature shown before stays. *)
Theorem a_failed_signing_keeps_the_old_signature
  (env : Oracle) (publicKey : option string) (message : string) (w : World) :
  signAccepted env publicKey message = true ->
  let asked := CallSignMessage (now w) (encode env message) in
  let first := Signer.handleSignMessage env publicKey message w in
  let last := RetryConfirm.handleSignMessage env publicKey message w in
  completion first = Normal tt /\ completion last = Normal tt /\
  loading (world first) = false /\ loading (world last) = false /\
  match settled (signMessage env (calls w) (encode env message)) with
  | Fulfilled sig =>
      Js.signature (world first) = Hex.manualHex sig /\
      Js.signature (world last) = Hex.bufferHex sig /\
      error (world first) = None /\ error (world last) = None /\
      events first = [asked (Fulfilled sig)] /\ events last = [asked (Fulfilled sig)]
  | Rejected e =>
      Js.signature (world first) = Js.signature w /\
      Js.signature (world last) = Js.signature w /\
      error (world first) = Some "Failed to sign message" /\
      error (world last) = Some ("Signing failed: " ++ Js.message e) /\
      events first = [asked (Rejected e); ConsoleError e] /\
      events last = [asked (Rejected e); ConsoleError e]
  end.
Proof.
  intros Haccepted. cbv zeta.
  destruct (handleSignMessage_accepted env publicKey message w Haccepted) as [-> ->].
  set (w0 := mkWorld (now w) (calls w) true None (balance w) (Js.signature w)).
  unfold Signer.sign, RetryConfirm.sign, callAsync, tryCatchFinally, tryCatch. cbv zeta.
  change (calls w) with (calls w0).
  destruct (settled (signMessage env (calls w0) (encode env message))) as [sig|e] eqn:Hreply.
  - erewrite !bind_normal_run by (apply await_fulfilled; exact Hreply).
    cbn. repeat split.
  - erewrite !bind_throw_run by (apply await_rejected; exact Hreply).
    cbn. repeat split.
Qed.

(** ** The hex encoding loses nothing *)

Lemma manualHex_cons (b : byte) (rest : list byte) :
  Hex.manualHex (b :: rest) = Hex.hexSliceLookup b ++ Hex.manualHex rest.
Proof.
  unfold Hex.manualHex. cbn [map]. now rewrite join_empty_cons, byteToHex_table.
Qed.

(** The two digits of a table entry are worth its byte. *)
Lemma entry_digits (b : byte) :
  let n := N.to_nat (Byte.to_N b) in
  exists h l,
    hexValue (nth (n / 16) Hex.alphabet "0"%char) = Some h /\
    hexValue (nth (n mod 16) Hex.alphabet "0"%char) = Some l /\
    Byte.of_N (16 * h + l) = Some b.
Proof. destruct b; do 2 eexists; (split; [|split]); reflexivity. Qed.

Lemma parseHex_entry (b : byte) (rest : string) :
  parseHex (Hex.hexSliceLookup b ++ rest) =
  option_map (fun bytes => b :: bytes) (parseHex rest).
Proof.
  destruct (entry_digits b) as (h & l & Hh & Hl & Hb). cbv zeta in Hh, Hl.
  unfold Hex.hexSliceLookup. cbn [append parseHex]. rewrite Hh, Hl, Hb.
  now destruct (parseHex rest).
Qed.

Lemma parseHex_manualHex (sig : list byte) : parseHex (Hex.manualHex sig) = Some sig.
Proof.
  induction sig as [|b rest IH]; [reflexivity|].
  now rewrite manualHex_cons, parseHex_entry, IH.
Qed.

Lemma manualHex_length (sig : list byte) :
  String.length (Hex.manualHex sig) = (2 * List.length sig)%nat.
Proof.
  induction sig as [|b rest IH]; [reflexivity|].
  rewrite manualHex_cons. unfold Hex.hexSliceLookup. cbn [append String.length List.length].
  rewrite IH. lia.
Qed.

(** X14.  The hex string shown for a signature has two digits for every
    byte and determines the bytes: two byte arrays with the same hex string
    are the same array. *)
Theorem signatures_are_told_apart_by_their_hex (a b : list byte) :
  Hex.manualHex a = Hex.manualHex b ->
  a = b /\ String.length (Hex.manualHex a) = (2 * List.length a)%nat.
Proof.
  intros Hsame. split; [|apply manualHex_length].
  pose proof (parseHex_manualHex a) as Ha. rewrite Hsame, parseHex_manualHex in Ha.
  now injection Ha.
Qed.

(** ** The first iteration always ends with an alert *)

Lemma FirstBlock_after err (pre : list Event) (r : Run unit unit) :
  forallb silent pre = true ->
  FirstBlock err r ->
  FirstBlock err (mkRun (completion r) (world r) (pre ++ events r)).
Proof.
  intros Hpre [evs text Hc Herr Hevs Htext Hquiet | e Hc Hquiet].
  - apply First_done with (evs := (pre ++ evs)%list) (text := text);
      cbn [completion world events]; try assumption.
    + now rewrite Hevs, app_assoc.
    + now rewrite forallb_app, Hpre, Hquiet.
  - apply First_thrown with (e := e); cbn [completion world events]; try assumption.
    now rewrite forallb_app, Hpre, Hquiet.
Qed.

Lemma simple_block_ends env key to toKey amount w :
  newPublicKey env to = Some toKey ->
  match Simple.submit env key to amount w with
  | r =>
      completion r = Normal tt /\ loading (world r) = false /\
      ((error (world r) = error w /\
        exists evs text,
          events r = (evs ++ [Alert text])%list /\
          hd (Lit "") text = Lit "Successfully sent " /\
          forallb silent evs = true)
       \/
       (error (world r) = Some "Transaction failed" /\
        exists e evs,
          events r = (evs ++ [ConsoleError e;
                              Alert [Lit "Transaction failed. Please try again."]])%list /\
          forallb silent evs = true))
  end.
Proof.
  intros Hkey. unfold Simple.submit.
  match goal with
  | |- context [tryCatchFinally ?b _ _ w] => assert (Hblock : FirstBlock (error w) (b w))
  end.
  { rewrite Hkey. erewrite bind_normal_run by reflexivity.
    apply (FirstBlock_after _ []); [reflexivity|].
    destruct (transferThrows env key toKey (JsNumber.solToLamports amount))
      as [thrown|] eqn:Hbuilt;
      [ rewrite (transfer_thrown _ _ _ _ _ _ _ Hbuilt);
        now apply First_thrown with (e := thrown)
      | rewrite (transfer_accepted _ _ _ _ _ _ Hbuilt) ].
    destruct (settled (getRecentBlockhash env (calls w))) as [recent|e0] eqn:Hrecent.
    - erewrite bind_normal_run by (apply await_fulfilled; exact Hrecent).
      apply FirstBlock_after; [reflexivity|]. cbv zeta.
      match goal with
      | |- context [bind (await (fun n => sendTransaction env n ?tx None) _) _ ?w1] =>
          destruct (settled (sendTransaction env (calls w1) tx None)) as [sig|e1] eqn:Hsend
      end.
      + erewrite bind_normal_run by (apply await_fulfilled; exact Hsend).
        apply FirstBlock_after; [reflexivity|].
        match goal with
        | |- context [bind (await (fun n => confirmTransaction env n ?req) _) _ ?w2] =>
            destruct (settled (confirmTransaction env (calls w2) req))
              as [confirmation|e2] eqn:Hconfirm
        end.
        * erewrite bind_normal_run by (apply await_fulfilled; exact Hconfirm).
          apply FirstBlock_after; [reflexivity|].
          now apply First_done with (evs := [])
            (text := [Lit "Successfully sent "; Num amount; Lit " SOL to "; Lit to]).
        * erewrite bind_throw_run by (apply await_rejected; exact Hconfirm).
          now apply First_thrown with (e := e2).
      + erewrite bind_throw_run by (apply await_rejected; exact Hsend).
        now apply First_thrown with (e := e1).
    - erewrite bind_throw_run by (apply await_rejected; exact Hrecent).
      now apply First_thrown with (e := e0). }
  unfold tryCatchFinally, tryCatch, finally_.
  match goal with
  | Hb : FirstBlock _ (?b w) |- _ => destruct (b w) as [c wb evb]
  end.
  destruct Hblock as [evs text Hc Herr Hevs Htext Hquiet | e Hc Hquiet];
    cbn [completion world events] in *; subst c.
  - cbn [completion world events setLoading loading error].
    split; [reflexivity|]. split; [reflexivity|]. left. split; [exact Herr|].
    exists evs, text. rewrite app_nil_r. now repeat split.
  - cbn [completion world events setLoading setError consoleError alert emit bind andThen
         loading error app].
    split; [reflexivity|]. split; [reflexivity|]. right. split; [reflexivity|].
    exists e, evb. rewrite ?app_nil_r. now split.
Qed.

(** X15.  [handleSend] of [src/App.jsx], past its guards, always returns
    with an alert as its last event: either 'Successfully sent ...', with
    no error set and nothing logged; or 'Transaction failed. Please try
    again.' right after the [console.error] of the error caught, with the
    error 'Transaction failed', whatever the error was. *)
Theorem the_first_send_always_ends_with_an_alert
  (env : Oracle) (publicKey to amountInput : option string) (w : World) :
  promptedSendAccepted env publicKey to amountInput = true ->
  let r := Simple.handleSend env publicKey to amountInput w in
  completion r = Normal tt /\
  loading (world r) = false /\
  ((error (world r) = None /\
    exists evs text,
      events r = (evs ++ [Alert text])%list /\
      hd (Lit "") text = Lit "Successfully sent " /\
      forallb silent evs = true)
   \/
   (error (world r) = Some "Transaction failed" /\
    exists e evs,
      events r = (evs ++ [ConsoleError e;
                          Alert [Lit "Transaction failed. Please try again."]])%list /\
      forallb silent evs = true)).
Proof.
  intros Haccepted. cbv zeta.
  destruct (simple_handleSend_accepted env publicKey to amountInput w Haccepted)
    as (key & to' & toKey & _ & _ & Hkey & ->).
  set (w0 := mkWorld (now w) (calls w) true None (balance w) (Js.signature w)).
  pose proof (simple_block_ends env key to' toKey (parseFloat env amountInput) w0 Hkey)
    as Hends.
  unfold callAsync.
  destruct (Simple.submit env key to' (parseFloat env amountInput) w0) as [c ws evs].
  cbn [completion world events] in *. destruct Hends as (-> & Hloading & Hways).
  split; [reflexivity|]. split; [exact Hloading|]. exact Hways.
Qed.

(** ** Airdrops and messages that the guards turn away *)

(** X16.  [requestAirdrop], in both iterations, turns away a request
    without a connected wallet or with an amount that is not a number or
    not positive: it returns with no call to the wallet or the node and
    with the state of the component as it was. *)
Theorem rejected_airdrops_touch_nothing
  (env : Oracle) (publicKey : option string) (amountInput : string) (w : World) :
  airdropAccepted env publicKey amountInput = false ->
  returnsUntouched w (Simple.requestAirdrop env publicKey amountInput w) /\
  returnsUntouched w (RetryConfirm.requestAirdrop env publicKey amountInput w).
Proof.
  unfold airdropAccepted, notPositive, Simple.requestAirdrop, RetryConfirm.requestAirdrop.
  intros Hrejected.
  destruct publicKey as [key|];
    [|split; eapply untouched_after_alert; reflexivity].
  cbn [connected andb] in Hrejected. apply negb_false_iff in Hrejected. cbv zeta.
  split.
  - destruct (JsNumber.isNaN (parseFloat env (Some amountInput))); [rejected|].
    cbn [orb] in Hrejected. rewrite Hrejected. rejected.
  - unfold notPositive. rewrite Hrejected. rejected.
Qed.

(** X17.  [handleSignMessage], in both iterations, turns away a request
    without a connected wallet or with a message that is blank once
    trimmed: the wallet is not asked to sign, and the state of the
    component stays as it was. *)
Theorem rejected_messages_touch_nothing
  (env : Oracle) (publicKey : option string) (message : string) (w : World) :
  signAccepted env publicKey message = false ->
  returnsUntouched w (Signer.handleSignMessage env publicKey message w) /\
  returnsUntouched w (RetryConfirm.handleSignMessage env publicKey message w).
Proof.
  unfold signAccepted, Signer.handleSignMessage, RetryConfirm.handleSignMessage.
  intros Hrejected.
  destruct publicKey as [key|]; [|split; rejected].
  cbn [connected andb] in Hrejected. apply negb_false_iff in Hrejected.
  rewrite Hrejected. split; rejected.
Qed.

(** ** Confirmations are asked for the signature just handed over *)

Lemma confirmsLatest_step latest (ev : Event) (rest : list Event) :
  aside ev -> confirmsLatest latest rest -> confirmsLatest latest (ev :: rest).
Proof.
  intros Hev Hrest. cbn [confirmsLatest]. unfold latestAfter.
  destruct ev; cbn [aside] in Hev; try contradiction; rewrite Hev; now split.
Qed.

Lemma confirmsLatest_aside latest (evs : list Event) :
  Forall aside evs -> confirmsLatest latest evs.
Proof.
  induction 1 as [|ev evs Hev _ IH]; [exact I | now apply confirmsLatest_step].
Qed.

Lemma confirmsLatest_then_aside latest (evs more : list Event) :
  confirmsLatest latest evs -> Forall aside more -> confirmsLatest latest (evs ++ more).
Proof.
  revert latest. induction evs as [|ev evs IH]; intros latest Hevs Hmore; cbn [app].
  - now apply confirmsLatest_aside.
  - cbn [confirmsLatest] in *. destruct Hevs as [Hev Hrest]. split; [exact Hev|].
    now apply IH.
Qed.

Lemma confirmsLatest_aside_then latest (evs more : list Event) :
  Forall aside evs -> confirmsLatest latest more -> confirmsLatest latest (evs ++ more).
Proof.
  induction 1 as [|ev evs Hev _ IH]; intros Hmore; cbn [app]; [exact Hmore|].
  apply confirmsLatest_step; [exact Hev | now apply IH].
Qed.

Lemma confirmsLatest_then_any latest (evs more : list Event) :
  confirmsLatest latest evs -> (forall l, confirmsLatest l more) ->
  confirmsLatest latest (evs ++ more).
Proof.
  revert latest. induction evs as [|ev evs IH]; intros latest Hevs Hmore; cbn [app].
  - apply Hmore.
  - cbn [confirmsLatest] in *. destruct Hevs as [Hev Hrest]. split; [exact Hev|].
    now apply IH.
Qed.

Section Confirming.

Context {R A B : Type}.
Variable latest : option string.

(** After a statement that stays aside. *)
Lemma Confirms_bind_aside (m : M R A) (k : A -> M R B) :
  Emits aside m -> (forall a, Confirms latest (k a)) -> Confirms latest (bind m k).
Proof.
  intros Hm Hk w. unfold bind, andThen. specialize (Hm w).
  destruct (completion (m w)) as [a| | |]; cbn [events];
    try now apply confirmsLatest_aside.
  apply confirmsLatest_aside_then; [exact Hm | apply Hk].
Qed.

(** Before a statement that asks rightly whatever was handed over. *)
Lemma Confirms_bind_any (m : M R A) (k : A -> M R B) :
  Confirms latest m -> (forall a l, Confirms l (k a)) -> Confirms latest (bind m k).
Proof.
  intros Hm Hk w. unfold bind, andThen. specialize (Hm w).
  destruct (completion (m w)) as [a| | |]; cbn [events]; try exact Hm.
  apply confirmsLatest_then_any; [exact Hm | intros l; apply Hk].
Qed.

Lemma Confirms_aside (m : M R A) : Emits aside m -> Confirms latest m.
Proof. intros Hm w. now apply confirmsLatest_aside. Qed.

Lemma Confirms_tryCatch (body : M R A) (handler : JsError -> M R A) :
  Confirms latest body -> (forall e, Emits aside (handler e)) ->
  Confirms latest (tryCatch body handler).
Proof.
  intros Hb Hh w. unfold tryCatch. specialize (Hb w).
  destruct (completion (body w)) as [a| |e|]; try exact Hb.
  cbn [events]. apply confirmsLatest_then_aside; [exact Hb | apply Hh].
Qed.

Lemma Confirms_tryCatchFinally (body : M R A) (handler : JsError -> M R A)
  (fin : M R unit) :
  Confirms latest body -> (forall e, Emits aside (handler e)) -> Emits aside fin ->
  Confirms latest (tryCatchFinally body handler fin).
Proof.
  intros Hb Hh Hf w. unfold tryCatchFinally, finally_.
  pose proof (Confirms_tryCatch body handler Hb Hh w) as Ht.
  specialize (Hf (world (tryCatch body handler w))).
  destruct (completion (tryCatch body handler w)); try exact Ht;
    cbn [events]; now apply confirmsLatest_then_aside.
Qed.

Lemma Confirms_callAsync (dflt : A) (body : M A B) :
  Confirms latest body -> Confirms latest (callAsync (R := R) dflt body).
Proof. intros Hb w. apply Hb. Qed.

End Confirming.

(** A signature is handed over, and the rest asks about it. *)
Lemma Confirms_bind_issued {R B : Type} latest (ask : nat -> Reply string)
  (record : Z -> Settled string -> Event) (k : string -> M R B) :
  (forall t e, aside (record t (Rejected e))) ->
  (forall t s, issued (record t (Fulfilled s)) = Some s) ->
  (forall s, Confirms (Some s) (k s)) ->
  Confirms latest (bind (await ask record) k).
Proof.
  intros Hrejected Hissued Hk w.
  destruct (settled (ask (calls w))) as [s|e] eqn:Hreply.
  - erewrite bind_normal_run by (apply await_fulfilled; exact Hreply).
    cbn [events app confirmsLatest]. unfold latestAfter. rewrite Hissued.
    split; [|apply Hk].
    specialize (Hissued (now w) s). destruct (record (now w) (Fulfilled s)); try exact I.
    discriminate.
  - erewrite bind_throw_run by (apply await_rejected; exact Hreply).
    apply confirmsLatest_aside. repeat constructor. apply Hrejected.
Qed.

(** The confirmation of the signature handed over last. *)
Lemma Confirms_bind_confirm {R B : Type} env (req : ConfirmRequest)
  (k : option string -> M R B) :
  (forall a, Confirms (Some (signatureOf req)) (k a)) ->
  Confirms (Some (signatureOf req))
    (bind (await (fun n => confirmTransaction env n req) (fun t => CallConfirm t req)) k).
Proof.
  intros Hk w.
  destruct (settled (confirmTransaction env (calls w) req)) as [a|e] eqn:Hreply.
  - erewrite bind_normal_run by (apply await_fulfilled; exact Hreply).
    cbn [events app confirmsLatest]. split; [reflexivity | apply Hk].
  - erewrite bind_throw_run by (apply await_rejected; exact Hreply).
    cbn [events confirmsLatest]. now repeat split.
Qed.

(** The confirmation loop asks about its own signature only. *)
Lemma Polling_confirms env signature timeout retryInterval startTime lease w r :
  Polling env signature timeout retryInterval startTime lease w r ->
  confirmsLatest (Some signature) (events r).
Proof. induction 1; cbn; auto. Qed.

Lemma helper_confirms {R : Type} env fuel signature lease timeout retryInterval :
  Confirms (Some signature)
    (RetryConfirm.confirmTransactionWithRetry (R := R) env fuel signature lease
       timeout retryInterval).
Proof.
  intros w.
  destruct (helper_runs env R signature timeout retryInterval fuel lease w)
    as (r0 & Hruns & _ & Hevents & _ & _).
  rewrite Hevents. exact (Polling_confirms _ _ _ _ _ _ _ _ Hruns).
Qed.

(** Statements that stay aside. *)
Ltac stays_aside :=
  repeat first
    [ progress cbv beta zeta
    | match goal with
      | |- Emits _ (bind _ _) => apply Emits_bind; [|intros ?]
      | |- Emits _ (tryCatchFinally _ _ _) => apply Emits_tryCatchFinally; [|intros ?|]
      | |- Emits _ (tryCatch _ _) => apply Emits_tryCatch; [|intros ?]
      | |- Emits _ (callAsync _ _) => apply Emits_callAsync
      | |- Emits _ (await _ _) => apply Emits_await; intros ? ?; reflexivity
      | |- Emits _ (sleep _ _) => apply Emits_sleep; intros ?; reflexivity
      | |- Emits _ (systemTransfer _ _ _ _) => apply Emits_systemTransfer
      | |- Emits _ (emit _) => apply Emits_emit; reflexivity
      | |- Emits _ (alert _) => apply Emits_emit; reflexivity
      | |- Emits _ (consoleLog _) => apply Emits_emit; reflexivity
      | |- Emits _ (consoleError _) => apply Emits_emit; reflexivity
      | |- Emits _ (rejectWhen ?c _) => destruct c; unfold rejectWhen
      | |- Emits _ (Simple.getBalance _ _) => unfold Simple.getBalance
      | |- Emits _ (if ?c then _ else _) => destruct c
      | |- Emits _ (match ?x with _ => _ end) => destruct x
      | |- Emits _ _ => intros ?; constructor
      end ].

(** Follows the signature through a statement. *)
Ltac confirms :=
  repeat first
    [ progress cbv beta zeta
    | match goal with
      | |- Confirms _ (callAsync _ _) => apply Confirms_callAsync
      | |- Confirms _ (tryCatchFinally _ _ _) =>
          apply Confirms_tryCatchFinally;
          [ | intros ?; solve [stays_aside] | solve [stays_aside] ]
      | |- Confirms _ (bind (await (fun n => confirmTransaction ?env n ?req) _) ?k) =>
          apply (Confirms_bind_confirm env req k); intros ?
      | |- Confirms _ (bind (await (fun n => sendTransaction _ n _ _) _) _) =>
          apply Confirms_bind_issued;
          [ intros ? ?; reflexivity | intros ? ?; reflexivity | intros ? ]
      | |- Confirms _ (bind (await (fun n => Js.requestAirdrop _ n _ _) _) _) =>
          apply Confirms_bind_issued;
          [ intros ? ?; reflexivity | intros ? ?; reflexivity | intros ? ]
      | |- Confirms _ (bind (RetryConfirm.confirmTransactionWithRetry _ _ _ _ _ _) _) =>
          apply Confirms_bind_any;
          [ apply helper_confirms | intros ? ?; apply Confirms_aside; solve [stays_aside] ]
      | |- Confirms _ (bind _ _) =>
          apply Confirms_bind_aside; [solve [stays_aside] | intros ?]
      | |- Confirms _ (if ?c then _ else _) => destruct c
      | |- Confirms _ (match ?x with _ => _ end) => destruct x
      | |- Confirms _ _ => apply Confirms_aside; solve [stays_aside]
      end ].

Lemma attempts_confirm env key to toPublicKey amount retries : forall latest,
  Confirms latest (BoundedRetry.attempts env retries key to toPublicKey amount).
Proof.
  induction retries as [|retries IH]; intros latest; cbn [BoundedRetry.attempts].
  - confirms.
  - apply Confirms_bind_any; [|intros _ l; apply IH].
    apply Confirms_tryCatch; [|intros e; stays_aside].
    unfold BoundedRetry.attempt. confirms.
Qed.

(** X18.  Whenever a handler asks the node to confirm, it asks about the
    signature it was handed last in the same run: by [sendTransaction] in
    the three [handleSend] (in the bounded retry, by the latest attempt;
    in the last iteration, in every poll of the helper), by
    [requestAirdrop] in the airdrops.  No confirmation is asked before a
    signature was returned. *)
Theorem confirmations_are_asked_for_the_signature_just_returned
  (env : Oracle) (publicKey to amountInput : option string) (fuel : nat)
  (text other : string) :
  Confirms None (Simple.requestAirdrop env publicKey text) /\
  Confirms None (RetryConfirm.requestAirdrop env publicKey text) /\
  Confirms None (Simple.handleSend env publicKey to amountInput) /\
  Confirms None (BoundedRetry.handleSend env publicKey to amountInput) /\
  Confirms None (RetryConfirm.handleSend env publicKey fuel text other).
Proof.
  split; [|split; [|split; [|split]]].
  - unfold Simple.requestAirdrop, Simple.airdrop. confirms.
  - unfold RetryConfirm.requestAirdrop, RetryConfirm.airdrop. confirms.
  - unfold Simple.handleSend, Simple.submit. confirms.
  - unfold BoundedRetry.handleSend, BoundedRetry.submit.
    apply Confirms_callAsync. destruct publicKey as [key|]; [|confirms].
    apply Confirms_bind_aside; [stays_aside|intros _]. cbv zeta.
    destruct (newPublicKey env _) as [toPublicKey|]; [|confirms].
    apply Confirms_bind_aside; [stays_aside|intros _].
    apply Confirms_bind_aside; [stays_aside|intros _].
    apply Confirms_bind_aside; [stays_aside|intros _].
    apply Confirms_tryCatchFinally; [apply attempts_confirm | intros e; stays_aside | stays_aside].
  - unfold RetryConfirm.handleSend, RetryConfirm.submit. confirms.
Qed.

(** ** The error shown carries the logs *)








(** ** The further properties on the sample wallets and nodes *)

(** The two tests of the [catch] blocks on an instance of
    [SendTransactionError] whose name was left as 'Error', and on another
    error that bears the name. *)
Example the_class_and_the_name_are_told_apart :
  let instance := mkError "Error" "failed to send transaction"
                    (Some ["Program log: insufficient funds"]) true in
  let named := mkError "SendTransactionError" "failed to send transaction"
                 (Some ["Program log: insufficient funds"]) false in
  RetryConfirm.describe instance =
    JsString.join JsString.newline
      ["Error: failed to send transaction"; "Logs: Program log: insufficient funds"] /\
  BoundedRetry.describe instance = "failed to send transaction" /\
  RetryConfirm.describe named = "Transaction failed" /\
  BoundedRetry.describe named =
    JsString.join JsString.newline
      ["Transaction failed: failed to send transaction"; "Program log: insufficient funds"].
Proof. repeat split. Qed.

(** An amount of [Infinity] passes the guards; the library refuses its
    lamports once the blockhash is there, nothing is sent, and each
    iteration shows the error its own way. *)
Example an_infinite_amount_is_refused_by_the_library :
  let bounded := BoundedRetry.handleSend Demo.expiresOnce (Some Demo.key)
                   (Some Demo.recipient) (Some "Infinity") Demo.idle in
  let rounded := RetryConfirm.handleSend Demo.expiresOnce (Some Demo.key) 31
                   Demo.recipient "Infinity" Demo.idle in
  promptedSendAccepted Demo.expiresOnce (Some Demo.key) (Some Demo.recipient)
    (Some "Infinity") = true /\
  List.length (filter isNetworkCall (events bounded)) = 1%nat /\
  existsb isSend (events bounded) = false /\
  error (world bounded) = Some (message Demo.notWhole) /\
  List.last (events bounded) (Alert []) =
    Alert [Lit "❌ Failed: "; Lit (message Demo.notWhole)] /\
  List.length (filter isNetworkCall (events rounded)) = 1%nat /\
  existsb isSend (events rounded) = false /\
  error (world rounded) = Some "Transaction failed" /\
  List.last (events rounded) (Alert []) = ConsoleError Demo.notWhole.
Proof. vm_compute. repeat split. Qed.

Lemma polls_fit_the_time_budget_witness :
  let r := RetryConfirm.confirmTransactionWithRetry (R := unit) Demo.neverConfirms 31
             Demo.txSignature Demo.firstLease
             RetryConfirm.defaultTimeout RetryConfirm.defaultRetryInterval Demo.idle in
  let polls := List.length (filter isPoll (events r)) in
  Z.of_nat polls * RetryConfirm.defaultRetryInterval <
  Z.max 0 RetryConfirm.defaultTimeout + RetryConfirm.defaultRetryInterval /\
  (List.length (filter isNetworkCall (events r)) <= 2 * polls)%nat.
Proof.
  apply (polls_fit_the_time_budget Demo.neverConfirms unit Demo.txSignature
           RetryConfirm.defaultTimeout RetryConfirm.defaultRetryInterval 31
           Demo.firstLease Demo.idle).
  reflexivity.
Defined.

Lemma success_is_reported_only_when_confirmed_witness :
  let r := RetryConfirm.handleSend Demo.expiresOnce (Some Demo.key) 31 Demo.recipient "1.5"
             Demo.idle in
  completion r = Normal tt /\
  ((error (world r) = None /\
    exists evs sig,
      events r = (evs ++ [Alert [Lit "✅ Success! Transaction signature: "; Lit sig]])%list /\
      forallb silent evs = true /\
      existsb isConfirmedPoll evs = true)
   \/
   (exists e evs,
      error (world r) = Some (RetryConfirm.describe e) /\
      RetryConfirm.describe e <> "" /\
      events r = (evs ++ [ConsoleError e])%list /\
      forallb silent evs = true /\
      existsb isConfirmedPoll evs = false)).
Proof.
  apply (success_is_reported_only_when_confirmed Demo.expiresOnce (Some Demo.key) 31
           Demo.recipient "1.5" Demo.idle).
  - reflexivity.
  - apply le_n.
Defined.

Lemma first_send_takes_any_confirmation_for_success_witness :
  let r := Simple.handleSend Scenes.failsOnChain (Some Demo.key) (Some Demo.recipient)
             (Some "1.5") Demo.idle in
  completion r = Normal tt /\
  error (world r) = None /\
  loading (world r) = false /\
  exists evs t req failure text,
    events r = (evs ++ [CallConfirm t req (Fulfilled (Some failure)); Alert text])%list /\
    forallb silent evs = true /\
    hd (Lit "") text = Lit "Successfully sent ".
Proof.
  apply (first_send_takes_any_confirmation_for_success Scenes.failsOnChain
           (Some Demo.key) (Some Demo.recipient) (Some "1.5") Demo.idle).
  - reflexivity.
  - intros fromPubkey toPubkey. vm_compute. reflexivity.
  - intros n. eexists. reflexivity.
  - intros n tx slot. eexists. reflexivity.
  - intros n req. eexists. reflexivity.
Defined.

Lemma airdrop_takes_any_confirmation_for_success_witness :
  airdropShown "Successfully airdropped "
    (Simple.requestAirdrop Scenes.failsOnChain (Some Demo.key) "1.5" Demo.idle) /\
  airdropShown "✅ Airdropped "
    (RetryConfirm.requestAirdrop Scenes.failsOnChain (Some Demo.key) "1.5" Demo.idle).
Proof.
  apply (airdrop_takes_any_confirmation_for_success Scenes.failsOnChain (Some Demo.key)
           "1.5" Demo.idle).
  - reflexivity.
  - intros n key lamports. eexists. reflexivity.
  - intros n req. eexists. reflexivity.
Defined.

Lemma a_failed_signing_keeps_the_old_signature_witness :
  let asked := CallSignMessage (now Demo.idle) (list_byte_of_string "gm") in
  let first := Signer.handleSignMessage Demo.neverConfirms (Some Demo.key) "gm" Demo.idle in
  let last := RetryConfirm.handleSignMessage Demo.neverConfirms (Some Demo.key) "gm"
                Demo.idle in
  completion first = Normal tt /\ completion last = Normal tt /\
  loading (world first) = false /\ loading (world last) = false /\
  Js.signature (world first) = Hex.manualHex (list_byte_of_string "gm") /\
  Js.signature (world last) = Hex.bufferHex (list_byte_of_string "gm") /\
  error (world first) = None /\ error (world last) = None /\
  events first = [asked (Fulfilled (list_byte_of_string "gm"))] /\
  events last = [asked (Fulfilled (list_byte_of_string "gm"))].
Proof.
  apply (a_failed_signing_keeps_the_old_signature Demo.neverConfirms (Some Demo.key) "gm"
           Demo.idle).
  reflexivity.
Defined.

Lemma bounded_retry_is_silent_only_when_exhausted_witness :
  let r := BoundedRetry.handleSend Demo.brokeWallet (Some Demo.key) (Some Demo.recipient)
             (Some "1.5") Demo.idle in
  completion r = Normal tt /\
  loading (world r) = false /\
  ((error (world r) = None /\
    exists evs text,
      events r = (evs ++ [Alert text])%list /\
      hd (Lit "") text = Lit "✅ Sent " /\
      forallb silent evs = true)
   \/
   (exists e evs,
      JsString.includes (message e) "Blockhash" = false /\
      error (world r) = Some (BoundedRetry.describe e) /\
      events r = (evs ++ [ConsoleError e;
                          Alert [Lit "❌ Failed: "; Lit (BoundedRetry.describe e)]])%list /\
      forallb silent evs = true)
   \/
   (error (world r) = None /\
    forallb silent (events r) = true /\
    List.length (filter isTimer (events r)) = 3%nat)).
Proof.
  apply (bounded_retry_is_silent_only_when_exhausted Demo.brokeWallet (Some Demo.key)
           (Some Demo.recipient) (Some "1.5") Demo.idle).
  reflexivity.
Defined.

Lemma signatures_are_told_apart_by_their_hex_witness :
  [x07; xff; x10]%byte = [x07; xff; x10]%byte /\
  String.length (Hex.manualHex [x07; xff; x10]%byte) = (2 * 3)%nat.
Proof.
  apply (signatures_are_told_apart_by_their_hex [x07; xff; x10]%byte [x07; xff; x10]%byte).
  reflexivity.
Defined.

Lemma the_first_send_always_ends_with_an_alert_witness :
  let r := Simple.handleSend Demo.brokeWallet (Some Demo.key) (Some Demo.recipient)
             (Some "1.5") Demo.idle in
  completion r = Normal tt /\
  loading (world r) = false /\
  ((error (world r) = None /\
    exists evs text,
      events r = (evs ++ [Alert text])%list /\
      hd (Lit "") text = Lit "Successfully sent " /\
      forallb silent evs = true)
   \/
   (error (world r) = Some "Transaction failed" /\
    exists e evs,
      events r = (evs ++ [ConsoleError e;
                          Alert [Lit "Transaction failed. Please try again."]])%list /\
      forallb silent evs = true)).
Proof.
  apply (the_first_send_always_ends_with_an_alert Demo.brokeWallet (Some Demo.key)
           (Some Demo.recipient) (Some "1.5") Demo.idle).
  reflexivity.
Defined.

Lemma rejected_airdrops_touch_nothing_witness :
  returnsUntouched Demo.idle
    (Simple.requestAirdrop Demo.neverConfirms (Some Demo.key) "-2" Demo.idle) /\
  returnsUntouched Demo.idle
    (RetryConfirm.requestAirdrop Demo.neverConfirms (Some Demo.key) "-2" Demo.idle).
Proof.
  apply (rejected_airdrops_touch_nothing Demo.neverConfirms (Some Demo.key) "-2" Demo.idle).
  reflexivity.
Defined.

Lemma rejected_messages_touch_nothing_witness :
  returnsUntouched Demo.idle
    (Signer.handleSignMessage Demo.neverConfirms (Some Demo.key) "" Demo.idle) /\
  returnsUntouched Demo.idle
    (RetryConfirm.handleSignMessage Demo.neverConfirms (Some Demo.key) "" Demo.idle).
Proof.
  apply (rejected_messages_touch_nothing Demo.neverConfirms (Some Demo.key) "" Demo.idle).
  reflexivity.
Defined.


Lemma an_unconfirmed_transfer_is_sent_three_times_witness :
  let r := BoundedRetry.handleSend Scenes.sentButExpired (Some Demo.key) (Some Demo.recipient)
             (Some "1.5") Demo.idle in
  completion r = Normal tt /\
  loading (world r) = false /\
  error (world r) = None /\
  forallb silent (events r) = true /\
  List.length (filter isSentTransaction (events r)) = 3%nat /\
  List.length (filter isNetworkCall (events r)) = 9%nat.
Proof.
  apply (an_unconfirmed_transfer_is_sent_three_times Scenes.sentButExpired (Some Demo.key)
           (Some Demo.recipient) (Some "1.5") Demo.idle).
  - reflexivity.
  - intros fromPubkey toPubkey. vm_compute. reflexivity.
  - intros n. eexists. reflexivity.
  - intros n tx slot. eexists. reflexivity.
  - intros n req. eexists. split; reflexivity.
Defined.
